(** * A shallow embedding of [bitstore.py]

    The module stores runs of bits inside byte buffers.  Python objects live
    in a heap indexed by location, so that two buffers holding the same
    [bytearray] really share it; every function of the source is a function
    on that heap, returning either a value or the exception it raises. *)

From Stdlib Require Import ZArith Lia Bool.
From stdpp Require Import base list.

Local Open Scope Z_scope.

(** ** Exceptions and the two monads *)

Inductive exn :=
| AssertionError | IndexError | TypeError | ValueError
| AttributeError | CreationError | IOError | NotImplementedError.

Inductive res (A : Type) :=
| Ok (a : A)
| Raise (e : exn).
Arguments Ok {A} a.
Arguments Raise {A} e.

Definition rbind {A B} (m : res A) (k : A -> res B) : res B :=
  match m with Ok a => k a | Raise e => Raise e end.

Notation "x <- m ;; k" := (rbind m (fun x => k))
  (at level 100, m at next level, right associativity).

(** [assert c] *)
Definition assert (c : bool) : res unit :=
  if c then Ok tt else Raise AssertionError.

(** [try: m except AttributeError: handler] *)
Definition try_except {A} (m : res A) (handler : res A) : res A :=
  match m with
  | Raise AttributeError => handler
  | r => r
  end.

(** ** Python integers and sequences *)

Definition len {A} (l : list A) : Z := Z.of_nat (length l).

(** [divmod(a, 8)]: floor division, as Python has it. *)
Definition divmod (a b : Z) : Z * Z := (a / b, a mod b).

(** [x >> n] and [x << n]; a negative shift count raises ValueError. *)
Definition rshift (x n : Z) : res Z :=
  if n <? 0 then Raise ValueError else Ok (Z.shiftr x n).
Definition lshift (x n : Z) : res Z :=
  if n <? 0 then Raise ValueError else Ok (Z.shiftl x n).

(** [range(lo, hi)] *)
Definition range (lo hi : Z) : list Z :=
  map (fun i => lo + Z.of_nat i) (seq 0 (Z.to_nat (hi - lo))).

(** [d[i]] on a bytearray: negative indices count from the end. *)
Definition py_index (d : list Z) (i : Z) : res Z :=
  let j := if i <? 0 then i + len d else i in
  if (0 <=? j) && (j <? len d)
  then match d !! Z.to_nat j with
       | Some x => Ok x
       | None => Raise IndexError
       end
  else Raise IndexError.

(** Bound of a slice, clamped to the sequence. *)
Definition slice_bound (n i : Z) : Z :=
  if i <? 0 then Z.max 0 (i + n) else Z.min i n.

(** [d[s:e]] *)
Definition py_slice {A} (d : list A) (s e : Z) : list A :=
  let s' := slice_bound (len d) s in
  let e' := slice_bound (len d) e in
  take (Z.to_nat (e' - s')) (drop (Z.to_nat s') d).

Definition is_byte (v : Z) : bool := (0 <=? v) && (v <? 256).

(** [bytearray(values)]: every value must be in [range(256)]. *)
Definition to_bytearray (values : list Z) : res (list Z) :=
  if forallb is_byte values then Ok values else Raise ValueError.

(** [d[i] = v] *)
Definition py_setitem (d : list Z) (i v : Z) : res (list Z) :=
  let j := if i <? 0 then i + len d else i in
  if (0 <=? j) && (j <? len d)
  then if is_byte v then Ok (<[Z.to_nat j := v]> d) else Raise ValueError
  else Raise IndexError.

(** [d[s:e] = value] *)
Definition py_setslice (d : list Z) (s e : Z) (value : list Z) : res (list Z) :=
  let s' := slice_bound (len d) s in
  let e' := Z.max s' (slice_bound (len d) e) in
  _ <- to_bytearray value ;;
  Ok (take (Z.to_nat s') d ++ value ++ drop (Z.to_nat e') d).

(** [d.pop()] *)
Definition py_pop (d : list Z) : res (Z * list Z) :=
  match last d with
  | Some x => Ok (x, removelast d)
  | None => Raise IndexError
  end.

(** [d.append(v)] *)
Definition py_append (d : list Z) (v : Z) : res (list Z) :=
  if is_byte v then Ok (d ++ [v]) else Raise ValueError.

(** [mapM]: a [for] loop that appends one computed value per iteration. *)
Fixpoint mapM {A B} (f : A -> res B) (l : list A) : res (list B) :=
  match l with
  | [] => Ok []
  | x :: l' => y <- f x ;; ys <- mapM f l' ;; Ok (y :: ys)
  end.

(** A [for] loop whose body returns [False] from the function as soon as
    its test fails: [Ok true] when every iteration passes. *)
Fixpoint for_all {A} (f : A -> res bool) (l : list A) : res bool :=
  match l with
  | [] => Ok true
  | x :: l' => b <- f x ;; if b then for_all f l' else Ok false
  end.

(** ** Files

    A file is its content.  Every read of the source is an absolute [seek]
    followed by [read], so the position of the handle carries nothing from
    one access to the next and the pair is one positional read. *)

Abbreviation file := (list Z).

(** [source.seek(pos, os.SEEK_SET); source.read(n)] *)
Definition seek_read (source : file) (pos n : Z) : res (list Z) :=
  if pos <? 0 then Raise IOError
  else Ok (take (Z.to_nat n) (drop (Z.to_nat pos) source)).

(** [ord(s)] needs a string of length one. *)
Definition ord (s : list Z) : res Z :=
  match s with
  | [x] => Ok x
  | _ => Raise TypeError
  end.

(** ** Objects and the heap *)

Abbreviation loc := nat.

Inductive cls := ConstByteArray | ByteArray.

Inductive obj :=
| Bytes (data : list Z)
| Mem (c : cls) (rawarray : loc) (offset bitlength : Z)
| FileArray (source : file) (bytelength bitlength byteoffset offset : Z).

Abbreviation heap := (list obj).

Definition M (A : Type) := heap -> res (A * heap).

Definition ret {A} (a : A) : M A := fun h => Ok (a, h).
Definition mbnd {A B} (m : M A) (k : A -> M B) : M B :=
  fun h => match m h with Ok (a, h') => k a h' | Raise e => Raise e end.
(** Run a computation that only reads the heap. *)
Definition rd {A} (f : heap -> res A) : M A :=
  fun h => match f h with Ok a => Ok (a, h) | Raise e => Raise e end.
Definition alloc (o : obj) : M loc := fun h => Ok (length h, h ++ [o]).
Definition store (l : loc) (o : obj) : M unit := fun h => Ok (tt, <[l := o]> h).

Notation "x <~ m ;; k" := (mbnd m (fun x => k))
  (at level 100, m at next level, right associativity).

(** *** Attribute access *)

Definition get_bytes (h : heap) (l : loc) : res (list Z) :=
  match h !! l with
  | Some (Bytes d) => Ok d
  | _ => Raise TypeError
  end.

Definition get_rawarray (h : heap) (s : loc) : res loc :=
  match h !! s with
  | Some (Mem _ r _ _) => Ok r
  | _ => Raise AttributeError
  end.

Definition get_offset (h : heap) (s : loc) : res Z :=
  match h !! s with
  | Some (Mem _ _ o _) => Ok o
  | Some (FileArray _ _ _ _ o) => Ok o
  | _ => Raise AttributeError
  end.

Definition get_bitlength (h : heap) (s : loc) : res Z :=
  match h !! s with
  | Some (Mem _ _ _ n) => Ok n
  | Some (FileArray _ _ n _ _) => Ok n
  | _ => Raise AttributeError
  end.

Definition get_source (h : heap) (s : loc) : res file :=
  match h !! s with
  | Some (FileArray f _ _ _ _) => Ok f
  | _ => Raise AttributeError
  end.

(** The [bytelength] property of [ConstByteArray]. *)
Definition mem_bytelength (offset bitlength : Z) : Z :=
  if bitlength =? 0 then 0
  else
    let sb := offset / 8 in
    let eb := (offset + bitlength - 1) / 8 in
    if eb =? -1 then 1 else eb - sb + 1.

(** [s.bytelength]: a property of the in-memory classes, a slot of
    [FileArray]. *)
Definition get_bytelength (h : heap) (s : loc) : res Z :=
  match h !! s with
  | Some (Mem _ _ o n) => Ok (mem_bytelength o n)
  | Some (FileArray _ bl _ _ _) => Ok bl
  | _ => Raise AttributeError
  end.

(** [s.byteoffset] *)
Definition get_byteoffset (h : heap) (s : loc) : res Z :=
  match h !! s with
  | Some (Mem _ _ o _) => Ok (o / 8)
  | Some (FileArray _ _ _ bo _) => Ok bo
  | _ => Raise AttributeError
  end.

(** ** Reading *)

(** [getbit] of both the in-memory classes and [FileArray]. *)
Definition getbit (h : heap) (self : loc) (pos : Z) : res bool :=
  match h !! self with
  | Some (Mem _ r offset bitlength) =>
      _ <- assert ((0 <=? pos) && (pos <? bitlength)) ;;
      let '(byte, bit) := divmod (offset + pos) 8 in
      d <- get_bytes h r ;;
      x <- py_index d byte ;;
      Ok (negb (Z.land x (Z.shiftr 128 bit) =? 0))
  | Some (FileArray source _ bitlength byteoffset offset) =>
      _ <- assert ((0 <=? pos) && (pos <? bitlength)) ;;
      let '(byte, bit) := divmod (offset + pos) 8 in
      let byte := byte + byteoffset in
      s <- seek_read source byte 1 ;;
      x <- ord s ;;
      Ok (negb (Z.land x (Z.shiftr 128 bit) =? 0))
  | _ => Raise AttributeError
  end.

(** [getbyte] *)
Definition getbyte (h : heap) (self : loc) (pos : Z) : res Z :=
  match h !! self with
  | Some (Mem _ r offset _) =>
      d <- get_bytes h r ;;
      py_index d (pos + offset / 8)
  | Some (FileArray source bytelength _ byteoffset _) =>
      let pos := if pos <? 0 then pos + bytelength else pos in
      let pos := pos + byteoffset in
      s <- seek_read source pos 1 ;;
      ord s
  | _ => Raise AttributeError
  end.

(** [d[pos]] for the [d] of [offsetcopy] and [equal]: a bytearray is indexed,
    a [FileArray] answers through [__getitem__], and the in-memory buffer
    classes define no [__getitem__]. *)
Definition getitem (h : heap) (d : loc) (pos : Z) : res Z :=
  match h !! d with
  | Some (Bytes data) => py_index data pos
  | Some (FileArray _ _ _ byteoffset _) => getbyte h d (pos + byteoffset)
  | Some (Mem _ _ _ _) => Raise TypeError
  | None => Raise TypeError
  end.

(** [getbyteslice]: the result is a new bytearray. *)
Definition getbyteslice (self : loc) (start end_ : Z) : M loc :=
  fun h =>
  match h !! self with
  | Some (Mem _ r offset _) =>
      (d <~ rd (fun h => get_bytes h r) ;;
       alloc (Bytes (py_slice d (start + offset / 8) (end_ + offset / 8)))) h
  | Some (FileArray source _ _ byteoffset _) =>
      if start <? end_
      then (s <~ rd (fun _ => seek_read source (start + byteoffset) (end_ - start)) ;;
            alloc (Bytes s)) h
      else alloc (Bytes []) h
  | _ => Raise AttributeError
  end.

(** The [rawbytes] property. *)
Definition rawbytes (self : loc) : M loc :=
  fun h =>
  match h !! self with
  | Some (Mem _ r _ _) => Ok (r, h)
  | Some (FileArray _ bytelength _ _ _) =>
      (c <~ getbyteslice self 0 bytelength ;;
       d <~ rd (fun h => get_bytes h c) ;;
       alloc (Bytes d)) h
  | _ => Raise AttributeError
  end.

(** ** Construction *)

(** [ConstByteArray.__init__], shared by [ByteArray]: the data must be a
    bytearray, and the buffer keeps that very object. *)
Definition new_mem (c : cls) (data : loc) (bitlength offset : Z) : M loc :=
  fun h =>
  match h !! data with
  | Some (Bytes _) => alloc (Mem c data offset bitlength) h
  | _ => Raise AssertionError
  end.

(** [FileArray.__init__]; [bitlength] is [None] for the rest of the file. *)
Definition new_file (source : file) (bitlength : option Z) (offset : Z) : M loc :=
  let '(byteoffset, bitoffset) := divmod offset 8 in
  let filelength := len source in
  let '(bytelength, bitlength) :=
    match bitlength with
    | None => (filelength - byteoffset, (filelength - byteoffset) * 8 - bitoffset)
    | Some n => ((n + bitoffset + 7) / 8, n)
    end in
  if bytelength >? filelength - byteoffset
  then fun _ => Raise CreationError
  else alloc (FileArray source bytelength bitlength byteoffset bitoffset).

(** [__copy__]: [self._rawarray[:]] is a new bytearray with the same bytes. *)
Definition copy (self : loc) : M loc :=
  fun h =>
  match h !! self with
  | Some (Mem _ r offset bitlength) =>
      (d <~ rd (fun h => get_bytes h r) ;;
       c <~ alloc (Bytes d) ;;
       new_mem ByteArray c bitlength offset) h
  | Some (FileArray _ _ bitlength _ offset) =>
      (r <~ rawbytes self ;; new_mem ByteArray r bitlength offset) h
  | _ => Raise AttributeError
  end.

(** [try ... except AttributeError] around a computation on the heap. *)
Definition try_exceptM {A} (m handler : M A) : M A :=
  fun h => match m h with
           | Raise AttributeError => handler h
           | r => r
           end.

(** [slice(ba, bitlength, offset)] *)
Definition slice (ba : loc) (bitlength offset : Z) : M loc :=
  try_exceptM
    (r <~ rd (fun h => get_rawarray h ba) ;;
     o <~ rd (fun h => get_offset h ba) ;;
     new_mem ByteArray r bitlength (o + offset))
    (src <~ rd (fun h => get_source h ba) ;;
     bo <~ rd (fun h => get_byteoffset h ba) ;;
     o <~ rd (fun h => get_offset h ba) ;;
     new_file src (Some bitlength) (8 * bo + o + offset)).

(** ** [offsetcopy] *)

(** [bits_in_last_byte], with 0 read as 8. *)
Definition bits_in_last_byte (offset bitlength : Z) : Z :=
  let b := (offset + bitlength) mod 8 in
  if b =? 0 then 8 else b.

(** The bytes [newdata] of the shifting branches.  The shift counts are
    differences of residues modulo 8 on the side of the comparison that
    makes them positive, so no shift here can raise. *)
Definition offsetcopy_newdata (h : heap) (s : loc) (newoffset : Z) : res (list Z) :=
  d <- try_except (get_rawarray h s) (Ok s) ;;
  offset <- get_offset h s ;;
  bitlength <- get_bitlength h s ;;
  byteoffset <- get_byteoffset h s ;;
  bytelength <- get_bytelength h s ;;
  if newoffset <? offset mod 8 then
    let shiftleft := offset mod 8 - newoffset in
    newdata <- mapM (fun x =>
                 a <- getitem h d x ;;
                 b <- getitem h d (x + 1) ;;
                 Ok (Z.land (Z.shiftl a shiftleft) 255 + Z.shiftr b (8 - shiftleft)))
               (range byteoffset (byteoffset + bytelength - 1)) ;;
    if bits_in_last_byte offset bitlength >? shiftleft then
      a <- getitem h d (byteoffset + bytelength - 1) ;;
      Ok (newdata ++ [Z.land (Z.shiftl a shiftleft) 255])
    else Ok newdata
  else
    let shiftright := newoffset - offset mod 8 in
    first <- getbyte h s 0 ;;
    rest <- mapM (fun x =>
              a <- getitem h d (x - 1) ;;
              b <- getitem h d x ;;
              Ok (Z.land (Z.shiftl a (8 - shiftright)) 255 + Z.shiftr b shiftright))
            (range 1 bytelength) ;;
    let newdata := Z.shiftr first shiftright :: rest in
    if bits_in_last_byte offset bitlength + shiftright >? 8 then
      a <- getitem h d (byteoffset + bytelength - 1) ;;
      Ok (newdata ++ [Z.land (Z.shiftl a (8 - shiftright)) 255])
    else Ok newdata.

Definition offsetcopy (s : loc) (newoffset : Z) : M loc :=
  _ <~ rd (fun _ => assert ((0 <=? newoffset) && (newoffset <? 8))) ;;
  bitlength <~ rd (fun h => get_bitlength h s) ;;
  if bitlength =? 0 then copy s
  else
    offset <~ rd (fun h => get_offset h s) ;;
    if newoffset =? offset mod 8 then
      bytelength <~ rd (fun h => get_bytelength h s) ;;
      c <~ getbyteslice s 0 bytelength ;;
      new_mem ByteArray c bitlength newoffset
    else
      newdata <~ rd (fun h => offsetcopy_newdata h s newoffset) ;;
      bytes <~ rd (fun _ => to_bytearray newdata) ;;
      c <~ alloc (Bytes bytes) ;;
      new_mem ByteArray c bitlength newoffset.

(** ** The mutable buffer *)

(** The fields of a [ByteArray]; the mutators are methods of that class
    only, so any other receiver raises AttributeError. *)
Definition get_ByteArray (h : heap) (self : loc) : res (loc * Z * Z) :=
  match h !! self with
  | Some (Mem ByteArray r offset bitlength) => Ok (r, offset, bitlength)
  | _ => Raise AttributeError
  end.

(** Replace the content of a bytearray object in place. *)
Definition set_bytes (r : loc) (d : list Z) : M unit := store r (Bytes d).

(** [self._rawarray[byte] op= mask], shared shape of the three bit mutators. *)
Definition update_bit (op : Z -> Z -> Z) (self : loc) (pos : Z) : M unit :=
  t <~ rd (fun h => get_ByteArray h self) ;;
  let '(r, offset, bitlength) := t in
  _ <~ rd (fun _ => assert ((0 <=? pos) && (pos <? bitlength))) ;;
  let '(byte, bit) := divmod (offset + pos) 8 in
  d <~ rd (fun h => get_bytes h r) ;;
  x <~ rd (fun _ => py_index d byte) ;;
  d' <~ rd (fun _ => py_setitem d byte (op x (Z.shiftr 128 bit))) ;;
  set_bytes r d'.

Definition setbit : loc -> Z -> M unit := update_bit Z.lor.
Definition unsetbit : loc -> Z -> M unit :=
  update_bit (fun x m => Z.land x (Z.lnot m)).
Definition invertbit : loc -> Z -> M unit := update_bit Z.lxor.

Definition setbyte (self : loc) (pos value : Z) : M unit :=
  t <~ rd (fun h => get_ByteArray h self) ;;
  let '(r, offset, _) := t in
  d <~ rd (fun h => get_bytes h r) ;;
  d' <~ rd (fun _ => py_setitem d (pos + offset / 8) value) ;;
  set_bytes r d'.

Definition setbyteslice (self : loc) (start end_ : Z) (value : list Z) : M unit :=
  t <~ rd (fun h => get_ByteArray h self) ;;
  let '(r, offset, _) := t in
  d <~ rd (fun h => get_bytes h r) ;;
  d' <~ rd (fun _ => py_setslice d (start + offset / 8) (end_ + offset / 8) value) ;;
  set_bytes r d'.

(** [appendarray]; the in-memory read-only class and [FileArray] inherit the
    stub of [BaseArray]. *)
Definition appendarray (self array : loc) : M unit :=
  fun h =>
  match h !! self with
  | Some (Mem ByteArray _ _ _) =>
    (n <~ rd (fun h => get_bitlength h array) ;;
     if n =? 0 then ret tt
     else
       t <~ rd (fun h => get_ByteArray h self) ;;
  let '(r, offset, bitlength) := t in
       array <~ offsetcopy array ((offset + bitlength) mod 8) ;;
       aoff <~ rd (fun h => get_offset h array) ;;
       araw <~ rd (fun h => get_rawarray h array) ;;
       _ <~ (if negb (aoff =? 0) then
               d <~ rd (fun h => get_bytes h r) ;;
               t <~ rd (fun _ => py_pop d) ;;
  let '(x, d1) := t in
               _ <~ set_bytes r d1 ;;
               y <~ rd (fun h => getbyte h array 0) ;;
               let joinval :=
                 Z.lor (Z.land x (Z.lxor 255 (Z.shiftr 255 aoff)))
                       (Z.land y (Z.shiftr 255 aoff)) in
               d2 <~ rd (fun h => d <- get_bytes h r ;; py_append d joinval) ;;
               _ <~ set_bytes r d2 ;;
               ad <~ rd (fun h => get_bytes h araw) ;;
               d3 <~ rd (fun h => get_bytes h r) ;;
               set_bytes r (d3 ++ py_slice ad 1 (len ad))
             else
               ad <~ rd (fun h => get_bytes h araw) ;;
               d <~ rd (fun h => get_bytes h r) ;;
               set_bytes r (d ++ ad)) ;;
       an <~ rd (fun h => get_bitlength h array) ;;
       t <~ rd (fun h => get_ByteArray h self) ;;
  let '(r', offset', bitlength') := t in
       store self (Mem ByteArray r' offset' (bitlength' + an))) h
  | Some (Mem ConstByteArray _ _ _) | Some (FileArray _ _ _ _ _) =>
      Raise NotImplementedError
  | _ => Raise AttributeError
  end.

(** [prependarray] *)
Definition prependarray (self array : loc) : M unit :=
  fun h =>
  match h !! self with
  | Some (Mem ByteArray _ _ _) =>
    (n <~ rd (fun h => get_bitlength h array) ;;
     if n =? 0 then ret tt
     else
       t <~ rd (fun h => get_ByteArray h self) ;;
  let '(r, offset, bitlength) := t in
       array <~ offsetcopy array ((offset - n) mod 8) ;;
       aoff <~ rd (fun h => get_offset h array) ;;
       an <~ rd (fun h => get_bitlength h array) ;;
       _ <~ rd (fun _ => assert ((aoff + an) mod 8 =? offset)) ;;
       araw <~ rd (fun h => get_rawarray h array) ;;
       _ <~ (if negb (offset =? 0) then
               x <~ rd (fun h => getbyte h array (-1)) ;;
               d <~ rd (fun h => get_bytes h r) ;;
               y <~ rd (fun _ => py_index d 0) ;;
               _ <~ setbyte array (-1)
                      (Z.lor (Z.land x (Z.lxor 255 (Z.shiftr 255 offset)))
                             (Z.land y (Z.shiftr 255 offset))) ;;
               ad <~ rd (fun h => get_bytes h araw) ;;
               d <~ rd (fun h => get_bytes h r) ;;
               set_bytes araw (ad ++ py_slice d 1 (mem_bytelength offset bitlength))
             else
               ad <~ rd (fun h => get_bytes h araw) ;;
               d <~ rd (fun h => get_bytes h r) ;;
               set_bytes araw (ad ++ py_slice d 0 (mem_bytelength offset bitlength))) ;;
       araw' <~ rd (fun h => get_rawarray h array) ;;
       aoff' <~ rd (fun h => get_offset h array) ;;
       an' <~ rd (fun h => get_bitlength h array) ;;
       store self (Mem ByteArray araw' aoff' (bitlength + an'))) h
  | Some (Mem ConstByteArray _ _ _) | Some (FileArray _ _ _ _ _) =>
      Raise NotImplementedError
  | _ => Raise AttributeError
  end.

(** ** [equal] *)

(** [((d[byteoffset] << bitoff) & 0xff) >> (8 - bitlength)] *)
Definition single_byte_val (h : heap) (d : loc) (byteoffset bitoff bitlength : Z)
  : res Z :=
  x <- getitem h d byteoffset ;;
  rshift (Z.land (Z.shiftl x bitoff) 255) (8 - bitlength).

(** The value of the final bits, 0 read as 8. *)
Definition final_bits (offset bitlength : Z) : Z :=
  let f := (offset + bitlength) mod 8 in
  if f =? 0 then 8 else f.

(** The comparison once [a] is the operand with the smaller bit offset.
    Apart from the three shifts by [8 - bitlength] and [16 - bitlength],
    every shift count is a residue modulo 8, [8] minus a value of [1..8], or
    the positive difference [shift], and cannot be negative. *)
Definition equal_ordered (h : heap) (a b : loc) (a_bitlength b_bitlength : Z)
  : res bool :=
  a_offset <- get_offset h a ;;
  b_offset <- get_offset h b ;;
  let a_bitoff := a_offset mod 8 in
  let b_bitoff := b_offset mod 8 in
  a_byteoffset <- get_byteoffset h a ;;
  b_byteoffset <- get_byteoffset h b ;;
  a_bytelength <- get_bytelength h a ;;
  b_bytelength <- get_bytelength h b ;;
  dd <- try_except
          (da <- get_rawarray h a ;; db <- get_rawarray h b ;; Ok (da, db))
          (Ok (a, b)) ;;
  let '(da, db) := dd in
  if (Nat.eqb da db) && (a_offset =? b_offset) then Ok true
  else if a_bitoff =? b_bitoff then
    let spare := 8 - (a_bitoff + a_bitlength) mod 8 in
    let bits_spare_in_last_byte := if spare =? 8 then 0 else spare in
    if a_bytelength =? 1 then
      a_val <- single_byte_val h da a_byteoffset a_bitoff a_bitlength ;;
      b_val <- single_byte_val h db b_byteoffset b_bitoff b_bitlength ;;
      Ok (a_val =? b_val)
    else
      x <- getitem h da a_byteoffset ;;
      y <- getitem h db b_byteoffset ;;
      if negb (Z.land x (Z.shiftr 255 a_bitoff) =? Z.land y (Z.shiftr 255 b_bitoff))
      then Ok false
      else
        let b_a_offset := b_byteoffset - a_byteoffset in
        middle <- for_all (fun x =>
                    u <- getitem h da x ;;
                    v <- getitem h db (b_a_offset + x) ;;
                    Ok (u =? v))
                  (range (1 + a_byteoffset) (a_byteoffset + a_bytelength - 1)) ;;
        if negb middle then Ok false
        else
          u <- getitem h da (a_byteoffset + a_bytelength - 1) ;;
          v <- getitem h db (b_byteoffset + b_bytelength - 1) ;;
          if negb (Z.shiftr u bits_spare_in_last_byte
                   =? Z.shiftr v bits_spare_in_last_byte)
          then Ok false
          else Ok true
  else
    let shift := b_bitoff - a_bitoff in
    if b_bytelength =? 1 then
      _ <- assert (a_bytelength =? 1) ;;
      a_val <- single_byte_val h da a_byteoffset a_bitoff a_bitlength ;;
      b_val <- single_byte_val h db b_byteoffset b_bitoff b_bitlength ;;
      Ok (a_val =? b_val)
    else if a_bytelength =? 1 then
      _ <- assert (b_bytelength =? 2) ;;
      a_val <- single_byte_val h da a_byteoffset a_bitoff a_bitlength ;;
      y0 <- getitem h db b_byteoffset ;;
      y1 <- getitem h db (b_byteoffset + 1) ;;
      let b_val := Z.shiftl y0 8 + y1 in
      let b_val := Z.land (Z.shiftl b_val b_bitoff) 65535 in
      b_val <- rshift b_val (16 - b_bitlength) ;;
      Ok (a_val =? b_val)
    else
      x <- getitem h da a_byteoffset ;;
      y <- getitem h db b_byteoffset ;;
      if negb (Z.shiftr (Z.land x (Z.shiftr 255 a_bitoff)) shift
               =? Z.land y (Z.shiftr 255 b_bitoff))
      then Ok false
      else
        middle <- for_all (fun x =>
                    b_val <- getitem h db (b_byteoffset + x) ;;
                    u <- getitem h da (a_byteoffset + x - 1) ;;
                    v <- getitem h da (a_byteoffset + x) ;;
                    let a_val := Z.land (Z.shiftr (Z.shiftl u 8 + v) shift) 255 in
                    Ok (a_val =? b_val))
                  (range 1 (b_bytelength - 1)) ;;
        if negb middle then Ok false
        else
          let final_b_bits := final_bits b_offset b_bitlength in
          y <- getitem h db (b_byteoffset + b_bytelength - 1) ;;
          let b_val := Z.shiftr y (8 - final_b_bits) in
          let final_a_bits := final_bits a_offset a_bitlength in
          if b_bytelength >? a_bytelength then
            _ <- assert (b_bytelength =? a_bytelength + 1) ;;
            u <- getitem h da (a_byteoffset + a_bytelength - 1) ;;
            let a_val := Z.shiftr u (8 - final_a_bits) in
            let a_val := Z.land a_val (Z.shiftr 255 (8 - final_b_bits)) in
            Ok (a_val =? b_val)
          else
            _ <- assert (a_bytelength =? b_bytelength) ;;
            u <- getitem h da (a_byteoffset + a_bytelength - 2) ;;
            v <- getitem h da (a_byteoffset + a_bytelength - 1) ;;
            let a_val := Z.shiftr (Z.shiftl u 8 + v) (8 - final_a_bits) in
            let a_val := Z.land a_val (Z.shiftr 255 (8 - final_b_bits)) in
            Ok (a_val =? b_val).

Definition equal (h : heap) (a b : loc) : res bool :=
  a_bitlength <- get_bitlength h a ;;
  b_bitlength <- get_bitlength h b ;;
  if negb (a_bitlength =? b_bitlength) then Ok false
  else if a_bitlength =? 0 then Ok true
  else
    a_offset <- get_offset h a ;;
    b_offset <- get_offset h b ;;
    if a_offset mod 8 >? b_offset mod 8
    then equal_ordered h b a a_bitlength b_bitlength
    else equal_ordered h a b a_bitlength b_bitlength.

(** * Vocabulary of the properties *)

(** ** Outcomes and heaps *)

(** The call ends in an exception. *)
Definition raises {A} (r : res A) : Prop :=
  match r with Raise _ => True | Ok _ => False end.

(** [l] is a buffer created after [h], over a bytearray created after [h]. *)
Definition fresh_buffer (h h' : heap) (l : loc) : Prop :=
  exists t rr d off bl,
    h' = h ++ t
    /\ h' !! l = Some (Mem ByteArray rr off bl)
    /\ h' !! rr = Some (Bytes d)
    /\ (length h <= rr)%nat /\ (length h <= l)%nat.

(** [frame S h h']: [h'] has every object of [h], unchanged outside [S]. *)
Definition frame (S : loc -> Prop) (h h' : heap) : Prop :=
  (length h <= length h')%nat
  /\ forall x, (x < length h)%nat -> ~ S x -> h' !! x = h !! x.

(** The mutating methods of [ByteArray], as data. *)
Inductive mutation :=
| Setbit (pos : Z)
| Unsetbit (pos : Z)
| Invertbit (pos : Z)
| Setbyte (pos value : Z)
| Setbyteslice (start end_ : Z) (value : list Z)
| Appendarray (array : loc)
| Prependarray (array : loc).

Definition mutate (self : loc) (m : mutation) : M unit :=
  match m with
  | Setbit pos => setbit self pos
  | Unsetbit pos => unsetbit self pos
  | Invertbit pos => invertbit self pos
  | Setbyte pos value => setbyte self pos value
  | Setbyteslice s e value => setbyteslice self s e value
  | Appendarray array => appendarray self array
  | Prependarray array => prependarray self array
  end.

Fixpoint mutate_all (self : loc) (ms : list mutation) : M unit :=
  match ms with
  | [] => ret tt
  | m :: ms' => _ <~ mutate self m ;; mutate_all self ms'
  end.

(** What a successful mutation of [self] leaves behind: [self] is still a
    [ByteArray], over its old bytearray or over one allocated meanwhile, and
    nothing else that existed before has changed. *)
Definition touches_only_self (self : loc) (h h' : heap) : Prop :=
  exists r o n r' o' n',
    h !! self = Some (Mem ByteArray r o n)
    /\ h' !! self = Some (Mem ByteArray r' o' n')
    /\ (r' = r \/ (length h <= r')%nat)
    /\ frame (fun x => x = self \/ x = r) h h'.

(** Mutations of a buffer whose bytearray was created after [h0] leave
    every object of [h0] as it was. *)
Definition owned_after (h0 h : heap) (l : loc) : Prop :=
  (exists rr o n, h !! l = Some (Mem ByteArray rr o n) /\ (length h0 <= rr)%nat)
  /\ (length h0 <= l)%nat
  /\ frame (fun _ => False) h0 h.

(** Mutations of a buffer that is older than the objects at [lo..hi) and
    whose bytearray is not among them leave those objects as they were. *)
Definition zone_kept (lo hi : nat) (h1 h : heap) (s : loc) : Prop :=
  (hi <= length h)%nat
  /\ (forall r o n, h !! s = Some (Mem ByteArray r o n) -> (r < lo \/ hi <= r)%nat)
  /\ (forall x, (lo <= x < hi)%nat -> h !! x = h1 !! x).

(** No buffer of the heap points outside it. *)
Definition wf_heap (h : heap) : Prop :=
  forall l c r o n, h !! l = Some (Mem c r o n) -> exists d, h !! r = Some (Bytes d).

(** The offset of the buffer at [l] is a bit offset, in [0, 8). *)
Definition offset_ok (h : heap) (l : loc) : Prop :=
  exists o, get_offset h l = Ok o /\ 0 <= o < 8.

(** ** Bytes and bit positions *)

(** The byte at index [i] of the storage [d]. *)
Definition byte_at (d : list Z) (i : Z) : Z := default 0 (d !! Z.to_nat i).

(** The bit at absolute position [k] of the storage [d], bit 0 of a byte
    being its most significant bit. *)
Definition bit_at (d : list Z) (k : Z) : bool :=
  Z.testbit (byte_at d (k / 8)) (7 - k mod 8).

(** Every element of the storage is a byte. *)
Definition bytes_ok (d : list Z) : Prop := Forall (fun x => 0 <= x < 256) d.

(** [view v d hi w]: the [w] low bits of [v] are the bits of [d] at the
    positions [hi - w + 1 .. hi], the lowest bit of [v] being the bit at
    [hi]; [v] has no other bit set. *)
Definition view (v : Z) (d : list Z) (hi w : Z) : Prop :=
  forall k, 0 <= k -> Z.testbit v k = (k <? w) && bit_at d (hi - k).

(** Two runs of [w] bits starting at [p1] in [d1] and at [p2] in [d2]. *)
Definition seg_same (d1 : list Z) (p1 : Z) (d2 : list Z) (p2 w : Z) : Prop :=
  forall i, 0 <= i < w -> bit_at d1 (p1 + i) = bit_at d2 (p2 + i).

(** An in-memory buffer whose storage covers its bits. *)
Definition mem_buffer (h : heap) (l : loc) (d : list Z) (o n : Z) : Prop :=
  (exists c r, h !! l = Some (Mem c r o n) /\ h !! r = Some (Bytes d))
  /\ bytes_ok d /\ 0 <= o /\ 0 <= n /\ (n = 0 \/ o + n <= 8 * len d).

(** ** Storage built by [offsetcopy], [appendarray] and [prependarray] *)

(** The bytes that the left-shifting branch of [offsetcopy] builds from the
    storage [d] of a buffer with offset [o] and bitlength [n], for the new
    offset [k]. *)
Definition left_data (d : list Z) (o n k : Z) : list Z :=
  map (fun x => Z.land (Z.shiftl (byte_at d x) (o - k)) 255
                + Z.shiftr (byte_at d (x + 1)) (8 - (o - k)))
      (range 0 (((o + n - 1) / 8 + 1) - 1))
  ++ (if (o + n - 1) mod 8 + 1 >? o - k
      then [Z.land (Z.shiftl (byte_at d (((o + n - 1) / 8 + 1) - 1)) (o - k)) 255]
      else []).

(** The bytes that the right-shifting branch of [offsetcopy] builds. *)
Definition right_data (d : list Z) (o n k : Z) : list Z :=
  (Z.shiftr (byte_at d 0) (k - o)
   :: map (fun x => Z.land (Z.shiftl (byte_at d (x - 1)) (8 - (k - o))) 255
                    + Z.shiftr (byte_at d x) (k - o))
          (range 1 ((o + n - 1) / 8 + 1)))
  ++ (if (o + n - 1) mod 8 + 1 + (k - o) >? 8
      then [Z.land (Z.shiftl (byte_at d (((o + n - 1) / 8 + 1) - 1)) (8 - (k - o))) 255]
      else []).

(** The storage [da] of the receiver after the realigned bytes [d'] at bit
    offset [k] have been joined to it. *)
Definition append_bytes (da d' : list Z) (k : Z) : list Z :=
  if k =? 0 then da ++ d'
  else (take (Z.to_nat (len da - 1)) da
        ++ [Z.lor (Z.land (byte_at da (len da - 1)) (Z.lxor 255 (Z.shiftr 255 k)))
                  (Z.land (byte_at d' 0) (Z.shiftr 255 k))])
       ++ drop 1 d'.

(** The storage of the receiver after [prependarray]: the realigned bytes
    [d'], their last byte merged with the first byte of [db] when the
    receiver's offset [ob] is not 0, followed by the rest of the receiver's
    [blb] bytes. *)
Definition prepend_bytes (d' db : list Z) (ob blb : Z) : list Z :=
  if ob =? 0 then d' ++ py_slice db 0 blb
  else <[Z.to_nat (len d' - 1) :=
           Z.lor (Z.land (byte_at d' (len d' - 1)) (Z.lxor 255 (Z.shiftr 255 ob)))
                 (Z.land (byte_at db 0) (Z.shiftr 255 ob))]> d'
       ++ py_slice db 1 blb.

(** ** Scenarios *)

(** The bitlength of [c] and the answers of [equal] on its first
    [a.bitlength] bits against [a] and on its next [b.bitlength] bits
    against [b]. *)
Definition compare_slices (c a b : loc) : M (Z * bool * bool) :=
  n <~ rd (fun h => get_bitlength h c) ;;
  na <~ rd (fun h => get_bitlength h a) ;;
  nb <~ rd (fun h => get_bitlength h b) ;;
  s1 <~ slice c na 0 ;;
  e1 <~ rd (fun h => equal h s1 a) ;;
  s2 <~ slice c nb na ;;
  e2 <~ rd (fun h => equal h s2 b) ;;
  ret (n, e1, e2).

(** The scenario of the append property: append [b] to a copy of [a], then
    compare the two slices of the result with [a] and with [b]. *)
Definition append_scenario (a b : loc) : M (Z * bool * bool) :=
  c <~ copy a ;;
  _ <~ appendarray c b ;;
  compare_slices c a b.

(** The scenario of the prepend property: prepend [a] to a copy of [b],
    then compare the two slices of the result with [a] and with [b]. *)
Definition prepend_scenario (a b : loc) : M (Z * bool * bool) :=
  c <~ copy b ;;
  _ <~ prependarray c a ;;
  compare_slices c a b.

(** A file-backed buffer as [FileArray.__init__] builds it for a
    non-negative offset and bitlength: the window lies inside the file. *)
Definition file_buffer (h : heap) (l : loc) (src : file) (bo o n : Z) : Prop :=
  h !! l = Some (FileArray src ((n + o + 7) / 8) n bo o)
  /\ bytes_ok src /\ 0 <= bo /\ 0 <= o < 8 /\ 0 <= n
  /\ bo + (n + o + 7) / 8 <= len src.

(** * Properties *)

(** ** Bits of integers *)

Lemma land_pow2 (x k : Z) :
  0 <= k -> Z.land x (2 ^ k) = if Z.testbit x k then 2 ^ k else 0.
Proof.
  intros Hk. apply Z.bits_inj'. intros j Hj.
  rewrite Z.land_spec, Z.pow2_bits_eqb by lia.
  destruct (Z.eqb_spec k j) as [->|Hne].
  - destruct (Z.testbit x j); simpl.
    + rewrite Z.pow2_bits_eqb by lia. now rewrite Z.eqb_refl.
    + now rewrite Z.bits_0.
  - rewrite andb_false_r. destruct (Z.testbit x k).
    + rewrite Z.pow2_bits_eqb by lia. symmetry. now apply Z.eqb_neq.
    + now rewrite Z.bits_0.
Qed.

Lemma shiftr_128 (bit : Z) : 0 <= bit < 8 -> Z.shiftr 128 bit = 2 ^ (7 - bit).
Proof.
  intros H.
  assert (bit = 0 \/ bit = 1 \/ bit = 2 \/ bit = 3 \/ bit = 4 \/ bit = 5
          \/ bit = 6 \/ bit = 7) as Hc by lia.
  repeat destruct Hc as [->|Hc]; try reflexivity. subst. reflexivity.
Qed.

(** The mask test of [getbit] reads bit [7 - bit], most significant first. *)
Lemma mask_test (x bit : Z) :
  0 <= bit < 8 ->
  negb (Z.land x (Z.shiftr 128 bit) =? 0) = Z.testbit x (7 - bit).
Proof.
  intros H. rewrite shiftr_128, land_pow2 by lia.
  destruct (Z.testbit x (7 - bit)); [|reflexivity].
  assert (0 < 2 ^ (7 - bit)) by (apply Z.pow_pos_nonneg; lia).
  destruct (Z.eqb_spec (2 ^ (7 - bit)) 0); [lia|reflexivity].
Qed.

Lemma mod8_range (a : Z) : 0 <= a mod 8 < 8.
Proof. apply Z.mod_pos_bound. lia. Qed.

(** ** Point reads *)

(** C8. On an in-memory buffer over the bytes [d], [getbit pos] for [pos] in
    [0, bitlength) takes [(byte, bit) = divmod (offset + pos) 8] and returns
    bit [7 - bit] of [d[byte]], most significant bit first; over the single
    byte 0b10110100 with offset 2 and bitlength 4 the bits read are 1101. *)
Theorem getbit_msb_first :
  (forall (h : heap) (self : loc) c r offset bitlength (d : list Z) pos,
      h !! self = Some (Mem c r offset bitlength) ->
      h !! r = Some (Bytes d) ->
      0 <= pos < bitlength ->
      getbit h self pos =
        (x <- py_index d ((offset + pos) / 8) ;;
         Ok (Z.testbit x (7 - (offset + pos) mod 8))))
  /\ (let h := [Bytes [180]; Mem ByteArray 0%nat 2 4] in
      getbit h 1%nat 0 = Ok true /\ getbit h 1%nat 1 = Ok true /\
      getbit h 1%nat 2 = Ok false /\ getbit h 1%nat 3 = Ok true).
Proof.
  split.
  - intros h self c r offset bitlength d pos Hs Hr Hpos.
    unfold getbit, get_bytes, divmod. rewrite Hs, Hr.
    replace ((0 <=? pos) && (pos <? bitlength)) with true
      by (symmetry; apply andb_true_iff; split; [apply Z.leb_le|apply Z.ltb_lt]; lia).
    simpl. destruct (py_index d ((offset + pos) / 8)) as [x|e]; simpl; [|reflexivity].
    now rewrite mask_test by apply mod8_range.
  - repeat split; reflexivity.
Qed.

Lemma getbit_msb_first_witness :
  getbit [Bytes [1; 128]; Mem ConstByteArray 0%nat 3 9] 1%nat 5 = Ok true.
Proof.
  rewrite (proj1 getbit_msb_first _ _ ConstByteArray 0%nat 3 9 [1; 128] 5);
    [reflexivity | reflexivity | reflexivity | lia].
Defined.

(** ** Construction from a file *)

(** C6. With [byteoffset, bitoffset = divmod offset 8], building a
    file-backed buffer of [n] bits raises the creation error exactly when
    [n > (fileSize - byteoffset) * 8 - bitoffset]; otherwise the buffer has
    bitlength [n] and offset [bitoffset]. *)
Theorem new_file_fits (source : file) (n offset : Z) (h : heap) :
  0 <= offset -> 0 <= n ->
  let bound := (len source - offset / 8) * 8 - offset mod 8 in
  (new_file source (Some n) offset h = Raise CreationError <-> n > bound)
  /\ ((exists e, new_file source (Some n) offset h = Raise e) <-> n > bound)
  /\ (n <= bound ->
      exists l h', new_file source (Some n) offset h = Ok (l, h')
                   /\ get_bitlength h' l = Ok n
                   /\ get_offset h' l = Ok (offset mod 8)).
Proof.
  intros Ho Hn bound. unfold new_file, divmod, alloc.
  pose proof (mod8_range offset) as Hm.
  destruct (Z.gtb_spec ((n + offset mod 8 + 7) / 8) (len source - offset / 8))
    as [Hgt|Hle].
  - assert (n > bound) by (unfold bound; Z.div_mod_to_equations; lia).
    repeat split; try tauto; try (intros; eexists; reflexivity). lia.
  - assert (n <= bound) by (unfold bound; Z.div_mod_to_equations; lia).
    split; [|split].
    + split; [discriminate|lia].
    + split; [intros [e He]; discriminate|lia].
    + intros _. do 2 eexists. split; [reflexivity|].
      unfold get_bitlength, get_offset.
      rewrite list_lookup_middle by reflexivity. split; reflexivity.
Qed.

Lemma new_file_fits_witness :
  new_file [1; 2; 3] (Some 17) 8 [] = Raise CreationError
  /\ exists l h', new_file [1; 2; 3] (Some 13) 11 [] = Ok (l, h')
                  /\ get_bitlength h' l = Ok 13 /\ get_offset h' l = Ok 3.
Proof.
  split.
  - apply (new_file_fits [1; 2; 3] 17 8 []); [lia | lia | vm_compute; reflexivity].
  - apply (new_file_fits [1; 2; 3] 13 11 []); [lia | lia | vm_compute; discriminate].
Defined.

(** ** [getbyte] with a negative position *)

(** On a file-backed buffer a negative position counts from the end of the
    addressed region. *)
Lemma getbyte_file_negative (h : heap) (self : loc) src bytelength n bo o pos :
  h !! self = Some (FileArray src bytelength n bo o) ->
  - bytelength <= pos < 0 ->
  getbyte h self pos = getbyte h self (bytelength + pos).
Proof.
  intros Hs Hpos. unfold getbyte. rewrite Hs.
  destruct (Z.ltb_spec pos 0); [|lia].
  destruct (Z.ltb_spec (bytelength + pos) 0); [lia|].
  now rewrite (Z.add_comm pos bytelength).
Qed.

(** C9. [getbyte (-1)] of an in-memory buffer indexes the raw storage from
    its end: with storage [1; 2; 3] and an addressed region of one byte, it
    returns 3 when the region is the first byte and 1 (the byte before the
    region) when the region is the second byte, where the last byte of the
    region is 1 and 2; the file-backed buffer over the same bytes returns the
    last byte of the region. *)
Theorem getbyte_negative_mem_counts_from_storage_end :
  let h := [Bytes [1; 2; 3];
            Mem ByteArray 0%nat 0 8; Mem ByteArray 0%nat 8 8;
            FileArray [1; 2; 3] 1 8 0 0; FileArray [1; 2; 3] 1 8 1 0] in
  (get_bytelength h 1%nat = Ok 1 /\ getbyte h 1%nat 0 = Ok 1
   /\ getbyte h 1%nat (-1) = Ok 3)
  /\ (get_bytelength h 2%nat = Ok 1 /\ getbyte h 2%nat 0 = Ok 2
      /\ getbyte h 2%nat (-1) = Ok 1)
  /\ (get_bytelength h 3%nat = Ok 1 /\ getbyte h 3%nat (-1) = Ok 1)
  /\ (get_bytelength h 4%nat = Ok 1 /\ getbyte h 4%nat (-1) = Ok 2).
Proof. vm_compute. repeat split; reflexivity. Qed.

(** ** [equal] across representations *)

Lemma raises_bind {A B} (m : res A) (k : A -> res B) :
  (forall a, m = Ok a -> raises (k a)) -> raises (x <- m ;; k x).
Proof. destruct m; simpl; auto. Qed.

Lemma getitem_mem (h : heap) (l : loc) c r o n pos :
  h !! l = Some (Mem c r o n) -> getitem h l pos = Raise TypeError.
Proof. intros H. unfold getitem. now rewrite H. Qed.

Lemma single_byte_val_mem (h : heap) (l : loc) c r o n bo off bl :
  h !! l = Some (Mem c r o n) -> single_byte_val h l bo off bl = Raise TypeError.
Proof. intros H. unfold single_byte_val. now rewrite (getitem_mem _ _ _ _ _ _ _ H). Qed.

Ltac raises_step Hm :=
  first
    [ rewrite (getitem_mem _ _ _ _ _ _ _ Hm)
    | rewrite (single_byte_val_mem _ _ _ _ _ _ _ _ _ Hm)
    | match goal with
      | |- True => exact I
      | |- raises (Raise _) => exact I
      | |- raises (rbind (Raise _) _) => exact I
      | |- raises (rbind ?m _) => destruct m; cbn [rbind raises]
      | |- raises (if ?c then _ else _) => destruct c
      end ].

Lemma equal_ordered_mixed (h : heap) (a b : loc) (na nb : Z)
      src fbl n fbo fo c r o n' :
  (h !! a = Some (FileArray src fbl n fbo fo) /\ h !! b = Some (Mem c r o n'))
  \/ (h !! a = Some (Mem c r o n') /\ h !! b = Some (FileArray src fbl n fbo fo)) ->
  raises (equal_ordered h a b na nb).
Proof.
  intros H.
  assert (Nat.eqb a b = false) as Hab.
  { apply Nat.eqb_neq. intros ->. destruct H as [[H1 H2]|[H1 H2]]; congruence. }
  destruct H as [[Hf Hm]|[Hm Hf]];
    unfold equal_ordered, get_offset, get_byteoffset, get_bytelength, get_rawarray;
    rewrite Hf, Hm; cbn [rbind try_except]; rewrite ?Hf; cbn [rbind try_except];
    rewrite Hab; cbn [andb];
    repeat raises_step Hm.
Qed.

(** C7. A file-backed buffer and an in-memory buffer of the same non-zero
    bitlength are never found equal: [equal] raises in either order, whatever
    the bytes are.  In particular it raises TypeError on the two buffers over
    the single byte 0xF0 with offset 0 and bitlength 4. *)
Theorem equal_file_mem_raises :
  (forall (h : heap) (f m : loc) src fbl n fbo fo c r o,
      h !! f = Some (FileArray src fbl n fbo fo) ->
      h !! m = Some (Mem c r o n) ->
      n <> 0 ->
      raises (equal h f m) /\ raises (equal h m f))
  /\ (let h := [Bytes [240]; Mem ByteArray 0%nat 0 4; FileArray [240] 1 4 0 0] in
      equal h 2%nat 1%nat = Raise TypeError /\ equal h 1%nat 2%nat = Raise TypeError).
Proof.
  split; [|split; reflexivity].
  intros h f m src fbl n fbo fo c r o Hf Hm Hn.
  assert ((n =? n) = true) as Hnn by apply Z.eqb_refl.
  assert ((n =? 0) = false) as Hn0 by now apply Z.eqb_neq.
  split; unfold equal, get_bitlength, get_offset; rewrite Hf, Hm;
    cbn [rbind]; rewrite Hnn, Hn0; cbn [negb];
    match goal with |- raises (if ?c then _ else _) => destruct c end;
    eapply equal_ordered_mixed; eauto.
Qed.

Lemma equal_file_mem_raises_witness :
  raises (equal [Bytes [15; 240]; Mem ByteArray 0%nat 4 8; FileArray [15; 240] 2 8 0 4]
                2%nat 1%nat).
Proof.
  apply (proj1 equal_file_mem_raises
           [Bytes [15; 240]; Mem ByteArray 0%nat 4 8; FileArray [15; 240] 2 8 0 4]
           2%nat 1%nat [15; 240] 2 8 0 4 ByteArray 0%nat 4);
    [reflexivity | reflexivity | lia].
Defined.

(** ** Running computations on the heap *)

Lemma mbnd_inv {A B} (m : M A) (k : A -> M B) (h : heap) (b : B) (h' : heap) :
  mbnd m k h = Ok (b, h') ->
  exists a h1, m h = Ok (a, h1) /\ k a h1 = Ok (b, h').
Proof.
  unfold mbnd. destruct (m h) as [[a h1]|e]; [|discriminate]. eauto.
Qed.

Lemma rd_inv {A} (f : heap -> res A) (h : heap) (a : A) (h' : heap) :
  rd f h = Ok (a, h') -> f h = Ok a /\ h' = h.
Proof.
  unfold rd. destruct (f h); [|discriminate]. intros [= -> ->]. auto.
Qed.

Lemma alloc_inv (o : obj) (h : heap) (l : loc) (h' : heap) :
  alloc o h = Ok (l, h') -> l = length h /\ h' = h ++ [o].
Proof. unfold alloc. intros [= <- <-]. auto. Qed.

Lemma store_inv (l : loc) (o : obj) (h : heap) (u : unit) (h' : heap) :
  store l o h = Ok (u, h') -> h' = <[l := o]> h.
Proof. unfold store. now intros [= <-]. Qed.

Lemma ret_inv {A} (a b : A) (h h' : heap) : ret a h = Ok (b, h') -> b = a /\ h' = h.
Proof. unfold ret. intros [= <- <-]. auto. Qed.

(** Invert a successful run, one step of the computation at a time. *)
Ltac minv H :=
  repeat match type of H with
  | context [match ?t with pair _ _ => _ end] => is_var t; destruct t
  | mbnd _ _ _ = Ok _ =>
      let a := fresh "a" in let h1 := fresh "h" in
      let H1 := fresh "Hrun" in
      apply mbnd_inv in H as (a & h1 & H1 & H);
      first [ apply rd_inv in H1 as [H1 ->]
            | apply alloc_inv in H1 as [-> ->]
            | apply store_inv in H1 as ->
            | apply ret_inv in H1 as [-> ->]
            | idtac ]
  end.

Lemma lookup_alloc_new (h : heap) (o : obj) : (h ++ [o]) !! length h = Some o.
Proof. now apply list_lookup_middle. Qed.

Lemma lookup_alloc_old (h t : heap) (l : loc) :
  (l < length h)%nat -> (h ++ t) !! l = h !! l.
Proof. intros. now apply lookup_app_l. Qed.

Lemma lookup_some_lt (h : heap) (l : loc) (o : obj) :
  h !! l = Some o -> (l < length h)%nat.
Proof. apply lookup_lt_Some. Qed.

Lemma new_mem_inv (c : cls) (data : loc) (n o : Z) (h : heap) (l : loc) (h' : heap) :
  new_mem c data n o h = Ok (l, h') ->
  (exists d, h !! data = Some (Bytes d))
  /\ l = length h /\ h' = h ++ [Mem c data o n].
Proof.
  unfold new_mem. destruct (h !! data) as [[d| |]|]; try discriminate.
  intros H%alloc_inv. destruct H as [-> ->]. eauto.
Qed.

Lemma getbyteslice_inv (self : loc) (s e : Z) (h : heap) (c : loc) (h' : heap) :
  getbyteslice self s e h = Ok (c, h') ->
  c = length h /\ exists d, h' = h ++ [Bytes d].
Proof.
  unfold getbyteslice. destruct (h !! self) as [[| |src bl n bo o]|]; try discriminate.
  - intros H. minv H. apply alloc_inv in H as [-> ->]. eauto.
  - destruct (s <? e); intros H.
    + minv H. apply alloc_inv in H as [-> ->]. eauto.
    + apply alloc_inv in H as [-> ->]. eauto.
Qed.

(** ** New buffers own new storage *)

Ltac len_solve := rewrite ?length_app; simpl; lia.

Lemma alloc2_fresh (h : heap) (d : list Z) (off bl : Z) :
  fresh_buffer h ((h ++ [Bytes d]) ++ [Mem ByteArray (length h) off bl])
               (length (h ++ [Bytes d])).
Proof.
  exists [Bytes d; Mem ByteArray (length h) off bl], (length h), d, off, bl.
  split; [now rewrite <- app_assoc|].
  split; [apply lookup_alloc_new|].
  split; [|split; len_solve].
  rewrite lookup_app_l by len_solve. apply lookup_alloc_new.
Qed.

Lemma fresh_buffer_later (h0 h h' : heap) (l : loc) (t : heap) :
  h = h0 ++ t -> fresh_buffer h h' l -> fresh_buffer h0 h' l.
Proof.
  intros -> (t' & rr & d & off & bl & -> & Hl & Hr & H1 & H2).
  exists (t ++ t'), rr, d, off, bl. rewrite length_app in H1, H2.
  repeat split; try assumption; try lia. now rewrite app_assoc.
Qed.

Lemma copy_fresh (self : loc) (h : heap) (l : loc) (h' : heap) :
  copy self h = Ok (l, h') -> fresh_buffer h h' l.
Proof.
  unfold copy. destruct (h !! self) as [[|c r o n|src bl n bo o]|] eqn:Hs;
    try discriminate; intros H.
  - minv H. apply new_mem_inv in H as (_ & -> & ->). apply alloc2_fresh.
  - minv H. apply new_mem_inv in H as (_ & -> & ->).
    unfold rawbytes in Hrun. rewrite Hs in Hrun. minv Hrun.
    apply alloc_inv in Hrun as [-> ->].
    apply getbyteslice_inv in Hrun0 as (-> & d0 & ->).
    eapply fresh_buffer_later; [reflexivity|]. apply alloc2_fresh.
Qed.

Ltac case_if H :=
  match type of H with
  | context [if ?c then _ else _] => destruct c eqn:?
  end.

Lemma offsetcopy_fresh (s : loc) (newoffset : Z) (h : heap) (l : loc) (h' : heap) :
  offsetcopy s newoffset h = Ok (l, h') -> fresh_buffer h h' l.
Proof.
  unfold offsetcopy. intros H. minv H. case_if H.
  - eapply copy_fresh; eassumption.
  - minv H. case_if H.
    + minv H. apply new_mem_inv in H as (_ & -> & ->).
      match goal with
      | Hg : getbyteslice _ _ _ _ = Ok _ |- _ =>
          apply getbyteslice_inv in Hg as (-> & d0 & ->)
      end.
      apply alloc2_fresh.
    + minv H. apply new_mem_inv in H as (_ & -> & ->). apply alloc2_fresh.
Qed.

(** ** What a mutation can touch *)

Lemma frame_refl (S : loc -> Prop) (h : heap) : frame S h h.
Proof. split; auto. Qed.

Lemma frame_app (S : loc -> Prop) (h h1 t : heap) :
  frame S h h1 -> frame S h (h1 ++ t).
Proof.
  intros [Hl Hf]. split; [len_solve|].
  intros x Hx HS. rewrite lookup_app_l by lia. auto.
Qed.

Lemma frame_store (S : loc -> Prop) (h h1 : heap) (l : loc) (o : obj) :
  frame S h h1 -> S l \/ (length h <= l)%nat -> frame S h (<[l := o]> h1).
Proof.
  intros [Hl Hf] Hor. split; [now rewrite length_insert|].
  intros x Hx HS. rewrite list_lookup_insert_ne; [auto|].
  intros ->. destruct Hor; [tauto|lia].
Qed.

Lemma get_ByteArray_inv (h : heap) (self : loc) (r : loc) (o n : Z) :
  get_ByteArray h self = Ok (r, o, n) -> h !! self = Some (Mem ByteArray r o n).
Proof.
  unfold get_ByteArray. destruct (h !! self) as [[|[] ? ? ?|]|]; try discriminate.
  now intros [= -> -> ->].
Qed.

Lemma get_bytes_inv (h : heap) (r : loc) (d : list Z) :
  get_bytes h r = Ok d -> h !! r = Some (Bytes d).
Proof.
  unfold get_bytes. destruct (h !! r) as [[| |]|]; try discriminate.
  now intros [= ->].
Qed.

Ltac inv_reads :=
  repeat match goal with
  | H : get_bytes _ _ = Ok _ |- _ => apply get_bytes_inv in H
  | H : get_ByteArray _ _ = Ok _ |- _ => apply get_ByteArray_inv in H
  | H : store _ _ _ = Ok _ |- _ => apply store_inv in H as ->
  end.

Ltac touch_store :=
  match goal with
  | Hs : ?h !! ?self = Some (Mem ByteArray ?r ?o ?n),
    Hr : ?h !! ?r = Some (Bytes _) |- touches_only_self ?self ?h _ =>
      assert (self <> r) by congruence;
      exists r, o, n, r, o, n; repeat split; eauto;
      [ now rewrite list_lookup_insert_ne by auto
      | now rewrite length_insert
      | intros x Hx HS; rewrite list_lookup_insert_ne; auto ]
  end.

Lemma update_bit_touches op (self : loc) (pos : Z) (h : heap) u (h' : heap) :
  update_bit op self pos h = Ok (u, h') -> touches_only_self self h h'.
Proof.
  unfold update_bit, set_bytes, divmod. intros H. minv H. cbv beta iota in H.
  minv H. inv_reads. touch_store.
Qed.

Lemma setbyte_touches (self : loc) (pos v : Z) (h : heap) u (h' : heap) :
  setbyte self pos v h = Ok (u, h') -> touches_only_self self h h'.
Proof.
  unfold setbyte, set_bytes. intros H. minv H. inv_reads. touch_store.
Qed.

Lemma setbyteslice_touches (self : loc) (s e : Z) (v : list Z) (h : heap) u (h' : heap) :
  setbyteslice self s e v h = Ok (u, h') -> touches_only_self self h h'.
Proof.
  unfold setbyteslice, set_bytes. intros H. minv H. inv_reads. touch_store.
Qed.

Lemma frame_trans (S : loc -> Prop) (h1 h2 h3 : heap) :
  frame S h1 h2 -> frame S h2 h3 -> frame S h1 h3.
Proof.
  intros [L1 F1] [L2 F2]. split; [lia|].
  intros x Hx HS. rewrite F2 by (auto; lia). auto.
Qed.

Lemma frame_lookup (S : loc -> Prop) (h h' : heap) (x : loc) (o : obj) :
  frame S h h' -> h !! x = Some o -> ~ S x -> h' !! x = Some o.
Proof.
  intros [_ F] Hx HS. rewrite F; auto. eapply lookup_lt_Some; eauto.
Qed.

Lemma fresh_buffer_frame (S : loc -> Prop) (h h' : heap) (l : loc) :
  fresh_buffer h h' l -> frame S h h'.
Proof.
  intros (t & _ & _ & _ & _ & -> & _). apply frame_app, frame_refl.
Qed.

Lemma frame_weaken (S S' : loc -> Prop) (h h' : heap) :
  (forall x, S x -> S' x) -> frame S h h' -> frame S' h h'.
Proof. intros HS [L F]. split; auto. Qed.

(** ** Offsets and lengths of the buffers the operations produce *)

Lemma get_offset_new (h : heap) c r o n :
  get_offset (h ++ [Mem c r o n]) (length h) = Ok o.
Proof. unfold get_offset. now rewrite lookup_alloc_new. Qed.

Lemma get_bitlength_new (h : heap) c r o n :
  get_bitlength (h ++ [Mem c r o n]) (length h) = Ok n.
Proof. unfold get_bitlength. now rewrite lookup_alloc_new. Qed.

Lemma copy_fields (self : loc) (h : heap) (l : loc) (h' : heap) :
  copy self h = Ok (l, h') ->
  exists o n, get_offset h self = Ok o /\ get_bitlength h self = Ok n
              /\ get_offset h' l = Ok o /\ get_bitlength h' l = Ok n.
Proof.
  unfold copy, get_offset, get_bitlength.
  destruct (h !! self) as [[|c r o n|src bl n bo o]|] eqn:Hs;
    try discriminate; intros H; minv H;
    apply new_mem_inv in H as (_ & -> & ->);
    exists o, n; rewrite !lookup_alloc_new; auto.
Qed.

Lemma assert_inv (c : bool) (u : unit) : assert c = Ok u -> c = true.
Proof. destruct c; [reflexivity|discriminate]. Qed.

Lemma offsetcopy_fields (s : loc) (newoffset : Z) (h : heap) (l : loc) (h' : heap) :
  offsetcopy s newoffset h = Ok (l, h') ->
  exists o n, get_offset h s = Ok o /\ get_bitlength h s = Ok n
              /\ 0 <= newoffset < 8
              /\ get_offset h' l = Ok (if n =? 0 then o else newoffset)
              /\ get_bitlength h' l = Ok n.
Proof.
  unfold offsetcopy. intros H. minv H.
  match goal with
  | Hg : assert _ = Ok _ |- _ =>
      apply assert_inv, andb_true_iff in Hg as [?%Z.leb_le ?%Z.ltb_lt]
  end.
  case_if H.
  - apply copy_fields in H as (o & n & Ho & Hn & Ho' & Hn').
    exists o, n. assert (n = a0) as -> by congruence.
    match goal with Hg : (_ =? 0) = true |- _ => rewrite Hg end. auto.
  - minv H.
    match goal with Hg : get_offset h s = Ok ?o |- _ => exists o end.
    match goal with Hg : get_bitlength h s = Ok ?n |- _ => exists n end.
    match goal with Hg : (_ =? 0) = false |- _ => rewrite Hg end.
    do 3 (split; [auto|]).
    case_if H; minv H; apply new_mem_inv in H as (_ & -> & ->);
      now rewrite get_offset_new, get_bitlength_new.
Qed.

Lemma appendarray_inv (self array : loc) (h : heap) u (h' : heap) :
  appendarray self array h = Ok (u, h') ->
  exists r o n k,
    h !! self = Some (Mem ByteArray r o n)
    /\ h' !! self = Some (Mem ByteArray r o (n + k))
    /\ frame (fun x => x = self \/ x = r) h h'.
Proof.
  unfold appendarray, set_bytes.
  destruct (h !! self) as [[|[] r o n|]|] eqn:Hs; try discriminate.
  intros H. minv H. case_if H.
  - apply ret_inv in H as [_ ->].
    exists r, o, n, 0. rewrite Z.add_0_r. repeat split; auto using frame_refl.
  - minv H. inv_reads.
    match goal with
    | Hg : h !! self = Some (Mem ByteArray ?r0 ?o0 ?n0) |- _ =>
        rewrite Hs in Hg; injection Hg as <- <- <-
    end.
    match goal with
    | Hg : offsetcopy _ _ _ = Ok _ |- _ => apply offsetcopy_fresh in Hg as Hfresh
    end.
    pose proof (fresh_buffer_frame (fun x => x = r) _ _ _ Hfresh) as F0.
    match goal with
    | Hg : (if _ then _ else _) ?h0 = Ok (_, ?h1) |- _ =>
        assert (frame (fun x => x = r) h0 h1
                /\ exists d, h0 !! r = Some (Bytes d)) as [F1 [d Hd]];
        [ case_if Hg; minv Hg; inv_reads; (split; [|eauto]);
          repeat apply frame_store; auto using frame_refl | clear Hg ]
    end.
    assert (self < length h)%nat as Hlt by (eapply lookup_lt_Some; eauto).
    assert (self <> r).
    { intros <-. destruct Hfresh as (t & _ & _ & _ & _ & -> & _).
      rewrite lookup_app_l in Hd by assumption. congruence. }
    pose proof (frame_trans _ _ _ _ F0 F1) as F.
    match goal with
    | Hg : _ !! self = Some (Mem ByteArray ?r1 _ _) |- _ =>
        rewrite (frame_lookup _ _ _ _ _ F Hs) in Hg by auto;
        injection Hg as <- <- <-
    end.
    exists r, o, n. eexists. split; [reflexivity|]. split.
    + apply list_lookup_insert_eq. destruct F. lia.
    + apply frame_store; [|auto]. eapply frame_weaken; [|exact F]. auto.
Qed.

Lemma appendarray_touches (self array : loc) (h : heap) u (h' : heap) :
  appendarray self array h = Ok (u, h') -> touches_only_self self h h'.
Proof.
  intros (r & o & n & k & Hs & Hs' & F)%appendarray_inv.
  exists r, o, n, r, o, (n + k). auto.
Qed.

Lemma get_rawarray_inv (h : heap) (s : loc) (r : loc) :
  get_rawarray h s = Ok r -> exists c o n, h !! s = Some (Mem c r o n).
Proof.
  unfold get_rawarray. destruct (h !! s) as [[|c r0 o n|]|]; try discriminate.
  intros [= ->]. eauto.
Qed.

Lemma prependarray_inv (self array : loc) (h : heap) u (h' : heap) :
  prependarray self array h = Ok (u, h') ->
  exists r o n r' o' k,
    h !! self = Some (Mem ByteArray r o n)
    /\ h' !! self = Some (Mem ByteArray r' o' (n + k))
    /\ ((r' = r /\ o' = o /\ k = 0) \/ ((length h <= r')%nat /\ 0 <= o' < 8))
    /\ frame (fun x => x = self \/ x = r) h h'.
Proof.
  unfold prependarray, set_bytes.
  destruct (h !! self) as [[|[] r o n|]|] eqn:Hs; try discriminate.
  intros H. minv H. case_if H.
  - apply ret_inv in H as [_ ->].
    exists r, o, n, r, o, 0. rewrite Z.add_0_r. repeat split; auto using frame_refl.
  - minv H. inv_reads.
    match goal with
    | Hg : h !! self = Some (Mem ByteArray ?r0 ?o0 ?n0) |- _ =>
        rewrite Hs in Hg; injection Hg as <- <- <-
    end.
    match goal with
    | Hg : offsetcopy _ _ _ = Ok _ |- _ =>
        pose proof (offsetcopy_fields _ _ _ _ _ Hg) as (o0 & n0 & _ & Hn0 & Hrange & Ho' & _);
        apply offsetcopy_fresh in Hg as Hfresh
    end.
    assert (n0 = a) as -> by congruence.
    match goal with Hg : (a =? 0) = false |- _ => rewrite Hg in Ho' end.
    destruct Hfresh as (t & rr & d & off & bl & -> & Ha0 & Hrr & Lrr & La0).
    assert (a0 <> rr) as Hne by congruence.
    match goal with
    | Hg : get_rawarray (h ++ t) a0 = Ok ?x |- _ =>
        unfold get_rawarray in Hg; rewrite Ha0 in Hg; injection Hg as <-
    end.
    match goal with
    | Hg : (if _ then _ else _) _ = Ok (_, ?h1) |- _ =>
        assert (frame (fun _ => False) h h1 /\ h1 !! a0 = (h ++ t) !! a0)
          as [F Hsame];
        [ case_if Hg; unfold setbyte, set_bytes in Hg; minv Hg;
          repeat match goal with
          | Hx : mbnd _ _ _ = Ok _ |- _ => minv Hx
          end;
          inv_reads;
          repeat match goal with
          | Hx : (h ++ t) !! a0 = Some (Mem ByteArray ?x _ _) |- _ =>
              rewrite Ha0 in Hx; injection Hx as <- <- <-
          end;
          (split;
           [ repeat apply frame_store; auto using frame_app, frame_refl
           | now rewrite ?list_lookup_insert_ne by auto ])
        | clear Hg ]
    end.
    match goal with
    | Hg : get_rawarray _ a0 = Ok ?x |- _ =>
        unfold get_rawarray in Hg; rewrite Hsame, Ha0 in Hg; injection Hg as <-
    end.
    match goal with
    | Hg : get_offset _ a0 = Ok ?x |- _ =>
        unfold get_offset in Hg, Ho'; rewrite Hsame, Ha0 in Hg; rewrite Ha0 in Ho';
        assert (x = (o - a) mod 8) as -> by congruence
    end.
    exists r, o, n. do 3 eexists. split; [reflexivity|].
    split; [|split; [right; split; [exact Lrr|apply mod8_range]|]].
    + apply list_lookup_insert_eq. destruct F.
      assert (self < length h)%nat by (eapply lookup_lt_Some; eauto). lia.
    + apply frame_store; [|auto]. eapply frame_weaken; [|exact F]. intros ? [].
Qed.

Lemma prependarray_touches (self array : loc) (h : heap) u (h' : heap) :
  prependarray self array h = Ok (u, h') -> touches_only_self self h h'.
Proof.
  intros (r & o & n & r' & o' & k & Hs & Hs' & Hor & F)%prependarray_inv.
  exists r, o, n, r', o', (n + k). repeat split; try apply F; auto.
  destruct Hor as [(-> & _)|[? _]]; auto.
Qed.

Lemma mutate_touches (self : loc) (m : mutation) (h : heap) u (h' : heap) :
  mutate self m h = Ok (u, h') -> touches_only_self self h h'.
Proof.
  destruct m; simpl;
    eauto using update_bit_touches, setbyte_touches, setbyteslice_touches,
                appendarray_touches, prependarray_touches.
Qed.

Lemma mutate_owned (h0 h : heap) (l : loc) (m : mutation) u (h' : heap) :
  owned_after h0 h l -> mutate l m h = Ok (u, h') -> owned_after h0 h' l.
Proof.
  intros ((rr & o & n & Hl & Hrr) & Hlo & [L F]) Hm.
  apply mutate_touches in Hm
    as (r1 & o1 & n1 & r' & o' & n' & Hl1 & Hl' & Hr' & [L' F']).
  rewrite Hl in Hl1. injection Hl1 as <- <- <-.
  split; [|split; [assumption|split; [lia|]]].
  - exists r', o', n'. split; [assumption|]. destruct Hr' as [->|]; lia.
  - intros x Hx _. rewrite F' by lia. auto.
Qed.

Lemma mutate_all_owned (h0 : heap) (l : loc) (ms : list mutation) :
  forall h u h', owned_after h0 h l -> mutate_all l ms h = Ok (u, h') ->
                 owned_after h0 h' l.
Proof.
  induction ms as [|m ms IH]; simpl; intros h u h' Ho H.
  - apply ret_inv in H as [_ ->]. assumption.
  - apply mbnd_inv in H as (u1 & h1 & H1 & H). eauto using mutate_owned.
Qed.

Lemma mutate_zone (lo hi : nat) (h1 h : heap) (s : loc) (m : mutation) u (h' : heap) :
  (s < lo)%nat -> zone_kept lo hi h1 h s -> mutate s m h = Ok (u, h') ->
  zone_kept lo hi h1 h' s.
Proof.
  intros Hs (L & Hraw & Hz) Hm.
  apply mutate_touches in Hm
    as (r1 & o1 & n1 & r' & o' & n' & Hl1 & Hl' & Hr' & [L' F']).
  specialize (Hraw _ _ _ Hl1).
  split; [lia|split].
  - intros r o n Hl. rewrite Hl' in Hl. injection Hl as <- <- <-.
    destruct Hr' as [->|]; [assumption|lia].
  - intros x Hx. rewrite F'; [auto|lia|]. intros [->| ->]; lia.
Qed.

Lemma mutate_all_zone (lo hi : nat) (h1 : heap) (s : loc) (ms : list mutation) :
  (s < lo)%nat ->
  forall h u h', zone_kept lo hi h1 h s -> mutate_all s ms h = Ok (u, h') ->
                 zone_kept lo hi h1 h' s.
Proof.
  intros Hs. induction ms as [|m ms IH]; simpl; intros h u h' Hz H.
  - apply ret_inv in H as [_ ->]. assumption.
  - apply mbnd_inv in H as (u1 & h2 & H1 & H). eauto using mutate_zone.
Qed.

Lemma offsetcopy_reads_source (s : loc) (newoffset : Z) (h : heap) (l : loc) (h' : heap) :
  offsetcopy s newoffset h = Ok (l, h') -> (s < length h)%nat.
Proof.
  unfold offsetcopy. intros H. minv H.
  match goal with
  | Hg : get_bitlength h s = Ok _ |- _ => unfold get_bitlength in Hg
  end.
  destruct (h !! s) eqn:Hs; [|discriminate]. eapply lookup_lt_Some; eauto.
Qed.

(** C10. The buffer returned by [offsetcopy s newoffset] is a new object
    over a new bytearray, on every path.  Any sequence of mutations of the
    returned buffer leaves every object that existed before the call as it
    was, so [s] keeps its bytes, offset and bitlength; any sequence of
    mutations of [s] leaves the returned buffer and its bytes as they were. *)
Theorem offsetcopy_never_shares (h : heap) (s : loc) (newoffset : Z) (r : loc) (h1 : heap) :
  wf_heap h ->
  offsetcopy s newoffset h = Ok (r, h1) ->
  exists rr d off bl,
    h1 !! r = Some (Mem ByteArray rr off bl) /\ h1 !! rr = Some (Bytes d)
    /\ (length h <= r)%nat /\ (length h <= rr)%nat
    /\ (forall x, (x < length h)%nat -> h1 !! x = h !! x)
    /\ (forall ms u h2, mutate_all r ms h1 = Ok (u, h2) ->
          h2 !! s = h !! s
          /\ (forall c raw o n, h !! s = Some (Mem c raw o n) -> h2 !! raw = h !! raw)
          /\ (forall x, (x < length h)%nat -> h2 !! x = h !! x))
    /\ (forall ms u h2, mutate_all s ms h1 = Ok (u, h2) ->
          h2 !! r = Some (Mem ByteArray rr off bl) /\ h2 !! rr = Some (Bytes d)).
Proof.
  intros Hwf Hoc.
  pose proof (offsetcopy_reads_source _ _ _ _ _ Hoc) as Hs.
  apply offsetcopy_fresh in Hoc as (t & rr & d & off & bl & -> & Hr & Hrr & Lrr & Lr).
  exists rr, d, off, bl. repeat (split; [assumption|]).
  split; [intros x Hx; now apply lookup_app_l|]. split.
  - intros ms u h2 Hm.
    assert (owned_after h (h ++ t) r) as Ho.
    { split; [eauto|]. split; [assumption|]. apply frame_app, frame_refl. }
    eapply mutate_all_owned in Hm as (_ & _ & [_ F]); [|exact Ho].
    split; [auto|]. split; [|auto].
    intros c raw o n Hl. destruct (Hwf _ _ _ _ _ Hl) as [d0 Hd0].
    apply F; [eapply lookup_lt_Some; eauto|auto].
  - intros ms u h2 Hm.
    assert (zone_kept (length h) (length (h ++ t)) (h ++ t) (h ++ t) s) as Hz.
    { split; [lia|]. split; [|auto].
      intros r0 o n Hl. rewrite lookup_app_l in Hl by assumption.
      destruct (Hwf _ _ _ _ _ Hl) as [d0 Hd0]. left. eapply lookup_lt_Some; eauto. }
    eapply mutate_all_zone in Hm as (_ & _ & Hz'); [| |exact Hz]; [|assumption].
    split.
    + rewrite Hz'; [assumption|]. split; [assumption|eapply lookup_lt_Some; eauto].
    + rewrite Hz'; [assumption|]. split; [assumption|eapply lookup_lt_Some; eauto].
Qed.

(** ** The offset field *)

Lemma slice_mem_run (h : heap) (ba : loc) c r o m (d : list Z) (n off : Z) :
  h !! ba = Some (Mem c r o m) -> h !! r = Some (Bytes d) ->
  slice ba n off h = Ok (length h, h ++ [Mem ByteArray r (o + off) n]).
Proof.
  intros Hba Hr.
  unfold slice, try_exceptM, mbnd, rd, get_rawarray, get_offset, new_mem, alloc.
  repeat (first [rewrite Hba | rewrite Hr]; cbv beta iota). reflexivity.
Qed.

Lemma slice_mem_inv (h : heap) (ba : loc) c r o m (n off : Z) (l : loc) (h' : heap) :
  h !! ba = Some (Mem c r o m) ->
  slice ba n off h = Ok (l, h') ->
  l = length h /\ h' = h ++ [Mem ByteArray r (o + off) n].
Proof.
  intros Hba.
  unfold slice, try_exceptM, mbnd, rd, get_rawarray, get_offset, new_mem, alloc.
  repeat (rewrite Hba; cbv beta iota).
  destruct (h !! r) as [[| |]|]; try discriminate.
  intros [= <- <-]. auto.
Qed.

Lemma new_file_offset (src : file) (n : option Z) (off : Z) (h : heap) (l : loc) (h' : heap) :
  new_file src n off h = Ok (l, h') ->
  l = length h /\ exists bl m, h' = h ++ [FileArray src bl m (off / 8) (off mod 8)].
Proof.
  unfold new_file, divmod, alloc. destruct n as [n|];
    match goal with |- context [if ?c then _ else _] => destruct c end;
    try discriminate; intros [= <- <-]; eauto.
Qed.

Lemma slice_file_inv (h : heap) (ba : loc) src bl m bo o (n off : Z) (l : loc) (h' : heap) :
  h !! ba = Some (FileArray src bl m bo o) ->
  slice ba n off h = Ok (l, h') ->
  l = length h
  /\ exists bl', h' = h ++ [FileArray src bl' n ((8 * bo + o + off) / 8)
                                      ((8 * bo + o + off) mod 8)].
Proof.
  intros Hba.
  unfold slice, try_exceptM, mbnd, rd, get_rawarray, get_offset, get_source,
    get_byteoffset.
  repeat (rewrite Hba; cbv beta iota). unfold new_file, divmod, alloc.
  match goal with |- context [if ?c then _ else _] => destruct c end;
    try discriminate; intros [= <- <-]; eauto.
Qed.

(** The statement of C5 fails on [slice]: the second byte of a two-byte
    in-memory buffer is a buffer whose offset field is 8. *)
Lemma slice_offset_can_reach_8 :
  ~ (forall (h : heap) (ba : loc) (bitlength offset : Z) (l : loc) (h' : heap),
        offset_ok h ba ->
        (exists n, get_bitlength h ba = Ok n
                   /\ 0 <= offset /\ 0 <= bitlength /\ offset + bitlength <= n) ->
        slice ba bitlength offset h = Ok (l, h') ->
        offset_ok h' l).
Proof.
  intros Hall.
  destruct (Hall [Bytes [0; 0]; Mem ByteArray 0%nat 0 16] 1%nat 8 8 2%nat
                 [Bytes [0; 0]; Mem ByteArray 0%nat 0 16; Mem ByteArray 0%nat 8 8])
    as (o & Ho & Hrange).
  - exists 0. split; [reflexivity|lia].
  - exists 16. split; [reflexivity|lia].
  - reflexivity.
  - vm_compute in Ho. injection Ho as <-. lia.
Qed.

Lemma copy_extends (self : loc) (h : heap) (l : loc) (h' : heap) :
  copy self h = Ok (l, h') -> exists t, h' = h ++ t.
Proof. intros (t & _ & _ & _ & _ & -> & _)%copy_fresh. eauto. Qed.

Lemma offsetcopy_extends (s : loc) (k : Z) (h : heap) (l : loc) (h' : heap) :
  offsetcopy s k h = Ok (l, h') -> exists t, h' = h ++ t.
Proof. intros (t & _ & _ & _ & _ & -> & _)%offsetcopy_fresh. eauto. Qed.

(** C5, amended.  A file-backed buffer is built with an offset in [0,8),
    and so is every slice of one; an in-memory buffer keeps the offset it is
    built with, [copy] and [appendarray] keep the offset, [offsetcopy] and
    [prependarray] give an offset in [0,8) to buffers whose offset was
    there.  The slice of an in-memory buffer has the offset field
    [ba.offset + offset], not reduced modulo 8.  The operations that build a
    buffer change no existing object; [appendarray] and [prependarray]
    change only the receiver and its bytearray. *)
Theorem offsets_after_operations :
  (forall src n off (h : heap) l h',
      new_file src n off h = Ok (l, h') ->
      offset_ok h' l /\ exists t, h' = h ++ t)
  /\ (forall c data n off (h : heap) l h',
      new_mem c data n off h = Ok (l, h') ->
      get_offset h' l = Ok off /\ exists t, h' = h ++ t)
  /\ (forall self (h : heap) l h',
      copy self h = Ok (l, h') ->
      get_offset h' l = get_offset h self /\ exists t, h' = h ++ t)
  /\ (forall s k (h : heap) l h',
      offsetcopy s k h = Ok (l, h') -> offset_ok h s ->
      offset_ok h' l /\ exists t, h' = h ++ t)
  /\ (forall (h : heap) ba c r o m n off l h',
      h !! ba = Some (Mem c r o m) -> slice ba n off h = Ok (l, h') ->
      get_offset h' l = Ok (o + off) /\ exists t, h' = h ++ t)
  /\ (forall (h : heap) ba src bl m bo o n off l h',
      h !! ba = Some (FileArray src bl m bo o) -> slice ba n off h = Ok (l, h') ->
      offset_ok h' l /\ exists t, h' = h ++ t)
  /\ (forall self array (h : heap) u h',
      appendarray self array h = Ok (u, h') ->
      get_offset h' self = get_offset h self
      /\ forall r o n, h !! self = Some (Mem ByteArray r o n) ->
           frame (fun x => x = self \/ x = r) h h')
  /\ (forall self array (h : heap) u h',
      prependarray self array h = Ok (u, h') -> offset_ok h self ->
      offset_ok h' self
      /\ forall r o n, h !! self = Some (Mem ByteArray r o n) ->
           frame (fun x => x = self \/ x = r) h h').
Proof.
  repeat apply conj.
  - intros src n off h l h' H.
    apply new_file_offset in H as (-> & bl & m & ->). split; [|eauto].
    exists (off mod 8). unfold get_offset. rewrite lookup_alloc_new.
    split; [reflexivity|apply mod8_range].
  - intros c data n off h l h' H.
    apply new_mem_inv in H as (_ & -> & ->). split; [apply get_offset_new|eauto].
  - intros self h l h' H. split; [|eapply copy_extends; eauto].
    apply copy_fields in H as (o & n & -> & _ & -> & _). reflexivity.
  - intros s k h l h' H (o & Ho & Hr). split; [|eapply offsetcopy_extends; eauto].
    apply offsetcopy_fields in H as (o' & n & Ho' & _ & Hk & Hl & _).
    assert (o' = o) as -> by congruence.
    eexists. split; [exact Hl|]. destruct (n =? 0); lia.
  - intros h ba c r o m n off l h' Hba H.
    eapply slice_mem_inv in H as [-> ->]; [|eassumption].
    split; [apply get_offset_new|eauto].
  - intros h ba src bl m bo o n off l h' Hba H.
    eapply slice_file_inv in H as (-> & bl' & ->); [|eassumption].
    split; [|eauto].
    eexists. unfold get_offset. rewrite lookup_alloc_new.
    split; [reflexivity|apply mod8_range].
  - intros self array h u h' H.
    apply appendarray_inv in H as (r & o & n & k & Hs & Hs' & F). split.
    + unfold get_offset. now rewrite Hs, Hs'.
    + intros r1 o1 n1 Hs1. rewrite Hs in Hs1. injection Hs1 as <- <- <-. exact F.
  - intros self array h u h' H (o0 & Ho0 & Hr0).
    apply prependarray_inv in H as (r & o & n & r' & o' & k & Hs & Hs' & Hor & F).
    split.
    + unfold get_offset in Ho0. rewrite Hs in Ho0. injection Ho0 as <-.
      exists o'. unfold get_offset. rewrite Hs'. split; [reflexivity|].
      destruct Hor as [(_ & -> & _)|[_ ?]]; assumption.
    + intros r1 o1 n1 Hs1. rewrite Hs in Hs1. injection Hs1 as <- <- <-. exact F.
Qed.

Lemma offsets_after_operations_witness :
  let h := [Bytes [204]; Mem ByteArray 0%nat 0 6; Bytes [2]; Mem ByteArray 2%nat 6 2] in
  (exists h', prependarray 3%nat 1%nat h = Ok (tt, h') /\ offset_ok h' 3%nat)
  /\ (exists l h', slice 3%nat 1 9 h = Ok (l, h') /\ get_offset h' l = Ok 15).
Proof.
  intros h.
  destruct offsets_after_operations as (_ & _ & _ & _ & Hslice & _ & _ & Hpre).
  split.
  - eexists. split; [vm_compute; reflexivity|].
    refine (proj1 (Hpre 3%nat 1%nat h tt _ _ _)); [vm_compute; reflexivity|].
    exists 6. split; [reflexivity|lia].
  - do 2 eexists. split; [vm_compute; reflexivity|].
    refine (proj1 (Hslice h 3%nat ByteArray 2%nat 6 2 1 9 _ _ _ _)); reflexivity.
Defined.

Lemma offsetcopy_never_shares_witness :
  let h := [Bytes [180; 7]; Mem ConstByteArray 0%nat 2 10] in
  exists r h1 rr d off bl,
    offsetcopy 1%nat 5 h = Ok (r, h1)
    /\ h1 !! r = Some (Mem ByteArray rr off bl) /\ h1 !! rr = Some (Bytes d)
    /\ (forall ms u h2, mutate_all r ms h1 = Ok (u, h2) -> h2 !! 1%nat = h !! 1%nat).
Proof.
  intros h.
  assert (wf_heap h) as Hwf.
  { intros l c r o n Hl. destruct l as [|[|[|]]]; try discriminate.
    injection Hl as <- <- <- <-. eexists. reflexivity. }
  assert (offsetcopy 1%nat 5 h
          = Ok (3%nat, h ++ [Bytes [22; 128]; Mem ByteArray 2%nat 5 10])) as Hoc
    by (vm_compute; reflexivity).
  destruct (offsetcopy_never_shares h 1%nat 5 _ _ Hwf Hoc)
    as (rr & d & off & bl & Hr & Hrr & _ & _ & _ & Hmut & _).
  do 6 eexists. split; [exact Hoc|]. split; [exact Hr|]. split; [exact Hrr|].
  intros ms u h2 Hm. eapply Hmut; eauto.
Defined.

(** * The bits a buffer denotes *)

(** ** Bytes and bit positions *)

Lemma len_nonneg {A} (l : list A) : 0 <= len l.
Proof. unfold len. lia. Qed.

Lemma py_index_ok (d : list Z) (i : Z) :
  0 <= i < len d -> py_index d i = Ok (byte_at d i).
Proof.
  intros Hi. unfold py_index, byte_at.
  destruct (Z.ltb_spec i 0); [lia|].
  destruct (Z.leb_spec 0 i); [|lia]. destruct (Z.ltb_spec i (len d)); [|lia].
  simpl. destruct (d !! Z.to_nat i) eqn:Hl; [reflexivity|].
  apply lookup_ge_None in Hl. unfold len in Hi. lia.
Qed.

Lemma byte_at_range (d : list Z) (i : Z) : bytes_ok d -> 0 <= byte_at d i < 256.
Proof.
  intros Hd. unfold byte_at. destruct (d !! Z.to_nat i) eqn:Hl; simpl; [|lia].
  eapply Forall_lookup_1 in Hd; eauto.
Qed.

Lemma bit_at_byte (d : list Z) (j t : Z) :
  0 <= t < 8 -> bit_at d (8 * j + t) = Z.testbit (byte_at d j) (7 - t).
Proof.
  intros Ht. unfold bit_at.
  replace ((8 * j + t) / 8) with j by (Z.div_mod_to_equations; lia).
  replace ((8 * j + t) mod 8) with t by (Z.div_mod_to_equations; lia).
  reflexivity.
Qed.

Lemma byte_high (x i : Z) : 0 <= x < 256 -> 8 <= i -> Z.testbit x i = false.
Proof.
  intros Hx Hi. destruct (Z.eq_dec x 0) as [->|Hne]; [apply Z.bits_0|].
  apply Z.bits_above_log2; [lia|].
  assert (Z.log2 x < 8) by (apply Z.log2_lt_pow2; lia). lia.
Qed.

Lemma is_byte_true (v : Z) : 0 <= v < 256 -> is_byte v = true.
Proof.
  intros H. unfold is_byte. apply andb_true_iff.
  split; [apply Z.leb_le|apply Z.ltb_lt]; lia.
Qed.

Lemma to_bytearray_ok (d : list Z) : bytes_ok d -> to_bytearray d = Ok d.
Proof.
  intros Hd. unfold to_bytearray.
  replace (forallb is_byte d) with true; [reflexivity|].
  symmetry. apply forallb_forall. intros x Hx.
  apply is_byte_true. unfold bytes_ok in Hd. rewrite Forall_forall in Hd.
  apply Hd. now apply list_elem_of_In.
Qed.

(** ** Ranges and loops *)

Lemma length_range (lo hi : Z) : length (range lo hi) = Z.to_nat (hi - lo).
Proof. unfold range. now rewrite length_map, length_seq. Qed.

Lemma lookup_range (lo hi : Z) (i : nat) :
  (i < Z.to_nat (hi - lo))%nat -> range lo hi !! i = Some (lo + Z.of_nat i).
Proof.
  intros Hi. unfold range. rewrite list_lookup_fmap.
  rewrite lookup_seq_lt by assumption. reflexivity.
Qed.

Lemma elem_of_range (lo hi x : Z) : x ∈ range lo hi <-> lo <= x < hi.
Proof.
  unfold range. rewrite list_elem_of_fmap. split.
  - intros (i & -> & Hi). apply elem_of_seq in Hi. lia.
  - intros Hx. exists (Z.to_nat (x - lo)). split; [lia|].
    apply elem_of_seq. lia.
Qed.

Lemma mapM_ok {A B} (f : A -> res B) (g : A -> B) (l : list A) :
  (forall x, x ∈ l -> f x = Ok (g x)) -> mapM f l = Ok (map g l).
Proof.
  induction l as [|x l IH]; intros H; simpl; [reflexivity|].
  rewrite H by apply list_elem_of_here. simpl.
  rewrite IH; [reflexivity|]. intros y Hy. apply H. now apply list_elem_of_further.
Qed.

Lemma for_all_ok {A} (f : A -> res bool) (g : A -> bool) (l : list A) :
  (forall x, x ∈ l -> f x = Ok (g x)) -> for_all f l = Ok (forallb g l).
Proof.
  induction l as [|x l IH]; intros H; simpl; [reflexivity|].
  rewrite H by apply list_elem_of_here. simpl.
  destruct (g x); simpl; [|reflexivity].
  apply IH. intros y Hy. apply H. now apply list_elem_of_further.
Qed.

Lemma forallb_range (g : Z -> bool) (lo hi : Z) :
  forallb g (range lo hi) = true <-> forall x, lo <= x < hi -> g x = true.
Proof.
  rewrite forallb_forall. split.
  - intros H x Hx. apply H. apply list_elem_of_In. now apply elem_of_range.
  - intros H x Hx. apply H. apply elem_of_range. now apply list_elem_of_In.
Qed.

(** ** Bits of the bytes built by shifting *)

Lemma join_lor (a b s : Z) :
  0 <= a < 256 -> 0 <= b < 256 -> 1 <= s <= 7 ->
  Z.land (Z.shiftl a s) 255 + Z.shiftr b (8 - s)
  = Z.lor (Z.land (Z.shiftl a s) 255) (Z.shiftr b (8 - s)).
Proof.
  intros Ha Hb Hs.
  assert (Z.land (Z.land (Z.shiftl a s) 255) (Z.shiftr b (8 - s)) = 0) as H0.
  { apply Z.bits_inj'. intros j Hj.
    rewrite Z.land_spec, Z.land_spec, Z.bits_0, Z.shiftl_spec, Z.shiftr_spec by lia.
    destruct (Z.ltb_spec j s).
    - rewrite (Z.testbit_neg_r a) by lia. reflexivity.
    - rewrite (byte_high b) by lia. now rewrite andb_false_r. }
  rewrite Z.add_nocarry_lxor by assumption. now apply Z.lxor_lor.
Qed.

(** Bit [j] of [((a << s) & 255) + (b >> (8 - s))]. *)
Lemma join_bits (a b s j : Z) :
  0 <= a < 256 -> 0 <= b < 256 -> 1 <= s <= 7 -> 0 <= j < 8 ->
  Z.testbit (Z.land (Z.shiftl a s) 255 + Z.shiftr b (8 - s)) j
  = if s <=? j then Z.testbit a (j - s) else Z.testbit b (j + 8 - s).
Proof.
  intros Ha Hb Hs Hj. rewrite join_lor by assumption.
  rewrite Z.lor_spec, Z.land_spec, Z.shiftl_spec, Z.shiftr_spec by lia.
  change 255 with (Z.ones 8). rewrite Z.ones_spec_low by lia.
  rewrite andb_true_r.
  destruct (Z.leb_spec s j).
  - rewrite (byte_high b) by lia. now rewrite orb_false_r.
  - rewrite (Z.testbit_neg_r a) by lia. rewrite orb_false_l.
    now replace (j + (8 - s)) with (j + 8 - s) by lia.
Qed.

Lemma land_255_byte (x : Z) : 0 <= Z.land x 255 < 256.
Proof.
  change 255 with (Z.ones 8). rewrite Z.land_ones by lia.
  apply Z.mod_pos_bound. lia.
Qed.

Lemma shiftr_byte (b s : Z) : 0 <= b < 256 -> 0 <= s -> 0 <= Z.shiftr b s < 256.
Proof.
  intros Hb Hs. rewrite Z.shiftr_div_pow2 by lia.
  assert (0 < 2 ^ s) by (apply Z.pow_pos_nonneg; lia).
  split; [apply Z.div_pos; lia|].
  apply Z.div_lt_upper_bound; [lia|]. nia.
Qed.

Lemma join_byte (a b s : Z) :
  0 <= a < 256 -> 0 <= b < 256 -> 1 <= s <= 7 ->
  0 <= Z.land (Z.shiftl a s) 255 + Z.shiftr b (8 - s) < 256.
Proof.
  intros Ha Hb Hs.
  pose proof (land_255_byte (Z.shiftl a s)) as H1.
  pose proof (shiftr_byte b (8 - s) Hb ltac:(lia)) as H2.
  split; [lia|].
  destruct (Z.ltb_spec (Z.land (Z.shiftl a s) 255 + Z.shiftr b (8 - s)) 256) as [|Hge];
    [assumption|exfalso].
  set (v := Z.land (Z.shiftl a s) 255 + Z.shiftr b (8 - s)) in *.
  assert (0 < v) by lia.
  assert (8 <= Z.log2 v) as Hlog by (apply Z.log2_le_pow2; lia).
  pose proof (Z.bit_log2 v ltac:(lia)) as Hbit.
  set (i := Z.log2 v) in *.
  unfold v in Hbit. rewrite join_lor in Hbit by assumption.
  rewrite Z.lor_spec in Hbit.
  rewrite (byte_high (Z.land (Z.shiftl a s) 255)) in Hbit by lia.
  rewrite (byte_high (Z.shiftr b (8 - s))) in Hbit by lia.
  discriminate.
Qed.

Lemma join_byte_r (a b s : Z) :
  0 <= a < 256 -> 0 <= b < 256 -> 1 <= s <= 7 ->
  0 <= Z.land (Z.shiftl a (8 - s)) 255 + Z.shiftr b s < 256.
Proof.
  intros Ha Hb Hs. pose proof (join_byte a b (8 - s) Ha Hb ltac:(lia)) as H.
  now replace (8 - (8 - s)) with s in H by lia.
Qed.

(** Bit [j] of [((a << (8 - s)) & 255) + (b >> s)]. *)
Lemma join_bits_r (a b s j : Z) :
  0 <= a < 256 -> 0 <= b < 256 -> 1 <= s <= 7 -> 0 <= j < 8 ->
  Z.testbit (Z.land (Z.shiftl a (8 - s)) 255 + Z.shiftr b s) j
  = if 8 - s <=? j then Z.testbit a (j - (8 - s)) else Z.testbit b (j + s).
Proof.
  intros Ha Hb Hs Hj.
  pose proof (join_bits a b (8 - s) j Ha Hb ltac:(lia) Hj) as H.
  replace (8 - (8 - s)) with s in H by lia. rewrite H.
  destruct (8 - s <=? j); [reflexivity|]. f_equal. lia.
Qed.

(** Bit [j] of [(a << s) & 255]. *)
Lemma shl_bits (a s j : Z) :
  0 <= s -> 0 <= j < 8 ->
  Z.testbit (Z.land (Z.shiftl a s) 255) j = (s <=? j) && Z.testbit a (j - s).
Proof.
  intros Hs Hj. rewrite Z.land_spec, Z.shiftl_spec by lia.
  change 255 with (Z.ones 8). rewrite Z.ones_spec_low by lia.
  rewrite andb_true_r. destruct (Z.leb_spec s j); [reflexivity|].
  now rewrite Z.testbit_neg_r by lia.
Qed.

Lemma byte_at_app_l (l1 l2 : list Z) (j : Z) :
  0 <= j < len l1 -> byte_at (l1 ++ l2) j = byte_at l1 j.
Proof.
  intros Hj. unfold byte_at. rewrite lookup_app_l; [reflexivity|].
  unfold len in Hj. lia.
Qed.

Lemma byte_at_app_r (l1 l2 : list Z) (j : Z) :
  len l1 <= j -> byte_at (l1 ++ l2) j = byte_at l2 (j - len l1).
Proof.
  intros Hj. unfold byte_at. pose proof (len_nonneg l1). unfold len in *.
  rewrite lookup_app_r by lia. do 2 f_equal. lia.
Qed.

Lemma byte_at_map_range (g : Z -> Z) (lo hi j : Z) :
  0 <= j < hi - lo -> byte_at (map g (range lo hi)) j = g (lo + j).
Proof.
  intros Hj. unfold byte_at. rewrite list_lookup_fmap.
  rewrite lookup_range by lia. simpl. do 2 f_equal. lia.
Qed.

Lemma len_app {A} (l1 l2 : list A) : len (l1 ++ l2) = len l1 + len l2.
Proof. unfold len. rewrite length_app. lia. Qed.

Lemma len_map_range (g : Z -> Z) (lo hi : Z) :
  lo <= hi -> len (map g (range lo hi)) = hi - lo.
Proof. intros H. unfold len. rewrite length_map, length_range. lia. Qed.

(** ** [offsetcopy] of an in-memory buffer whose offset is below 8 *)

Lemma mem_bytelength_pos (o n : Z) :
  0 <= o -> 1 <= n -> mem_bytelength o n = (o + n - 1) / 8 - o / 8 + 1.
Proof.
  intros Ho Hn. unfold mem_bytelength.
  destruct (Z.eqb_spec n 0); [lia|].
  destruct (Z.eqb_spec ((o + n - 1) / 8) (-1)) as [E|]; [|reflexivity].
  exfalso. Z.div_mod_to_equations. lia.
Qed.

Lemma bits_in_last_byte_pos (o n : Z) :
  0 <= o -> 1 <= n -> bits_in_last_byte o n = (o + n - 1) mod 8 + 1.
Proof.
  intros Ho Hn. unfold bits_in_last_byte.
  destruct (Z.eqb_spec ((o + n) mod 8) 0); Z.div_mod_to_equations; lia.
Qed.

Lemma py_slice_prefix {A} (d : list A) (m : Z) :
  0 <= m <= len d -> py_slice d 0 m = take (Z.to_nat m) d.
Proof.
  intros Hm. unfold py_slice, slice_bound. simpl.
  destruct (Z.ltb_spec m 0); [lia|].
  rewrite Z.min_l by lia. rewrite Z.min_l by lia.
  rewrite Z.sub_0_r. reflexivity.
Qed.

Lemma new_buffer_run (h : heap) (d : list Z) (n k : Z) :
  new_mem ByteArray (length h) n k (h ++ [Bytes d])
  = Ok (S (length h), h ++ [Bytes d; Mem ByteArray (length h) k n]).
Proof.
  unfold new_mem, alloc. rewrite lookup_alloc_new.
  rewrite length_app, Nat.add_1_r, <- app_assoc. reflexivity.
Qed.

Lemma byte_at_take (d : list Z) (m j : Z) :
  0 <= j < m -> byte_at (take (Z.to_nat m) d) j = byte_at d j.
Proof.
  intros Hj. unfold byte_at. rewrite lookup_take_lt by lia. reflexivity.
Qed.

Lemma assert_range (k : Z) : 0 <= k < 8 -> assert ((0 <=? k) && (k <? 8)) = Ok tt.
Proof.
  intros Hk. destruct (Z.leb_spec 0 k); [|lia]. destruct (Z.ltb_spec k 8); [|lia].
  reflexivity.
Qed.

Section OffsetcopyMem.
Variables (h : heap) (s : loc) (c : cls) (r : loc) (o n : Z) (d : list Z).
Hypothesis Hs : h !! s = Some (Mem c r o n).
Hypothesis Hr : h !! r = Some (Bytes d).
Hypothesis Hd : bytes_ok d.
Hypothesis Ho : 0 <= o < 8.
Hypothesis Hn : 1 <= n.
Hypothesis Hcov : o + n <= 8 * len d.

Let bl := (o + n - 1) / 8 + 1.

Local Lemma bl_eq : mem_bytelength o n = bl.
Proof.
  rewrite mem_bytelength_pos by lia. unfold bl.
  replace (o / 8) with 0 by (Z.div_mod_to_equations; lia). lia.
Qed.

Local Lemma bl_range : 1 <= bl <= len d.
Proof. unfold bl. Z.div_mod_to_equations. lia. Qed.

Local Lemma getitem_raw (x : Z) :
  0 <= x < len d -> getitem h r x = Ok (byte_at d x).
Proof. intros Hx. unfold getitem. rewrite Hr. now apply py_index_ok. Qed.

Local Lemma o_mod : o mod 8 = o.
Proof. apply Z.mod_small. lia. Qed.

Local Lemma o_div : o / 8 = 0.
Proof. apply Z.div_small. lia. Qed.

Lemma offsetcopy_newdata_left (k : Z) :
  0 <= k < o -> offsetcopy_newdata h s k = Ok (left_data d o n k).
Proof.
  intros Hk. pose proof bl_range as Hbl.
  unfold offsetcopy_newdata, get_rawarray, get_offset, get_bitlength,
    get_byteoffset, get_bytelength.
  rewrite Hs. cbn [try_except rbind]. rewrite o_mod, o_div, bl_eq.
  destruct (Z.ltb_spec k o); [|lia].
  rewrite bits_in_last_byte_pos by lia.
  rewrite (mapM_ok _ (fun x => Z.land (Z.shiftl (byte_at d x) (o - k)) 255
                               + Z.shiftr (byte_at d (x + 1)) (8 - (o - k)))).
  - cbn [rbind]. unfold left_data. change ((o + n - 1) / 8 + 1) with bl. change (0 + bl - 1) with (bl - 1).
    destruct ((o + n - 1) mod 8 + 1 >? o - k); [|now rewrite app_nil_r].
    rewrite getitem_raw by lia. reflexivity.
  - intros x Hx%elem_of_range. rewrite !getitem_raw by lia. reflexivity.
Qed.

Lemma left_data_ok (k : Z) : 0 <= k < o -> bytes_ok (left_data d o n k).
Proof.
  intros Hk. unfold left_data, bytes_ok. change ((o + n - 1) / 8 + 1) with bl. apply Forall_app. split.
  - apply Forall_fmap, Forall_forall. intros x _. simpl.
    apply join_byte; [now apply byte_at_range..|lia].
  - destruct (_ >? _); [|constructor].
    repeat constructor; apply land_255_byte.
Qed.

Lemma left_data_len (k : Z) : 0 <= k < o -> len (left_data d o n k) = (k + n + 7) / 8.
Proof.
  intros Hk. pose proof bl_range as Hbl. unfold left_data. change ((o + n - 1) / 8 + 1) with bl.
  rewrite len_app, len_map_range by lia.
  destruct (Z.gtb_spec ((o + n - 1) mod 8 + 1) (o - k));
    unfold len; simpl; unfold bl; Z.div_mod_to_equations; lia.
Qed.

Lemma left_data_bits (k i : Z) :
  0 <= k < o -> 0 <= i < n -> bit_at (left_data d o n k) (k + i) = bit_at d (o + i).
Proof.
  intros Hk Hi. pose proof bl_range as Hbl.
  set (j := (k + i) / 8). set (t := (k + i) mod 8).
  assert (k + i = 8 * j + t /\ 0 <= t < 8 /\ 0 <= j) as (Hp & Ht & Hj)
    by (unfold j, t; Z.div_mod_to_equations; lia).
  assert (8 * j + t + (o - k) < 8 * bl) as Hlast
    by (unfold bl; Z.div_mod_to_equations; lia).
  rewrite Hp, bit_at_byte by assumption.
  replace (o + i) with (8 * j + t + (o - k)) by lia.
  unfold left_data. change ((o + n - 1) / 8 + 1) with bl.
  destruct (Z.ltb_spec j (bl - 1)) as [Hlt|Hge].
  - rewrite byte_at_app_l by (rewrite len_map_range; lia).
    rewrite byte_at_map_range by lia.
    rewrite join_bits by (try apply byte_at_range; auto; lia).
    destruct (Z.leb_spec (o - k) (7 - t)).
    + replace (8 * j + t + (o - k)) with (8 * j + (t + (o - k))) by lia.
      rewrite bit_at_byte by lia. simpl. f_equal. lia.
    + replace (8 * j + t + (o - k)) with (8 * (j + 1) + (t + (o - k) - 8)) by lia.
      rewrite bit_at_byte by lia. simpl. f_equal. lia.
  - assert (j = bl - 1) as Hjl by lia.
    assert (t + (o - k) < 8) as Hts by lia.
    assert ((o + n - 1) mod 8 + 1 > o - k) as He
      by (unfold bl in *; Z.div_mod_to_equations; lia).
    rewrite byte_at_app_r by (rewrite len_map_range; lia).
    rewrite len_map_range by lia.
    destruct (Z.gtb_spec ((o + n - 1) mod 8 + 1) (o - k)); [|lia].
    replace (j - (bl - 1 - 0)) with 0 by lia. unfold byte_at at 1. simpl.
    rewrite shl_bits by lia.
    destruct (Z.leb_spec (o - k) (7 - t)); [|lia]. simpl.
    replace (8 * j + t + (o - k)) with (8 * j + (t + (o - k))) by lia.
    rewrite bit_at_byte by lia. rewrite Hjl. f_equal. lia.
Qed.

Lemma offsetcopy_newdata_right (k : Z) :
  o < k < 8 -> offsetcopy_newdata h s k = Ok (right_data d o n k).
Proof.
  intros Hk. pose proof bl_range as Hbl.
  unfold offsetcopy_newdata, get_rawarray, get_offset, get_bitlength,
    get_byteoffset, get_bytelength.
  rewrite Hs. cbn [try_except rbind]. rewrite o_mod, o_div, bl_eq.
  destruct (Z.ltb_spec k o); [lia|].
  rewrite bits_in_last_byte_pos by lia.
  unfold getbyte. rewrite Hs. unfold get_bytes. rewrite Hr. cbn [rbind].
  rewrite o_div, py_index_ok by lia. cbn [rbind].
  rewrite (mapM_ok _ (fun x => Z.land (Z.shiftl (byte_at d (x - 1)) (8 - (k - o))) 255
                               + Z.shiftr (byte_at d x) (k - o))).
  - cbn [rbind]. unfold right_data. change ((o + n - 1) / 8 + 1) with bl. change (0 + 0) with 0.
    change (0 + bl - 1) with (bl - 1).
    destruct ((o + n - 1) mod 8 + 1 + (k - o) >? 8); [|now rewrite app_nil_r].
    rewrite getitem_raw by lia. reflexivity.
  - intros x Hx%elem_of_range. rewrite !getitem_raw by lia. reflexivity.
Qed.

Lemma right_data_ok (k : Z) : o < k < 8 -> bytes_ok (right_data d o n k).
Proof.
  intros Hk. unfold right_data, bytes_ok. change ((o + n - 1) / 8 + 1) with bl. apply Forall_app. split.
  - constructor; [apply shiftr_byte; [now apply byte_at_range|lia]|].
    apply Forall_fmap, Forall_forall. intros x _. simpl.
    apply join_byte_r; [now apply byte_at_range..|lia].
  - destruct (_ >? _); [|constructor].
    repeat constructor; apply land_255_byte.
Qed.

Lemma right_data_len (k : Z) : o < k < 8 -> len (right_data d o n k) = (k + n + 7) / 8.
Proof.
  intros Hk. pose proof bl_range as Hbl. unfold right_data. change ((o + n - 1) / 8 + 1) with bl.
  rewrite len_app. unfold len at 1. simpl length.
  rewrite length_map, length_range.
  destruct (Z.gtb_spec ((o + n - 1) mod 8 + 1 + (k - o)) 8);
    unfold len; simpl; unfold bl; Z.div_mod_to_equations; lia.
Qed.

Lemma right_data_bits (k i : Z) :
  o < k < 8 -> 0 <= i < n -> bit_at (right_data d o n k) (k + i) = bit_at d (o + i).
Proof.
  intros Hk Hi. pose proof bl_range as Hbl.
  set (j := (k + i) / 8). set (t := (k + i) mod 8).
  assert (k + i = 8 * j + t /\ 0 <= t < 8 /\ 0 <= j) as (Hp & Ht & Hj)
    by (unfold j, t; Z.div_mod_to_equations; lia).
  assert (8 * j + t - (k - o) < 8 * bl) as Hlast
    by (unfold bl; Z.div_mod_to_equations; lia).
  rewrite Hp, bit_at_byte by assumption.
  replace (o + i) with (8 * j + t - (k - o)) by lia.
  unfold right_data. change ((o + n - 1) / 8 + 1) with bl.
  destruct (Z.ltb_spec j bl) as [Hlt|Hge].
  - rewrite byte_at_app_l
      by (unfold len; simpl length; rewrite length_map, length_range; lia).
    destruct (Z.eq_dec j 0) as [Hj0|Hj0].
    + rewrite Hj0. unfold byte_at at 1. simpl.
      rewrite Z.shiftr_spec by lia.
      replace (8 * 0 + t - (k - o)) with (8 * 0 + (t - (k - o))) by lia.
      rewrite bit_at_byte by lia. f_equal. lia.
    + unfold byte_at at 1.
      replace (Z.to_nat j) with (S (Z.to_nat (j - 1))) by lia.
      simpl lookup. fold (byte_at (map (fun x => Z.land (Z.shiftl (byte_at d (x - 1)) (8 - (k - o))) 255 + Z.shiftr (byte_at d x) (k - o)) (range 1 bl)) (j - 1)).
      rewrite byte_at_map_range by lia.
      replace (1 + (j - 1) - 1) with (j - 1) by lia.
      replace (1 + (j - 1)) with j by lia.
      rewrite join_bits_r by (try apply byte_at_range; auto; lia).
      destruct (Z.leb_spec (8 - (k - o)) (7 - t)).
      * replace (8 * j + t - (k - o)) with (8 * (j - 1) + (t - (k - o) + 8)) by lia.
        rewrite bit_at_byte by lia. f_equal. lia.
      * replace (8 * j + t - (k - o)) with (8 * j + (t - (k - o))) by lia.
        rewrite bit_at_byte by lia. f_equal. lia.
  - assert (j = bl) as Hjl by lia.
    assert (t < k - o) as Hts by lia.
    assert ((o + n - 1) mod 8 + 1 + (k - o) > 8) as He
      by (unfold bl in *; Z.div_mod_to_equations; lia).
    rewrite byte_at_app_r
      by (unfold len; simpl length; rewrite length_map, length_range; lia).
    destruct (Z.gtb_spec ((o + n - 1) mod 8 + 1 + (k - o)) 8); [|lia].
    unfold byte_at at 1.
    replace (Z.to_nat _) with 0%nat
      by (unfold len; simpl length; rewrite length_map, length_range; lia).
    simpl. rewrite shl_bits by lia.
    destruct (Z.leb_spec (8 - (k - o)) (7 - t)); [|lia]. simpl.
    replace (8 * j + t - (k - o)) with (8 * (j - 1) + (t - (k - o) + 8)) by lia.
    rewrite bit_at_byte by lia. rewrite Hjl. f_equal. lia.
Qed.

(** The result of [offsetcopy] on the buffer: a new buffer at offset [k]
    over new bytes that hold the same bits. *)
Lemma offsetcopy_mem (k : Z) :
  0 <= k < 8 ->
  exists d',
    offsetcopy s k h
    = Ok (S (length h), h ++ [Bytes d'; Mem ByteArray (length h) k n])
    /\ bytes_ok d' /\ len d' = (k + n + 7) / 8
    /\ forall i, 0 <= i < n -> bit_at d' (k + i) = bit_at d (o + i).
Proof.
  intros Hk. pose proof bl_range as Hbl.
  unfold offsetcopy, mbnd, rd. rewrite assert_range by assumption.
  unfold get_bitlength, get_offset. rewrite Hs. cbv beta iota.
  destruct (Z.eqb_spec n 0); [lia|]. rewrite Hs, o_mod.
  destruct (Z.eqb_spec k o) as [->|Hne]; cbv beta iota.
  - exists (take (Z.to_nat bl) d).
    unfold get_bytelength. rewrite Hs, bl_eq.
    unfold getbyteslice, mbnd, rd, get_bytes. rewrite Hs, Hr, o_div.
    rewrite !Z.add_0_l, Z.add_0_r, py_slice_prefix by lia.
    unfold alloc at 1. rewrite new_buffer_run.
    split; [reflexivity|]. split; [|split].
    + unfold bytes_ok. apply Forall_take. exact Hd.
    + unfold len in *. rewrite length_take. unfold bl in *.
      Z.div_mod_to_equations. lia.
    + intros i Hi. unfold bit_at. rewrite byte_at_take; [reflexivity|].
      unfold bl. Z.div_mod_to_equations. lia.
  - destruct (Z.lt_total k o) as [Hlt|[?|Hgt]]; [|lia|].
    + exists (left_data d o n k). rewrite offsetcopy_newdata_left by lia.
      rewrite to_bytearray_ok by (apply left_data_ok; lia).
      unfold alloc at 1. rewrite new_buffer_run.
      split; [reflexivity|]. split; [apply left_data_ok; lia|].
      split; [apply left_data_len; lia|].
      intros i Hi. apply left_data_bits; lia.
    + exists (right_data d o n k). rewrite offsetcopy_newdata_right by lia.
      rewrite to_bytearray_ok by (apply right_data_ok; lia).
      unfold alloc at 1. rewrite new_buffer_run.
      split; [reflexivity|]. split; [apply right_data_ok; lia|].
      split; [apply right_data_len; lia|].
      intros i Hi. apply right_data_bits; lia.
Qed.
End OffsetcopyMem.

(** ** Integers read off the storage *)

Lemma view_cast (v : Z) (d : list Z) (hi w hi' w' : Z) :
  view v d hi w -> hi = hi' -> w = w' -> view v d hi' w'.
Proof. now intros H <- <-. Qed.

Lemma view_eq (v1 v2 : Z) (d1 d2 : list Z) (p1 p2 w : Z) :
  view v1 d1 (p1 + w - 1) w -> view v2 d2 (p2 + w - 1) w ->
  (v1 =? v2) = true <-> seg_same d1 p1 d2 p2 w.
Proof.
  intros H1 H2. rewrite Z.eqb_eq. split.
  - intros -> i Hi.
    specialize (H1 (w - 1 - i) ltac:(lia)). specialize (H2 (w - 1 - i) ltac:(lia)).
    rewrite H1 in H2. destruct (Z.ltb_spec (w - 1 - i) w); [|lia]. simpl in H2.
    replace (p1 + w - 1 - (w - 1 - i)) with (p1 + i) in H2 by lia.
    replace (p2 + w - 1 - (w - 1 - i)) with (p2 + i) in H2 by lia.
    exact H2.
  - intros Hseg. apply Z.bits_inj'. intros k Hk. rewrite H1, H2 by assumption.
    destruct (Z.ltb_spec k w); [|reflexivity]. simpl.
    specialize (Hseg (w - 1 - k) ltac:(lia)).
    replace (p1 + (w - 1 - k)) with (p1 + w - 1 - k) in Hseg by lia.
    replace (p2 + (w - 1 - k)) with (p2 + w - 1 - k) in Hseg by lia.
    exact Hseg.
Qed.

Lemma view_byte (d : list Z) (j : Z) :
  bytes_ok d -> view (byte_at d j) d (8 * j + 7) 8.
Proof.
  intros Hd k Hk. destruct (Z.ltb_spec k 8).
  - replace (8 * j + 7 - k) with (8 * j + (7 - k)) by lia.
    rewrite bit_at_byte by lia. simpl. f_equal. lia.
  - apply byte_high; [now apply byte_at_range|lia].
Qed.

Lemma word_lor (u v : Z) :
  0 <= v < 256 -> Z.shiftl u 8 + v = Z.lor (Z.shiftl u 8) v.
Proof.
  intros Hv.
  assert (Z.land (Z.shiftl u 8) v = 0) as H0.
  { apply Z.bits_inj'. intros j Hj.
    rewrite Z.land_spec, Z.bits_0, Z.shiftl_spec by lia.
    destruct (Z.ltb_spec j 8).
    - now rewrite Z.testbit_neg_r by lia.
    - rewrite (byte_high v) by lia. apply andb_false_r. }
  rewrite Z.add_nocarry_lxor by assumption. now apply Z.lxor_lor.
Qed.

(** The 16 bits of two consecutive bytes. *)
Lemma view_word (d : list Z) (j : Z) :
  bytes_ok d ->
  view (Z.shiftl (byte_at d (j - 1)) 8 + byte_at d j) d (8 * j + 7) 16.
Proof.
  intros Hd k Hk. rewrite word_lor by now apply byte_at_range.
  rewrite Z.lor_spec, Z.shiftl_spec by lia.
  destruct (Z.ltb_spec k 8).
  - rewrite Z.testbit_neg_r by lia. rewrite orb_false_l.
    rewrite (view_byte d j Hd k Hk).
    destruct (Z.ltb_spec k 8); [|lia]. destruct (Z.ltb_spec k 16); [|lia].
    reflexivity.
  - rewrite (byte_high (byte_at d j)) by (try apply byte_at_range; auto; lia).
    rewrite orb_false_r. rewrite (view_byte d (j - 1) Hd (k - 8)) by lia.
    destruct (Z.ltb_spec (k - 8) 8); destruct (Z.ltb_spec k 16); try lia;
      try reflexivity.
    simpl. f_equal. lia.
Qed.

Lemma view_shiftr (v : Z) (d : list Z) (hi w s : Z) :
  view v d hi w -> 0 <= s -> view (Z.shiftr v s) d (hi - s) (w - s).
Proof.
  intros H Hs k Hk. rewrite Z.shiftr_spec, H by lia.
  destruct (Z.ltb_spec (k + s) w); destruct (Z.ltb_spec k (w - s)); try lia;
    try reflexivity.
  simpl. f_equal. lia.
Qed.

Lemma view_land_ones (v : Z) (d : list Z) (hi w m : Z) :
  view v d hi w -> 0 <= m <= w -> view (Z.land v (Z.ones m)) d hi m.
Proof.
  intros H Hm k Hk. rewrite Z.land_spec, H by lia.
  destruct (Z.ltb_spec k m).
  - rewrite Z.ones_spec_low by lia. destruct (Z.ltb_spec k w); [|lia].
    now rewrite andb_true_r.
  - rewrite Z.ones_spec_high by lia. now rewrite andb_false_r.
Qed.

Lemma shiftr_255 (t : Z) : 0 <= t <= 8 -> Z.shiftr 255 t = Z.ones (8 - t).
Proof.
  intros H.
  assert (t = 0 \/ t = 1 \/ t = 2 \/ t = 3 \/ t = 4 \/ t = 5 \/ t = 6
          \/ t = 7 \/ t = 8) as Hc by lia.
  repeat destruct Hc as [->|Hc]; try reflexivity. subst. reflexivity.
Qed.

(** Shifting left, masking and shifting right again only drops bits. *)
Lemma shl_mask_shr (x a m b : Z) :
  0 <= a <= b -> a <= m ->
  Z.shiftr (Z.land (Z.shiftl x a) (Z.ones m)) b
  = Z.shiftr (Z.land x (Z.ones (m - a))) (b - a).
Proof.
  intros Ha Hm. apply Z.bits_inj'. intros k Hk.
  rewrite !Z.shiftr_spec, !Z.land_spec, Z.shiftl_spec by lia.
  replace (k + b - a) with (k + (b - a)) by lia. f_equal.
  destruct (Z.ltb_spec (k + b) m).
  - rewrite !Z.ones_spec_low by lia. reflexivity.
  - rewrite !Z.ones_spec_high by lia. reflexivity.
Qed.

Lemma seg_same_app (d1 : list Z) (p1 : Z) (d2 : list Z) (p2 w1 w2 : Z) :
  0 <= w1 -> 0 <= w2 ->
  seg_same d1 p1 d2 p2 (w1 + w2)
  <-> seg_same d1 p1 d2 p2 w1 /\ seg_same d1 (p1 + w1) d2 (p2 + w1) w2.
Proof.
  intros H1 H2. unfold seg_same. split.
  - intros H. split; intros i Hi.
    + apply H. lia.
    + rewrite <- !Z.add_assoc. apply H. lia.
  - intros [Ha Hb] i Hi. destruct (Z.ltb_spec i w1).
    + apply Ha. lia.
    + specialize (Hb (i - w1) ltac:(lia)).
      now replace (p1 + w1 + (i - w1)) with (p1 + i) in Hb by lia;
        replace (p2 + w1 + (i - w1)) with (p2 + i) in Hb by lia.
Qed.

Lemma seg_same_app3 (d1 : list Z) (p1 : Z) (d2 : list Z) (p2 w1 w2 w3 : Z) :
  0 <= w1 -> 0 <= w2 -> 0 <= w3 ->
  seg_same d1 p1 d2 p2 (w1 + (w2 + w3))
  <-> seg_same d1 p1 d2 p2 w1
      /\ seg_same d1 (p1 + w1) d2 (p2 + w1) w2
      /\ seg_same d1 (p1 + w1 + w2) d2 (p2 + w1 + w2) w3.
Proof.
  intros H1 H2 H3.
  rewrite (seg_same_app d1 p1 d2 p2 w1 (w2 + w3)) by lia.
  rewrite (seg_same_app d1 (p1 + w1) d2 (p2 + w1) w2 w3) by lia.
  reflexivity.
Qed.

(** A run of whole bytes, compared byte by byte. *)
Lemma seg_same_bytes (d1 : list Z) (p1 : Z) (d2 : list Z) (p2 lo hi : Z) :
  lo <= hi ->
  (forall x, lo <= x < hi ->
             seg_same d1 (p1 + 8 * (x - lo)) d2 (p2 + 8 * (x - lo)) 8)
  <-> seg_same d1 p1 d2 p2 (8 * (hi - lo)).
Proof.
  intros Hlo. unfold seg_same. split.
  - intros H i Hi.
    specialize (H (lo + i / 8) ltac:(Z.div_mod_to_equations; lia)
                  (i mod 8) ltac:(Z.div_mod_to_equations; lia)).
    replace (p1 + 8 * (lo + i / 8 - lo) + i mod 8) with (p1 + i) in H
      by (Z.div_mod_to_equations; lia).
    replace (p2 + 8 * (lo + i / 8 - lo) + i mod 8) with (p2 + i) in H
      by (Z.div_mod_to_equations; lia).
    exact H.
  - intros H x Hx i Hi. rewrite <- !Z.add_assoc. apply H. lia.
Qed.

Lemma seg_same_refl (d : list Z) (p w : Z) : seg_same d p d p w.
Proof. intros i _. reflexivity. Qed.

Lemma seg_same_sym (d1 : list Z) (p1 : Z) (d2 : list Z) (p2 w : Z) :
  seg_same d1 p1 d2 p2 w -> seg_same d2 p2 d1 p1 w.
Proof. intros H i Hi. symmetry. now apply H. Qed.

(** The values compared by [equal], as views of the storage. *)
Lemma view_single_byte (d : list Z) (j off n : Z) :
  bytes_ok d -> 0 <= off -> 0 <= n -> off + n <= 8 ->
  view (Z.shiftr (Z.land (Z.shiftl (byte_at d j) off) 255) (8 - n)) d
       (8 * j + off + n - 1) n.
Proof.
  intros Hd Ho Hn Hon. change 255 with (Z.ones 8).
  rewrite shl_mask_shr by lia.
  eapply view_cast;
    [apply view_shiftr; [eapply view_land_ones; [now apply view_byte|]|]|..]; lia.
Qed.

Lemma view_first (d : list Z) (j off : Z) :
  bytes_ok d -> 0 <= off < 8 ->
  view (Z.land (byte_at d j) (Z.shiftr 255 off)) d (8 * j + 7) (8 - off).
Proof.
  intros Hd Ho. rewrite shiftr_255 by lia.
  eapply view_land_ones; [now apply view_byte|lia].
Qed.

Lemma view_first_shifted (d : list Z) (j off shift : Z) :
  bytes_ok d -> 0 <= off < 8 -> 0 <= shift ->
  view (Z.shiftr (Z.land (byte_at d j) (Z.shiftr 255 off)) shift) d
       (8 * j + 7 - shift) (8 - off - shift).
Proof.
  intros Hd Ho Hs. apply view_shiftr; [now apply view_first|lia].
Qed.

Lemma view_top (d : list Z) (j s : Z) :
  bytes_ok d -> 0 <= s ->
  view (Z.shiftr (byte_at d j) s) d (8 * j + 7 - s) (8 - s).
Proof. intros Hd Hs. apply view_shiftr; [now apply view_byte|lia]. Qed.

Lemma view_middle (d : list Z) (j shift : Z) :
  bytes_ok d -> 0 <= shift <= 8 ->
  view (Z.land (Z.shiftr (Z.shiftl (byte_at d (j - 1)) 8 + byte_at d j) shift) 255)
       d (8 * j + 7 - shift) 8.
Proof.
  intros Hd Hs. change 255 with (Z.ones 8).
  eapply view_land_ones; [apply view_shiftr; [now apply view_word|lia]|lia].
Qed.

Lemma view_two_bytes (d : list Z) (j off n : Z) :
  bytes_ok d -> 0 <= off -> 0 <= n -> off + n <= 16 ->
  view (Z.shiftr (Z.land (Z.shiftl (Z.shiftl (byte_at d j) 8 + byte_at d (j + 1)) off)
                         65535) (16 - n))
       d (8 * j + off + n - 1) n.
Proof.
  intros Hd Ho Hn Hon. change 65535 with (Z.ones 16).
  rewrite shl_mask_shr by lia.
  pose proof (view_word d (j + 1) Hd) as Hw.
  replace (j + 1 - 1) with j in Hw by lia.
  eapply view_cast;
    [apply view_shiftr; [eapply view_land_ones; [exact Hw|]|]|..]; lia.
Qed.

Lemma view_final_short (d : list Z) (j fa fb : Z) :
  bytes_ok d -> 0 <= fb <= fa -> fa <= 8 ->
  view (Z.land (Z.shiftr (byte_at d j) (8 - fa)) (Z.shiftr 255 (8 - fb))) d
       (8 * j + fa - 1) fb.
Proof.
  intros Hd Hf Hfa. rewrite shiftr_255 by lia.
  replace (8 - (8 - fb)) with fb by lia.
  apply view_land_ones with (w := fa); [|lia].
  eapply view_cast; [apply view_top; [assumption|]|..]; lia.
Qed.

Lemma view_final_long (d : list Z) (j fa fb : Z) :
  bytes_ok d -> 0 <= fa <= 8 -> 0 <= fb <= 8 ->
  view (Z.land (Z.shiftr (Z.shiftl (byte_at d (j - 1)) 8 + byte_at d j) (8 - fa))
               (Z.shiftr 255 (8 - fb)))
       d (8 * j + fa - 1) fb.
Proof.
  intros Hd Hfa Hfb. rewrite shiftr_255 by lia.
  replace (8 - (8 - fb)) with fb by lia.
  apply view_land_ones with (w := 8 + fa); [|lia].
  eapply view_cast; [apply view_shiftr; [now apply view_word|]|..]; lia.
Qed.

(** ** [equal] on two in-memory buffers *)

Lemma getitem_bytes (h : heap) (r : loc) (d : list Z) (x : Z) :
  h !! r = Some (Bytes d) -> 0 <= x < len d -> getitem h r x = Ok (byte_at d x).
Proof. intros Hr Hx. unfold getitem. rewrite Hr. now apply py_index_ok. Qed.

Lemma final_bits_pos (o n : Z) :
  0 <= o -> 1 <= n -> final_bits o n = (o + n - 1) mod 8 + 1.
Proof.
  intros Ho Hn. unfold final_bits.
  destruct (Z.eqb_spec ((o + n) mod 8) 0); Z.div_mod_to_equations; lia.
Qed.

Lemma bits_spare_pos (o n : Z) :
  0 <= o -> 1 <= n ->
  (if 8 - (o mod 8 + n) mod 8 =? 8 then 0 else 8 - (o mod 8 + n) mod 8)
  = 7 - (o + n - 1) mod 8.
Proof.
  intros Ho Hn.
  destruct (Z.eqb_spec (8 - (o mod 8 + n) mod 8) 8); Z.div_mod_to_equations; lia.
Qed.

Lemma rshift_ok (x n : Z) : 0 <= n -> rshift x n = Ok (Z.shiftr x n).
Proof. intros H. unfold rshift. destruct (Z.ltb_spec n 0); [lia|reflexivity]. Qed.

Lemma single_byte_val_ok (h : heap) (r : loc) (d : list Z) (j off n : Z) :
  h !! r = Some (Bytes d) -> 0 <= j < len d -> n <= 8 ->
  single_byte_val h r j off n
  = Ok (Z.shiftr (Z.land (Z.shiftl (byte_at d j) off) 255) (8 - n)).
Proof.
  intros Hr Hj Hn. unfold single_byte_val.
  rewrite (getitem_bytes _ _ _ _ Hr Hj). cbn [rbind]. apply rshift_ok. lia.
Qed.

(** Three tests in a row: the answer is [true] when all three pass. *)
Lemma three_tests (P : Prop) (b1 b2 b3 : bool) :
  (P <-> b1 = true /\ b2 = true /\ b3 = true) ->
  exists r, (if negb b1 then Ok false
             else if negb b2 then Ok false
             else if negb b3 then Ok false else Ok true) = Ok r
            /\ (r = true <-> P).
Proof.
  intros H. destruct b1, b2, b3; simpl; eexists; (split; [reflexivity|]);
    rewrite H; intuition congruence.
Qed.

Lemma three_tests_last (P : Prop) (b1 b2 b3 : bool) :
  (P <-> b1 = true /\ b2 = true /\ b3 = true) ->
  exists r, (if negb b1 then Ok false
             else if negb b2 then Ok false else Ok b3) = Ok r
            /\ (r = true <-> P).
Proof.
  intros H. destruct b1, b2, b3; simpl; eexists; (split; [reflexivity|]);
    rewrite H; intuition congruence.
Qed.

Section EqualMem.
Variables (h : heap) (a b : loc) (ca cb : cls) (ra rb : loc) (oa ob n : Z).
Variables (da db : list Z).
Hypothesis Ha : h !! a = Some (Mem ca ra oa n).
Hypothesis Hb : h !! b = Some (Mem cb rb ob n).
Hypothesis Hra : h !! ra = Some (Bytes da).
Hypothesis Hrb : h !! rb = Some (Bytes db).
Hypothesis Hda : bytes_ok da.
Hypothesis Hdb : bytes_ok db.
Hypothesis Hoa : 0 <= oa.
Hypothesis Hob : 0 <= ob.
Hypothesis Hn : 1 <= n.
Hypothesis Hca : oa + n <= 8 * len da.
Hypothesis Hcb : ob + n <= 8 * len db.

Lemma equal_ordered_mem :
  oa mod 8 <= ob mod 8 ->
  exists r, equal_ordered h a b n n = Ok r
            /\ (r = true <-> seg_same da oa db ob n).
Proof.
  intros Hord.
  unfold equal_ordered, get_offset, get_byteoffset, get_bytelength, get_rawarray.
  rewrite Ha, Hb. cbn [rbind try_except].
  rewrite !mem_bytelength_pos, !final_bits_pos, bits_spare_pos by lia.
  set (fa := oa mod 8) in *. set (qa := oa / 8).
  set (ea := (oa + n - 1) / 8). set (ta := (oa + n - 1) mod 8).
  set (fb := ob mod 8) in *. set (qb := ob / 8).
  set (eb := (ob + n - 1) / 8). set (tb := (ob + n - 1) mod 8).
  assert (oa = 8 * qa + fa /\ 0 <= fa < 8 /\ 0 <= qa
          /\ oa + n - 1 = 8 * ea + ta /\ 0 <= ta < 8 /\ ea < len da)
    as (Eoa & Hfa & Hqa & Eea & Hta & Hea)
    by (unfold fa, qa, ea, ta; Z.div_mod_to_equations; lia).
  assert (ob = 8 * qb + fb /\ 0 <= fb < 8 /\ 0 <= qb
          /\ ob + n - 1 = 8 * eb + tb /\ 0 <= tb < 8 /\ eb < len db)
    as (Eob & Hfb & Hqb & Eeb & Htb & Heb)
    by (unfold fb, qb, eb, tb; Z.div_mod_to_equations; lia).
  clearbody fa qa ea ta fb qb eb tb.
  destruct ((ra =? rb)%nat && (oa =? ob)) eqn:Hid.
  { apply andb_true_iff in Hid as [E1%Nat.eqb_eq E2%Z.eqb_eq].
    exists true. split; [reflexivity|]. split; [|reflexivity]. intros _.
    assert (da = db) as -> by congruence. rewrite E2. apply seg_same_refl. }
  clear Hid.
  destruct (Z.eqb_spec fa fb) as [Efab|Nfab].
  - (* aligned *)
    assert (ea - qa = eb - qb /\ ta = tb) as [Eq Et] by lia.
    destruct (Z.eqb_spec (ea - qa + 1) 1) as [E1|N1].
    + rewrite (single_byte_val_ok _ _ _ _ _ _ Hra), (single_byte_val_ok _ _ _ _ _ _ Hrb)
        by lia.
      cbn [rbind]. eexists. split; [reflexivity|].
      apply view_eq; (eapply view_cast; [apply view_single_byte|..]); auto; lia.
    + rewrite (getitem_bytes _ _ _ _ Hra), (getitem_bytes _ _ _ _ Hrb) by lia.
      cbn [rbind].
      replace (qa + (ea - qa + 1) - 1) with ea by lia.
      replace (qb + (eb - qb + 1) - 1) with eb by lia.
      rewrite (for_all_ok _ (fun x => byte_at da x =? byte_at db (qb - qa + x))).
      2:{ intros x Hx%elem_of_range.
          rewrite (getitem_bytes _ _ _ _ Hra), (getitem_bytes _ _ _ _ Hrb) by lia.
          reflexivity. }
      cbn [rbind].
      rewrite (getitem_bytes _ _ _ _ Hra), (getitem_bytes _ _ _ _ Hrb) by lia.
      cbn [rbind].
      apply three_tests.
      replace n with ((8 - fa) + (8 * (ea - (1 + qa)) + (ta + 1))) at 1 by lia.
      rewrite seg_same_app3 by lia.
      assert ((Z.land (byte_at da qa) (Z.shiftr 255 fa)
               =? Z.land (byte_at db qb) (Z.shiftr 255 fb)) = true
              <-> seg_same da oa db ob (8 - fa)) as H1.
      { apply view_eq; (eapply view_cast; [apply view_first|..]); auto; lia. }
      assert (forallb (fun x => byte_at da x =? byte_at db (qb - qa + x))
                      (range (1 + qa) ea) = true
              <-> seg_same da (oa + (8 - fa)) db (ob + (8 - fa))
                           (8 * (ea - (1 + qa)))) as H2.
      { rewrite forallb_range, <- seg_same_bytes by lia.
        split; intros H x Hx; specialize (H x Hx).
        - eapply view_eq; [| |exact H];
            (eapply view_cast; [apply view_byte|..]); auto; lia.
        - eapply view_eq; [| |exact H];
            (eapply view_cast; [apply view_byte|..]); auto; lia. }
      assert ((Z.shiftr (byte_at da ea) (7 - ta) =? Z.shiftr (byte_at db eb) (7 - ta))
              = true
              <-> seg_same da (oa + (8 - fa) + 8 * (ea - (1 + qa)))
                           db (ob + (8 - fa) + 8 * (ea - (1 + qa))) (ta + 1)) as H3.
      { apply view_eq; (eapply view_cast; [apply view_top|..]); auto; lia. }
      rewrite <- H1, <- H2, <- H3. tauto.
  - (* misaligned *)
    assert (1 <= fb - fa <= 7) as Hshift by lia.
    assert ((eb - qb = ea - qa /\ tb = ta + (fb - fa))
            \/ (eb - qb = ea - qa + 1 /\ tb = ta + (fb - fa) - 8)) as Hrel by lia.
    destruct (Z.eqb_spec (eb - qb + 1) 1) as [E1|N1].
    + destruct (Z.eqb_spec (ea - qa + 1) 1); [|lia]. cbn [assert rbind].
      rewrite (single_byte_val_ok _ _ _ _ _ _ Hra), (single_byte_val_ok _ _ _ _ _ _ Hrb)
        by lia.
      cbn [rbind]. eexists. split; [reflexivity|].
      apply view_eq; (eapply view_cast; [apply view_single_byte|..]); auto; lia.
    + destruct (Z.eqb_spec (ea - qa + 1) 1) as [E2|N2].
      * destruct (Z.eqb_spec (eb - qb + 1) 2); [|lia]. cbn [assert rbind].
        rewrite (single_byte_val_ok _ _ _ _ _ _ Hra) by lia. cbn [rbind].
        rewrite !(getitem_bytes _ _ _ _ Hrb) by lia. cbn [rbind].
        rewrite rshift_ok by lia. cbn [rbind].
        eexists. split; [reflexivity|].
        apply view_eq.
        -- eapply view_cast; [apply view_single_byte|..]; auto; lia.
        -- eapply view_cast; [apply view_two_bytes|..]; auto; lia.
      * rewrite (getitem_bytes _ _ _ _ Hra), (getitem_bytes _ _ _ _ Hrb) by lia.
        cbn [rbind].
        replace (eb - qb + 1 - 1) with (eb - qb) by lia.
        replace (qb + (eb - qb + 1) - 1) with eb by lia.
        replace (qa + (ea - qa + 1) - 1) with ea by lia.
        replace (qa + (ea - qa + 1) - 2) with (ea - 1) by lia.
        rewrite (for_all_ok _ (fun x =>
                   Z.land (Z.shiftr (Z.shiftl (byte_at da (qa + x - 1)) 8
                                     + byte_at da (qa + x)) (fb - fa)) 255
                   =? byte_at db (qb + x))).
        2:{ intros x Hx%elem_of_range.
            rewrite (getitem_bytes _ _ _ _ Hrb) by lia. cbn [rbind].
            rewrite !(getitem_bytes _ _ _ _ Hra) by lia. reflexivity. }
        cbn [rbind].
        rewrite (getitem_bytes _ _ _ _ Hrb) by lia. cbn [rbind].
        assert ((Z.shiftr (Z.land (byte_at da qa) (Z.shiftr 255 fa)) (fb - fa)
                 =? Z.land (byte_at db qb) (Z.shiftr 255 fb)) = true
                <-> seg_same da oa db ob (8 - fb)) as H1.
        { apply view_eq.
          - eapply view_cast; [apply view_first_shifted|..]; auto; lia.
          - eapply view_cast; [apply view_first|..]; auto; lia. }
        assert (forallb (fun x =>
                   Z.land (Z.shiftr (Z.shiftl (byte_at da (qa + x - 1)) 8
                                     + byte_at da (qa + x)) (fb - fa)) 255
                   =? byte_at db (qb + x)) (range 1 (eb - qb)) = true
                <-> seg_same da (oa + (8 - fb)) db (ob + (8 - fb))
                             (8 * (eb - qb - 1))) as H2.
        { rewrite forallb_range, <- seg_same_bytes by lia.
          split; intros H x Hx; specialize (H x Hx).
          - eapply view_eq; [| |exact H].
            + eapply view_cast; [apply view_middle|..]; auto; lia.
            + eapply view_cast; [apply view_byte|..]; auto; lia.
          - eapply view_eq; [| |exact H].
            + eapply view_cast; [apply view_middle|..]; auto; lia.
            + eapply view_cast; [apply view_byte|..]; auto; lia. }
        destruct (Z.gtb_spec (eb - qb + 1) (ea - qa + 1)) as [Hgt|Hle].
        -- destruct (Z.eqb_spec (eb - qb + 1) (ea - qa + 1 + 1)); [|lia].
           cbn [assert rbind].
           rewrite (getitem_bytes _ _ _ _ Hra) by lia. cbn [rbind].
           apply three_tests_last.
           replace n with ((8 - fb) + (8 * (eb - qb - 1) + (tb + 1))) at 1 by lia.
           rewrite seg_same_app3 by lia.
           rewrite <- H1, <- H2.
           assert ((Z.land (Z.shiftr (byte_at da ea) (8 - (ta + 1)))
                           (Z.shiftr 255 (8 - (tb + 1)))
                    =? Z.shiftr (byte_at db eb) (8 - (tb + 1))) = true
                   <-> seg_same da (oa + (8 - fb) + 8 * (eb - qb - 1))
                                db (ob + (8 - fb) + 8 * (eb - qb - 1)) (tb + 1)) as H3.
           { apply view_eq.
             - eapply view_cast; [apply view_final_short|..]; auto; lia.
             - eapply view_cast; [apply view_top|..]; auto; lia. }
           rewrite <- H3. tauto.
        -- destruct (Z.eqb_spec (ea - qa + 1) (eb - qb + 1)); [|lia].
           cbn [assert rbind].
           rewrite !(getitem_bytes _ _ _ _ Hra) by lia. cbn [rbind].
           apply three_tests_last.
           replace n with ((8 - fb) + (8 * (eb - qb - 1) + (tb + 1))) at 1 by lia.
           rewrite seg_same_app3 by lia.
           rewrite <- H1, <- H2.
           assert ((Z.land (Z.shiftr (Z.shiftl (byte_at da (ea - 1)) 8 + byte_at da ea)
                                     (8 - (ta + 1)))
                           (Z.shiftr 255 (8 - (tb + 1)))
                    =? Z.shiftr (byte_at db eb) (8 - (tb + 1))) = true
                   <-> seg_same da (oa + (8 - fb) + 8 * (eb - qb - 1))
                                db (ob + (8 - fb) + 8 * (eb - qb - 1)) (tb + 1)) as H3.
           { apply view_eq.
             - eapply view_cast; [apply view_final_long|..]; auto; lia.
             - eapply view_cast; [apply view_top|..]; auto; lia. }
           rewrite <- H3. tauto.
Qed.
End EqualMem.

(** [equal] on two in-memory buffers returns, and answers whether the
    bitlengths agree and the two runs of bits are the same. *)
Lemma equal_mem (h : heap) (a b : loc) (da db : list Z) (oa na ob nb : Z) :
  mem_buffer h a da oa na -> mem_buffer h b db ob nb ->
  exists r, equal h a b = Ok r
            /\ (r = true <-> na = nb /\ seg_same da oa db ob na).
Proof.
  intros ((ca & ra & Ha & Hra) & Hda & Hoa & Hna & Hca)
         ((cb & rb & Hb & Hrb) & Hdb & Hob & Hnb & Hcb).
  unfold equal, get_bitlength, get_offset. rewrite Ha, Hb. cbn [rbind].
  destruct (Z.eqb_spec na nb) as [<-|Hne]; cbn [negb].
  2:{ exists false. split; [reflexivity|]. split; [discriminate|]. tauto. }
  destruct (Z.eqb_spec na 0) as [->|Hn0].
  { exists true. split; [reflexivity|]. split; [|reflexivity].
    intros _. split; [reflexivity|]. intros i Hi. lia. }
  destruct Hca as [?|Hca]; [lia|]. destruct Hcb as [?|Hcb]; [lia|].
  destruct (Z.gtb_spec (oa mod 8) (ob mod 8)) as [Hgt|Hle].
  - destruct (equal_ordered_mem h b a cb ca rb ra ob oa na db da) as (r & Hr & Hiff);
      auto; try lia.
    exists r. split; [exact Hr|]. rewrite Hiff.
    split; [intros H; split; [reflexivity|now apply seg_same_sym]
           |intros [_ H]; now apply seg_same_sym].
  - destruct (equal_ordered_mem h a b ca cb ra rb oa ob na da db) as (r & Hr & Hiff);
      auto; try lia.
    exists r. split; [exact Hr|]. rewrite Hiff. tauto.
Qed.

(** ** The byte at a join *)

Lemma byte_of_bits (v : Z) :
  0 <= v -> (forall j, 8 <= j -> Z.testbit v j = false) -> v < 256.
Proof.
  intros Hv Hbits. destruct (Z.ltb_spec v 256) as [|Hge]; [assumption|exfalso].
  assert (8 <= Z.log2 v) as Hlog by (apply Z.log2_le_pow2; lia).
  pose proof (Z.bit_log2 v ltac:(lia)) as Hbit.
  rewrite Hbits in Hbit by assumption. discriminate.
Qed.

(** Bit [j] of [(x & (255 ^ (255 >> k))) | (y & (255 >> k))]: the [k] high
    bits come from [x], the others from [y]. *)
Lemma join_mask_bits (x y k j : Z) :
  0 <= k <= 8 -> 0 <= j < 8 ->
  Z.testbit (Z.lor (Z.land x (Z.lxor 255 (Z.shiftr 255 k)))
                   (Z.land y (Z.shiftr 255 k))) j
  = if j <? 8 - k then Z.testbit y j else Z.testbit x j.
Proof.
  intros Hk Hj. rewrite shiftr_255 by lia. change 255 with (Z.ones 8).
  rewrite Z.lor_spec, !Z.land_spec, Z.lxor_spec.
  rewrite (Z.ones_spec_low 8) by lia.
  destruct (Z.ltb_spec j (8 - k)).
  - rewrite Z.ones_spec_low by lia. simpl. now rewrite andb_false_r, andb_true_r.
  - rewrite Z.ones_spec_high by lia. simpl. now rewrite andb_false_r, andb_true_r, orb_false_r.
Qed.

Lemma join_mask_byte (x y k : Z) :
  0 <= x < 256 -> 0 <= y < 256 -> 0 <= k <= 8 ->
  0 <= Z.lor (Z.land x (Z.lxor 255 (Z.shiftr 255 k))) (Z.land y (Z.shiftr 255 k)) < 256.
Proof.
  intros Hx Hy Hk.
  assert (0 <= Z.lor (Z.land x (Z.lxor 255 (Z.shiftr 255 k)))
                     (Z.land y (Z.shiftr 255 k))) as H0.
  { apply Z.lor_nonneg. split; apply Z.land_nonneg; left; lia. }
  split; [assumption|]. apply byte_of_bits; [assumption|].
  intros j Hj. rewrite Z.lor_spec, !Z.land_spec.
  rewrite (byte_high x), (byte_high y) by lia. reflexivity.
Qed.

Lemma py_pop_ok (d : list Z) :
  1 <= len d ->
  py_pop d = Ok (byte_at d (len d - 1), take (Z.to_nat (len d - 1)) d).
Proof.
  intros Hl. unfold py_pop, byte_at, len in *.
  rewrite last_lookup, removelast_firstn_len.
  replace (Z.to_nat (Z.of_nat (length d) - 1)) with (pred (length d)) by lia.
  destruct (d !! pred (length d)) eqn:E; [reflexivity|].
  apply lookup_ge_None in E. lia.
Qed.

Lemma py_slice_tail (d : list Z) : 1 <= len d -> py_slice d 1 (len d) = drop 1 d.
Proof.
  intros Hl. unfold py_slice, slice_bound.
  destruct (Z.ltb_spec 1 0); [lia|]. destruct (Z.ltb_spec (len d) 0); [lia|].
  rewrite Z.min_l by lia. rewrite Z.min_l by lia.
  change (Z.to_nat 1) with 1%nat.
  apply take_ge. rewrite length_drop. unfold len. lia.
Qed.

Lemma py_append_ok (d : list Z) (v : Z) :
  0 <= v < 256 -> py_append d v = Ok (d ++ [v]).
Proof. intros Hv. unfold py_append. now rewrite is_byte_true. Qed.

Lemma byte_at_drop (d : list Z) (m j : Z) :
  0 <= m -> 0 <= j -> byte_at (drop (Z.to_nat m) d) j = byte_at d (m + j).
Proof.
  intros Hm Hj. unfold byte_at. rewrite lookup_drop. do 2 f_equal. lia.
Qed.

Lemma byte_at_singleton (v : Z) : byte_at [v] 0 = v.
Proof. reflexivity. Qed.

(** ** The bytes after [appendarray] *)

Lemma len_take (d : list Z) (m : Z) :
  0 <= m <= len d -> len (take (Z.to_nat m) d) = m.
Proof. intros H. unfold len in *. rewrite length_take. lia. Qed.

Lemma len_drop1 (d : list Z) : 1 <= len d -> len (drop 1 d) = len d - 1.
Proof. intros H. unfold len in *. rewrite length_drop. lia. Qed.

Lemma len_singleton (v : Z) : len [v] = 1.
Proof. reflexivity. Qed.

Section AppendBytes.
Variables (da d' : list Z) (T nb k : Z).
Hypothesis Hda : bytes_ok da.
Hypothesis Hd' : bytes_ok d'.
Hypothesis HT : 0 <= T.
Hypothesis Hk : k = T mod 8.
Hypothesis Htight : len da = (T + 7) / 8.
Hypothesis Hnb : 1 <= nb.
Hypothesis Hlen' : len d' = (k + nb + 7) / 8.

Local Lemma append_shape :
  (k = 0 /\ T = 8 * len da)
  \/ (1 <= k < 8 /\ 1 <= len da /\ T = 8 * (len da - 1) + k).
Proof. rewrite Htight. subst k. clear - HT. Z.div_mod_to_equations. lia. Qed.

Local Lemma len_d'_bound : 1 <= len d' /\ k + nb <= 8 * len d'.
Proof.
  rewrite Hlen'. assert (0 <= k < 8) as Hk8 by (subst k; apply mod8_range).
  clear - Hk8 Hnb. Z.div_mod_to_equations. lia.
Qed.

Lemma append_bytes_ok : bytes_ok (append_bytes da d' k).
Proof.
  unfold append_bytes, bytes_ok. destruct (k =? 0).
  - apply Forall_app. split; assumption.
  - apply Forall_app; split; [apply Forall_app; split|].
    + apply Forall_take. exact Hda.
    + constructor; [|constructor].
      apply join_mask_byte; try (apply byte_at_range; assumption).
      pose proof append_shape. lia.
    + apply Forall_drop. exact Hd'.
Qed.

Local Lemma append_bytes_length :
  len (append_bytes da d' k)
  = if k =? 0 then len da + len d' else len da - 1 + len d'.
Proof.
  pose proof len_d'_bound as [Hp _].
  unfold append_bytes.
  destruct append_shape as [[Hk0 HT0]|(Hk1 & Hm & HT1)].
  - rewrite Hk0. simpl. apply len_app.
  - destruct (Z.eqb_spec k 0); [lia|].
    rewrite !len_app, len_take, len_drop1, len_singleton by lia. lia.
Qed.

Lemma append_bytes_len : T + nb <= 8 * len (append_bytes da d' k).
Proof.
  pose proof len_d'_bound as [Hp Hq]. rewrite append_bytes_length.
  destruct append_shape as [[Hk0 HT0]|(Hk1 & Hm & HT1)].
  - rewrite Hk0 in *. simpl. lia.
  - destruct (Z.eqb_spec k 0); lia.
Qed.

Lemma append_bytes_old (p : Z) :
  0 <= p < T -> bit_at (append_bytes da d' k) p = bit_at da p.
Proof.
  intros Hp.
  set (j := p / 8). set (t := p mod 8).
  assert (p = 8 * j + t /\ 0 <= t < 8 /\ 0 <= j) as (Ep & Ht & Hj)
    by (unfold j, t; clear - Hp; Z.div_mod_to_equations; lia).
  clearbody j t. rewrite Ep, !bit_at_byte by assumption.
  unfold append_bytes.
  destruct append_shape as [[Hk0 HT0]|(Hk1 & Hm & HT1)].
  - rewrite Hk0. simpl. rewrite byte_at_app_l by lia. reflexivity.
  - destruct (Z.eqb_spec k 0); [lia|].
    rewrite byte_at_app_l
      by (rewrite len_app, len_take, len_singleton by lia; lia).
    destruct (Z.ltb_spec j (len da - 1)).
    + rewrite byte_at_app_l by (rewrite len_take by lia; lia).
      rewrite byte_at_take by lia. reflexivity.
    + assert (j = len da - 1) as -> by lia.
      rewrite byte_at_app_r by (rewrite len_take by lia; lia).
      rewrite len_take by lia. rewrite Z.sub_diag.
      rewrite byte_at_singleton, join_mask_bits by lia.
      destruct (Z.ltb_spec (7 - t) (8 - k)); [lia|reflexivity].
Qed.

Lemma append_bytes_new (i : Z) :
  0 <= i < nb -> bit_at (append_bytes da d' k) (T + i) = bit_at d' (k + i).
Proof.
  intros Hi. pose proof len_d'_bound as [Hp Hq].
  set (j := (k + i) / 8). set (t := (k + i) mod 8).
  assert (0 <= k < 8) as Hk8 by (subst k; apply mod8_range).
  assert (k + i = 8 * j + t /\ 0 <= t < 8 /\ 0 <= j) as (Ep & Ht & Hj)
    by (unfold j, t; clear - Hi Hk8; Z.div_mod_to_equations; lia).
  clearbody j t. rewrite Ep, bit_at_byte by assumption.
  unfold append_bytes.
  destruct append_shape as [[Hk0 HT0]|(Hk1 & Hm & HT1)].
  - rewrite Hk0 in *. simpl.
    replace (T + i) with (8 * (len da + j) + t) by lia.
    rewrite bit_at_byte by assumption.
    rewrite byte_at_app_r by lia. do 2 f_equal. lia.
  - destruct (Z.eqb_spec k 0); [lia|].
    replace (T + i) with (8 * (len da - 1 + j) + t) by lia.
    rewrite bit_at_byte by assumption.
    destruct (Z.eq_dec j 0) as [->|Hj0].
    + rewrite byte_at_app_l
        by (rewrite len_app, len_take, len_singleton by lia; lia).
      rewrite byte_at_app_r by (rewrite len_take by lia; lia).
      rewrite len_take by lia.
      replace (len da - 1 + 0 - (len da - 1)) with 0 by lia.
      rewrite byte_at_singleton, join_mask_bits by lia.
      destruct (Z.ltb_spec (7 - t) (8 - k)); [reflexivity|lia].
    + rewrite byte_at_app_r
        by (rewrite len_app, len_take, len_singleton by lia; lia).
      rewrite len_app, len_take, len_singleton by lia.
      change 1%nat with (Z.to_nat 1). rewrite byte_at_drop by lia.
      do 2 f_equal. lia.
Qed.
End AppendBytes.

(** ** Running [appendarray] and [prependarray] *)

Lemma mbnd_rd {A B} (f : heap -> res A) (k : A -> M B) (h : heap) (a : A) :
  f h = Ok a -> mbnd (rd f) k h = k a h.
Proof. intros Hf. unfold mbnd, rd. now rewrite Hf. Qed.

Lemma mbnd_store {B} (l : loc) (o : obj) (k : unit -> M B) (h : heap) :
  mbnd (store l o) k h = k tt (<[l := o]> h).
Proof. reflexivity. Qed.

Lemma mbnd_mbnd {A B C} (m : M A) (k1 : A -> M B) (k2 : B -> M C) (h : heap) :
  mbnd (mbnd m k1) k2 h = mbnd m (fun x => mbnd (k1 x) k2) h.
Proof. unfold mbnd. destruct (m h) as [[a h']|e]; reflexivity. Qed.

Lemma lookup_tail0 (h : heap) (x : obj) (t : heap) :
  (h ++ x :: t) !! length h = Some x.
Proof. now apply list_lookup_middle. Qed.

Lemma lookup_tail1 (h : heap) (x y : obj) (t : heap) :
  (h ++ x :: y :: t) !! S (length h) = Some y.
Proof.
  rewrite lookup_app_r by lia.
  now replace (S (length h) - length h)%nat with 1%nat by lia.
Qed.

Section AppendRun.
Variables (H : heap) (c lc b : loc) (cb : cls) (rb : loc).
Variables (oa na ob nb : Z) (da db : list Z).
Hypothesis Hc : H !! c = Some (Mem ByteArray lc oa na).
Hypothesis Hlc : H !! lc = Some (Bytes da).
Hypothesis Hb : H !! b = Some (Mem cb rb ob nb).
Hypothesis Hrb : H !! rb = Some (Bytes db).
Hypothesis Hda : bytes_ok da.
Hypothesis Hdb : bytes_ok db.
Hypothesis Hoa : 0 <= oa.
Hypothesis Hna : 0 <= na.
Hypothesis Hob : 0 <= ob < 8.
Hypothesis Hnb : 1 <= nb.
Hypothesis Hcov : ob + nb <= 8 * len db.
Hypothesis Htight : len da = (oa + na + 7) / 8.

Lemma appendarray_run :
  exists d',
    appendarray c b H
    = Ok (tt, <[c := Mem ByteArray lc oa (na + nb)]>
                (<[lc := Bytes (append_bytes da d' ((oa + na) mod 8))]>
                   (H ++ [Bytes d'; Mem ByteArray (length H) ((oa + na) mod 8) nb])))
    /\ bytes_ok d' /\ len d' = ((oa + na) mod 8 + nb + 7) / 8
    /\ forall i, 0 <= i < nb -> bit_at d' ((oa + na) mod 8 + i) = bit_at db (ob + i).
Proof.
  set (k := (oa + na) mod 8).
  assert (0 <= k < 8) as Hk by apply mod8_range.
  destruct (offsetcopy_mem H b cb rb ob nb db Hb Hrb Hdb Hob Hnb Hcov k Hk)
    as (d' & Hoc & Hd' & Hlen' & Hbits).
  exists d'. split; [|auto].
  assert (c < length H /\ lc < length H)%nat as [Lc Llc]
    by (split; eapply lookup_lt_Some; eauto).
  assert (c <> lc) as Hne by congruence.
  unfold appendarray. rewrite Hc.
  unfold mbnd at 1. unfold rd at 1. unfold get_bitlength at 1. rewrite Hb.
  destruct (Z.eqb_spec nb 0); [lia|].
  unfold mbnd at 1. unfold rd at 1. unfold get_ByteArray at 1. rewrite Hc.
  unfold mbnd at 1. fold k. rewrite Hoc.
  set (H' := H ++ [Bytes d'; Mem ByteArray (length H) k nb]).
  assert (H' !! S (length H) = Some (Mem ByteArray (length H) k nb)) as Harr
    by apply lookup_tail1.
  assert (H' !! length H = Some (Bytes d')) as Hraw by apply lookup_tail0.
  assert (H' !! lc = Some (Bytes da)) as Hlc'
    by (unfold H'; now rewrite lookup_app_l).
  assert (H' !! c = Some (Mem ByteArray lc oa na)) as Hc'
    by (unfold H'; now rewrite lookup_app_l).
  assert (1 <= len d') as Hd'1.
  { rewrite Hlen'. clear - Hk Hnb. Z.div_mod_to_equations. lia. }
  erewrite mbnd_rd by (unfold get_offset; rewrite Harr; reflexivity).
  erewrite mbnd_rd by (unfold get_rawarray; rewrite Harr; reflexivity).
  destruct (Z.eqb_spec k 0) as [Hk0|Hk0]; cbn [negb]; rewrite mbnd_mbnd.
  - erewrite mbnd_rd by (unfold get_bytes; rewrite Hraw; reflexivity).
    rewrite mbnd_mbnd.
    erewrite mbnd_rd by (unfold get_bytes; rewrite Hlc'; reflexivity).
    unfold set_bytes. rewrite mbnd_store.
    erewrite mbnd_rd
      by (unfold get_bitlength; rewrite list_lookup_insert_ne by lia;
          rewrite Harr; reflexivity).
    erewrite mbnd_rd
      by (unfold get_ByteArray; rewrite list_lookup_insert_ne by congruence;
          rewrite Hc'; reflexivity).
    cbv beta iota. unfold store, append_bytes. rewrite Hk0. reflexivity.
  - assert (1 <= len da) as Hda1.
    { rewrite Htight. fold k in Hk0. clear - Hoa Hna Hk0. subst k.
      Z.div_mod_to_equations. lia. }
    erewrite mbnd_rd by (unfold get_bytes; rewrite Hlc'; reflexivity).
    rewrite mbnd_mbnd.
    erewrite mbnd_rd by (apply py_pop_ok; assumption).
    cbv beta iota. unfold set_bytes. rewrite mbnd_mbnd, mbnd_store.
    rewrite mbnd_mbnd.
    erewrite mbnd_rd.
    2:{ unfold getbyte. rewrite list_lookup_insert_ne by lia. rewrite Harr.
        unfold get_bytes. rewrite list_lookup_insert_ne by lia. rewrite Hraw.
        cbn [rbind]. replace (0 + k / 8) with 0 by (clear - Hk; Z.div_mod_to_equations; lia).
        apply py_index_ok. lia. }
    rewrite mbnd_mbnd.
    erewrite mbnd_rd.
    2:{ unfold get_bytes. rewrite list_lookup_insert_eq by (unfold H'; len_solve).
        cbn [rbind]. apply py_append_ok. apply join_mask_byte; try lia;
          apply byte_at_range; assumption. }
    rewrite mbnd_mbnd, mbnd_store. rewrite mbnd_mbnd.
    erewrite mbnd_rd
      by (unfold get_bytes; rewrite !list_lookup_insert_ne by lia;
          rewrite Hraw; reflexivity).
    rewrite mbnd_mbnd.
    erewrite mbnd_rd
      by (unfold get_bytes; rewrite list_lookup_insert_eq
            by (rewrite length_insert; unfold H'; len_solve); reflexivity).
    rewrite mbnd_store.
    erewrite mbnd_rd
      by (unfold get_bitlength; rewrite !list_lookup_insert_ne by lia;
          rewrite Harr; reflexivity).
    erewrite mbnd_rd
      by (unfold get_ByteArray; rewrite !list_lookup_insert_ne by congruence;
          rewrite Hc'; reflexivity).
    cbv beta iota. unfold store, append_bytes.
    destruct (Z.eqb_spec k 0); [lia|].
    rewrite !list_insert_insert_eq, py_slice_tail by assumption. reflexivity.
Qed.
End AppendRun.

Lemma copy_mem_run (h : heap) (a : loc) ca ra oa na (da : list Z) :
  h !! a = Some (Mem ca ra oa na) -> h !! ra = Some (Bytes da) ->
  copy a h = Ok (S (length h), h ++ [Bytes da; Mem ByteArray (length h) oa na]).
Proof.
  intros Ha Hra. unfold copy. rewrite Ha.
  erewrite mbnd_rd by (unfold get_bytes; rewrite Hra; reflexivity).
  unfold mbnd, alloc. apply new_buffer_run.
Qed.

Lemma mem_buffer_alloc (h t : heap) (l : loc) (d : list Z) (o n : Z) :
  mem_buffer h l d o n -> mem_buffer (h ++ t) l d o n.
Proof.
  intros ((c & r & Hl & Hr) & H). split; [|exact H].
  exists c, r. split; (rewrite lookup_app_l; [assumption|eapply lookup_lt_Some; eauto]).
Qed.

Lemma compare_slices_run (h : heap) (c lc : loc) (oc : Z) (new : list Z)
      (a b : loc) (da db : list Z) (oa na ob nb : Z) :
  h !! c = Some (Mem ByteArray lc oc (na + nb)) ->
  h !! lc = Some (Bytes new) ->
  bytes_ok new -> 0 <= oc ->
  na + nb = 0 \/ oc + na + nb <= 8 * len new ->
  mem_buffer h a da oa na -> mem_buffer h b db ob nb ->
  seg_same new oc da oa na ->
  seg_same new (oc + na) db ob nb ->
  exists h', compare_slices c a b h = Ok ((na + nb, true, true), h').
Proof.
  intros Hc Hlc Hnew Hoc Hcov Ha Hb Hsa Hsb.
  pose proof Ha as ((ca & ra & Hla & Hra) & Hda & Hoa & Hna & Hca).
  pose proof Hb as ((cb & rb & Hlb & Hrb) & Hdb & Hob & Hnb & Hcb).
  unfold compare_slices.
  erewrite mbnd_rd by (unfold get_bitlength; rewrite Hc; reflexivity).
  erewrite mbnd_rd by (unfold get_bitlength; rewrite Hla; reflexivity).
  erewrite mbnd_rd by (unfold get_bitlength; rewrite Hlb; reflexivity).
  unfold mbnd at 1. rewrite (slice_mem_run _ _ _ _ _ _ _ _ _ Hc Hlc).
  set (h3 := h ++ [Mem ByteArray lc (oc + 0) na]).
  assert (mem_buffer h3 (length h) new (oc + 0) na) as Hs1.
  { split; [|repeat split; try assumption; lia].
    exists ByteArray, lc. split; [apply lookup_tail0|].
    unfold h3. rewrite lookup_app_l; [assumption|eapply lookup_lt_Some; eauto]. }
  destruct (equal_mem h3 (length h) a new da (oc + 0) na oa na Hs1
                      (mem_buffer_alloc _ _ _ _ _ _ Ha)) as (r1 & Hr1 & Hiff1).
  assert (r1 = true) as ->.
  { apply Hiff1. split; [reflexivity|]. now rewrite Z.add_0_r. }
  erewrite mbnd_rd by exact Hr1.
  assert (h3 !! c = Some (Mem ByteArray lc oc (na + nb))) as Hc3
    by (unfold h3; rewrite lookup_app_l; [assumption|eapply lookup_lt_Some; eauto]).
  assert (h3 !! lc = Some (Bytes new)) as Hlc3
    by (unfold h3; rewrite lookup_app_l; [assumption|eapply lookup_lt_Some; eauto]).
  unfold mbnd at 1. rewrite (slice_mem_run _ _ _ _ _ _ _ _ _ Hc3 Hlc3).
  set (h4 := h3 ++ [Mem ByteArray lc (oc + na) nb]).
  assert (mem_buffer h4 (length h3) new (oc + na) nb) as Hs2.
  { split; [|repeat split; try assumption; lia].
    exists ByteArray, lc. split; [apply lookup_tail0|].
    unfold h4. rewrite lookup_app_l; [assumption|eapply lookup_lt_Some; eauto]. }
  destruct (equal_mem h4 (length h3) b new db (oc + na) nb ob nb Hs2
                      (mem_buffer_alloc _ _ _ _ _ _ (mem_buffer_alloc _ _ _ _ _ _ Hb)))
    as (r2 & Hr2 & Hiff2).
  assert (r2 = true) as -> by (apply Hiff2; auto).
  erewrite mbnd_rd by exact Hr2.
  eexists. reflexivity.
Qed.

Lemma mem_buffer_frame (h h2 : heap) (l : loc) (d : list Z) (o n : Z) :
  mem_buffer h l d o n ->
  (forall x, (x < length h)%nat -> h2 !! x = h !! x) ->
  mem_buffer h2 l d o n.
Proof.
  intros ((c & r & Hl & Hr) & H) Hf. split; [|exact H].
  exists c, r. split; (rewrite Hf; [assumption|eapply lookup_lt_Some; eauto]).
Qed.

Lemma append_scenario_tight (h : heap) (a b : loc) (da db : list Z) (oa na ob nb : Z) :
  mem_buffer h a da oa na -> mem_buffer h b db ob nb ->
  oa < 8 -> ob < 8 ->
  len da = (oa + na + 7) / 8 ->
  exists h', append_scenario a b h = Ok ((na + nb, true, true), h').
Proof.
  intros Ha Hb Hoa8 Hob8 Htight.
  pose proof Ha as ((ca & ra & Hla & Hra) & Hda & Hoa & Hna & Hca).
  pose proof Hb as ((cb & rb & Hlb & Hrb) & Hdb & Hob & Hnb & Hcb).
  unfold append_scenario. unfold mbnd at 1.
  rewrite (copy_mem_run _ _ _ _ _ _ _ Hla Hra).
  set (L := length h). set (h1 := h ++ [Bytes da; Mem ByteArray L oa na]).
  assert (h1 !! S L = Some (Mem ByteArray L oa na)) as Hc1 by apply lookup_tail1.
  assert (h1 !! L = Some (Bytes da)) as Hlc1 by apply lookup_tail0.
  assert (forall x, (x < length h)%nat -> h1 !! x = h !! x) as Hold1
    by (intros x Hx; unfold h1; now rewrite lookup_app_l).
  destruct (Z.eq_dec nb 0) as [->|Hnb0].
  - (* nothing to append *)
    assert (appendarray (S L) b h1 = Ok (tt, h1)) as Hrun.
    { unfold appendarray. rewrite Hc1.
      erewrite mbnd_rd
        by (unfold get_bitlength; rewrite Hold1, Hlb;
            [reflexivity|eapply lookup_lt_Some; eauto]).
      reflexivity. }
    unfold mbnd at 1. rewrite Hrun.
    eapply compare_slices_run with (lc := L) (oc := oa) (new := da);
      try eassumption.
    + now rewrite Z.add_0_r.
    + destruct Hca; [left|right]; lia.
    + eapply mem_buffer_frame; eauto.
    + eapply mem_buffer_frame; eauto.
    + apply seg_same_refl.
    + intros i Hi. lia.
  - destruct Hcb as [?|Hcb]; [lia|].
    destruct (appendarray_run h1 (S L) L b cb rb oa na ob nb da db) as
      (d' & Hrun & Hd' & Hlen' & Hbits); auto; try lia.
    { rewrite Hold1; [assumption|eapply lookup_lt_Some; eauto]. }
    { rewrite Hold1; [assumption|eapply lookup_lt_Some; eauto]. }
    unfold mbnd at 1. rewrite Hrun.
    set (k := (oa + na) mod 8) in *.
    set (new := append_bytes da d' k) in *.
    set (h2 := <[S L := Mem ByteArray L oa (na + nb)]> (<[L := Bytes new]> (h1 ++ [Bytes d'; Mem ByteArray (length h1) k nb]))).
    assert (length h1 = S (S L)) as Lh1 by (unfold h1, L; len_solve).
    assert (forall x, (x < length h)%nat -> h2 !! x = h !! x) as Hold2.
    { intros x Hx. unfold h2. fold L in Hx.
      rewrite !list_lookup_insert_ne by lia.
      rewrite lookup_app_l by lia. apply Hold1. assumption. }
    eapply compare_slices_run with (lc := L) (oc := oa) (new := new);
      try eassumption.
    + unfold h2. apply list_lookup_insert_eq.
      rewrite length_insert, length_app. simpl. lia.
    + unfold h2. rewrite list_lookup_insert_ne by lia.
      apply list_lookup_insert_eq. rewrite length_app. simpl. lia.
    + apply (append_bytes_ok da d' (oa + na) nb k); auto; lia.
    + right.
      apply (append_bytes_len da d' (oa + na) nb k); auto; lia.
    + eapply mem_buffer_frame; eauto.
    + eapply mem_buffer_frame; eauto.
    + intros i Hi.
      apply (append_bytes_old da d' (oa + na) nb k); auto; lia.
    + intros i Hi. rewrite <- Hbits by assumption.
      apply (append_bytes_new da d' (oa + na) nb k); auto; lia.
Qed.

Ltac concrete_buffer :=
  split;
  [ do 2 eexists; split; reflexivity
  | split; [repeat constructor; lia | unfold len; simpl; lia] ].

(** The append property does not hold for every pair of in-memory buffers:
    when the storage of [a] extends past its last addressed byte the copy
    keeps the trailing byte and the appended bytes land after it. *)
Lemma append_fails_with_trailing_storage :
  ~ (forall (h : heap) (a b : loc) (da db : list Z) (oa na ob nb : Z),
        mem_buffer h a da oa na -> mem_buffer h b db ob nb ->
        oa < 8 -> ob < 8 ->
        exists h', append_scenario a b h = Ok ((na + nb, true, true), h')).
Proof.
  intros Hall.
  destruct (Hall [Bytes [255; 0]; Mem ByteArray 0%nat 0 8;
                  Bytes [255]; Mem ByteArray 2%nat 0 8]
                 1%nat 3%nat [255; 0] [255] 0 8 0 8) as (h' & Hrun);
    try lia; try concrete_buffer.
  vm_compute in Hrun. discriminate.
Qed.

(** Where the storage of [a] ends with the byte that holds its last bit,
    [appendarray] does join: for in-memory buffers [a] and [b] with offsets
    in [0,8) whose storage covers their bits, after [c = copy(a)] and
    [appendarray(c, b)], [c.bitlength] is [a.bitlength + b.bitlength],
    [slice(c, a.bitlength, 0)] is equal to [a] and
    [slice(c, b.bitlength, a.bitlength)] is equal to [b].  Appending offset
    6, bitlength 2, bits 10 to offset 0, bitlength 6, bits 110011 leaves the
    single byte 11001110 at offset 0 with bitlength 8. *)
Theorem append_then_slices_equal :
  (forall (h : heap) (a b : loc) (da db : list Z) (oa na ob nb : Z),
      mem_buffer h a da oa na -> mem_buffer h b db ob nb ->
      oa < 8 -> ob < 8 ->
      len da = (oa + na + 7) / 8 ->
      exists h', append_scenario a b h = Ok ((na + nb, true, true), h'))
  /\ (let h := [Bytes [204]; Mem ByteArray 0%nat 0 6;
                Bytes [2]; Mem ByteArray 2%nat 6 2] in
      exists h', (c <~ copy 1%nat ;; _ <~ appendarray c 3%nat ;; ret c) h
                 = Ok (5%nat, h')
                 /\ h' !! 5%nat = Some (Mem ByteArray 4%nat 0 8)
                 /\ h' !! 4%nat = Some (Bytes [206])).
Proof.
  split; [exact append_scenario_tight|].
  eexists. split; [vm_compute; reflexivity|]. split; reflexivity.
Qed.

Lemma append_then_slices_equal_witness :
  exists h', append_scenario 1%nat 3%nat
               [Bytes [171; 192]; Mem ConstByteArray 0%nat 3 7;
                Bytes [0; 94; 5]; Mem ByteArray 2%nat 5 13]
             = Ok ((20, true, true), h').
Proof.
  apply (proj1 append_then_slices_equal
           [Bytes [171; 192]; Mem ConstByteArray 0%nat 3 7;
            Bytes [0; 94; 5]; Mem ByteArray 2%nat 5 13]
           1%nat 3%nat [171; 192] [0; 94; 5] 3 7 5 13);
    try lia; try concrete_buffer.
  reflexivity.
Defined.

(** ** The bytes after [prependarray] *)

Lemma py_slice_mid (d : list Z) (s e : Z) :
  0 <= s <= len d -> 0 <= e <= len d ->
  py_slice d s e = take (Z.to_nat (e - s)) (drop (Z.to_nat s) d).
Proof.
  intros Hs He. unfold py_slice, slice_bound.
  destruct (Z.ltb_spec s 0); [lia|]. destruct (Z.ltb_spec e 0); [lia|].
  rewrite !Z.min_l by lia. reflexivity.
Qed.

Lemma len_py_slice (d : list Z) (s e : Z) :
  0 <= s <= len d -> 0 <= e <= len d -> len (py_slice d s e) = Z.max 0 (e - s).
Proof.
  intros Hs He. rewrite py_slice_mid by assumption.
  unfold len in *. rewrite length_take, length_drop. lia.
Qed.

Lemma byte_at_py_slice (d : list Z) (s e j : Z) :
  0 <= s <= len d -> 0 <= e <= len d -> 0 <= j < e - s ->
  byte_at (py_slice d s e) j = byte_at d (s + j).
Proof.
  intros Hs He Hj. rewrite py_slice_mid by assumption.
  rewrite byte_at_take by lia. apply byte_at_drop; lia.
Qed.

Lemma bytes_ok_py_slice (d : list Z) (s e : Z) : bytes_ok d -> bytes_ok (py_slice d s e).
Proof. intros H. unfold py_slice, bytes_ok. now apply Forall_take, Forall_drop. Qed.

Lemma byte_at_insert_eq (d : list Z) (j v : Z) :
  0 <= j < len d -> byte_at (<[Z.to_nat j := v]> d) j = v.
Proof.
  intros Hj. unfold byte_at. rewrite list_lookup_insert_eq; [reflexivity|].
  unfold len in Hj. lia.
Qed.

Lemma byte_at_insert_ne (d : list Z) (i j v : Z) :
  0 <= i -> 0 <= j -> i <> j -> byte_at (<[Z.to_nat i := v]> d) j = byte_at d j.
Proof.
  intros Hi Hj Hne. unfold byte_at. rewrite list_lookup_insert_ne; [reflexivity|lia].
Qed.

Lemma len_insert (d : list Z) (i : nat) (v : Z) : len (<[i := v]> d) = len d.
Proof. unfold len. now rewrite length_insert. Qed.

Section PrependBytes.
Variables (d' db : list Z) (k na ob nb : Z).
Hypothesis Hd' : bytes_ok d'.
Hypothesis Hdb : bytes_ok db.
Hypothesis Hk : 0 <= k < 8.
Hypothesis Hna : 1 <= na.
Hypothesis Hob : 0 <= ob < 8.
Hypothesis Hnb : 0 <= nb.
Hypothesis Hjoin : (k + na) mod 8 = ob.
Hypothesis Hlen' : len d' = (k + na + 7) / 8.
Hypothesis Hcov : ob + nb <= 8 * len db.

Let blb := mem_bytelength ob nb.

Local Lemma blb_cases :
  (nb = 0 /\ blb = 0) \/ (1 <= nb /\ blb = (ob + nb - 1) / 8 + 1).
Proof.
  destruct (Z.eq_dec nb 0) as [->|Hne]; [left; auto|right].
  split; [lia|]. unfold blb. rewrite mem_bytelength_pos by lia.
  replace (ob / 8) with 0 by (clear - Hob; Z.div_mod_to_equations; lia). lia.
Qed.

Local Lemma blb_range :
  0 <= blb <= len db /\ (1 <= nb -> ob + nb <= 8 * blb /\ 1 <= blb).
Proof.
  pose proof (len_nonneg db).
  destruct blb_cases as [[E1 E2]|[E1 E2]]; rewrite E2.
  - split; lia.
  - clear - Hob E1 Hcov. Z.div_mod_to_equations. lia.
Qed.

Local Lemma prepend_shape :
  1 <= len d' /\ ((ob = 0 /\ k + na = 8 * len d')
                  \/ (1 <= ob /\ k + na = 8 * (len d' - 1) + ob)).
Proof.
  rewrite Hlen'. clear - Hk Hna Hob Hjoin. Z.div_mod_to_equations. lia.
Qed.

Lemma prepend_bytes_ok : bytes_ok (prepend_bytes d' db ob blb).
Proof.
  unfold prepend_bytes, bytes_ok. destruct (ob =? 0).
  - apply Forall_app. split; [assumption|now apply bytes_ok_py_slice].
  - apply Forall_app. split; [|now apply bytes_ok_py_slice].
    apply Forall_insert; [assumption|].
    apply join_mask_byte; try (apply byte_at_range; assumption). lia.
Qed.

Lemma prepend_bytes_len :
  k + na + nb <= 8 * len (prepend_bytes d' db ob blb).
Proof.
  pose proof blb_range as [Hb1 Hb2]. pose proof prepend_shape as [Hm Hs].
  pose proof (len_nonneg db) as Hdbn.
  unfold prepend_bytes.
  destruct Hs as [[E1 E2]|[E1 E2]].
  - destruct (Z.eqb_spec ob 0); [|lia]. rewrite len_app, len_py_slice by lia.
    destruct blb_cases as [[F1 F2]|[F1 F2]]; [lia|]. specialize (Hb2 F1). lia.
  - destruct (Z.eqb_spec ob 0); [lia|].
    rewrite len_app, len_insert.
    destruct blb_cases as [[F1 F2]|[F1 F2]].
    + assert (0 <= len (py_slice db 1 blb)) by apply len_nonneg. lia.
    + specialize (Hb2 F1). rewrite len_py_slice by lia. lia.
Qed.

Lemma prepend_bytes_old (i : Z) :
  0 <= i < na -> bit_at (prepend_bytes d' db ob blb) (k + i) = bit_at d' (k + i).
Proof.
  intros Hi. pose proof prepend_shape as [Hm Hs].
  set (j := (k + i) / 8). set (t := (k + i) mod 8).
  assert (k + i = 8 * j + t /\ 0 <= t < 8 /\ 0 <= j) as (Ep & Ht & Hj)
    by (unfold j, t; clear - Hi Hk; Z.div_mod_to_equations; lia).
  clearbody j t. rewrite Ep, !bit_at_byte by assumption.
  unfold prepend_bytes.
  destruct Hs as [[E1 E2]|[E1 E2]].
  - destruct (Z.eqb_spec ob 0); [|lia]. rewrite byte_at_app_l by lia. reflexivity.
  - destruct (Z.eqb_spec ob 0); [lia|].
    rewrite byte_at_app_l by (rewrite len_insert; lia).
    destruct (Z.eq_dec j (len d' - 1)) as [->|Hne].
    + rewrite byte_at_insert_eq, join_mask_bits by lia.
      destruct (Z.ltb_spec (7 - t) (8 - ob)); [lia|reflexivity].
    + rewrite byte_at_insert_ne by lia. reflexivity.
Qed.

Lemma prepend_bytes_new (i : Z) :
  0 <= i < nb ->
  bit_at (prepend_bytes d' db ob blb) (k + na + i) = bit_at db (ob + i).
Proof.
  intros Hi. pose proof prepend_shape as [Hm Hs].
  pose proof blb_range as [Hb1 Hb2]. specialize (Hb2 ltac:(lia)).
  set (j := (ob + i) / 8). set (t := (ob + i) mod 8).
  assert (ob + i = 8 * j + t /\ 0 <= t < 8 /\ 0 <= j) as (Ep & Ht & Hj)
    by (unfold j, t; clear - Hi Hob; Z.div_mod_to_equations; lia).
  clearbody j t. rewrite Ep, bit_at_byte by assumption.
  unfold prepend_bytes.
  destruct Hs as [[E1 E2]|[E1 E2]].
  - destruct (Z.eqb_spec ob 0); [|lia].
    replace (k + na + i) with (8 * (len d' + j) + t) by lia.
    rewrite bit_at_byte by assumption.
    rewrite byte_at_app_r by lia.
    rewrite byte_at_py_slice by lia. do 2 f_equal. lia.
  - destruct (Z.eqb_spec ob 0); [lia|].
    replace (k + na + i) with (8 * (len d' - 1 + j) + t) by lia.
    rewrite bit_at_byte by assumption.
    destruct (Z.eq_dec j 0) as [->|Hj0].
    + rewrite byte_at_app_l by (rewrite len_insert; lia).
      rewrite Z.add_0_r, byte_at_insert_eq, join_mask_bits by lia.
      destruct (Z.ltb_spec (7 - t) (8 - ob)); [reflexivity|lia].
    + rewrite byte_at_app_r by (rewrite len_insert; lia).
      rewrite len_insert, byte_at_py_slice by lia. do 2 f_equal. lia.
Qed.
End PrependBytes.

Lemma py_index_last (d : list Z) :
  1 <= len d -> py_index d (-1) = Ok (byte_at d (len d - 1)).
Proof.
  intros Hl. unfold py_index, byte_at. simpl.
  destruct (Z.leb_spec 0 (-1 + len d)); [|lia].
  destruct (Z.ltb_spec (-1 + len d) (len d)); [|lia]. simpl.
  replace (-1 + len d) with (len d - 1) by lia.
  destruct (d !! Z.to_nat (len d - 1)) eqn:E; [reflexivity|].
  apply lookup_ge_None in E. unfold len in *. lia.
Qed.

Lemma py_setitem_last (d : list Z) (v : Z) :
  1 <= len d -> 0 <= v < 256 ->
  py_setitem d (-1) v = Ok (<[Z.to_nat (len d - 1) := v]> d).
Proof.
  intros Hl Hv. unfold py_setitem. simpl.
  destruct (Z.leb_spec 0 (-1 + len d)); [|lia].
  destruct (Z.ltb_spec (-1 + len d) (len d)); [|lia]. simpl.
  rewrite is_byte_true by assumption.
  now replace (-1 + len d) with (len d - 1) by lia.
Qed.

Section PrependRun.
Variables (H : heap) (c lc a : loc) (ca : cls) (ra : loc).
Variables (oa na ob nb : Z) (da db : list Z).
Hypothesis Hc : H !! c = Some (Mem ByteArray lc ob nb).
Hypothesis Hlc : H !! lc = Some (Bytes db).
Hypothesis Ha : H !! a = Some (Mem ca ra oa na).
Hypothesis Hra : H !! ra = Some (Bytes da).
Hypothesis Hda : bytes_ok da.
Hypothesis Hdb : bytes_ok db.
Hypothesis Hoa : 0 <= oa < 8.
Hypothesis Hna : 1 <= na.
Hypothesis Hcova : oa + na <= 8 * len da.
Hypothesis Hob : 0 <= ob < 8.
Hypothesis Hnb : 0 <= nb.
Hypothesis Hcovb : ob + nb <= 8 * len db.

Lemma prependarray_run :
  exists d',
    prependarray c a H
    = Ok (tt, <[c := Mem ByteArray (length H) ((ob - na) mod 8) (nb + na)]>
                (<[length H :=
                     Bytes (prepend_bytes d' db ob (mem_bytelength ob nb))]>
                   (H ++ [Bytes d'; Mem ByteArray (length H) ((ob - na) mod 8) na])))
    /\ bytes_ok d' /\ len d' = ((ob - na) mod 8 + na + 7) / 8
    /\ forall i, 0 <= i < na -> bit_at d' ((ob - na) mod 8 + i) = bit_at da (oa + i).
Proof.
  set (k := (ob - na) mod 8).
  assert (0 <= k < 8) as Hk by apply mod8_range.
  destruct (offsetcopy_mem H a ca ra oa na da Ha Hra Hda Hoa Hna Hcova k Hk)
    as (d' & Hoc & Hd' & Hlen' & Hbits).
  exists d'. split; [|auto].
  assert (c < length H /\ lc < length H)%nat as [Lc Llc]
    by (split; eapply lookup_lt_Some; eauto).
  assert (c <> lc) as Hne by congruence.
  assert ((k + na) mod 8 = ob) as Hjoin
    by (unfold k; clear - Hob; Z.div_mod_to_equations; lia).
  unfold prependarray. rewrite Hc.
  erewrite mbnd_rd by (unfold get_bitlength; rewrite Ha; reflexivity).
  destruct (Z.eqb_spec na 0); [lia|].
  erewrite mbnd_rd by (unfold get_ByteArray; rewrite Hc; reflexivity).
  cbv beta iota. unfold mbnd at 1. fold k. rewrite Hoc.
  set (H' := H ++ [Bytes d'; Mem ByteArray (length H) k na]).
  assert (H' !! S (length H) = Some (Mem ByteArray (length H) k na)) as Harr
    by apply lookup_tail1.
  assert (H' !! length H = Some (Bytes d')) as Hraw by apply lookup_tail0.
  assert (H' !! lc = Some (Bytes db)) as Hlc'
    by (unfold H'; now rewrite lookup_app_l).
  assert (H' !! c = Some (Mem ByteArray lc ob nb)) as Hc'
    by (unfold H'; now rewrite lookup_app_l).
  assert (1 <= len d') as Hd'1.
  { rewrite Hlen'. clear - Hk Hna. Z.div_mod_to_equations. lia. }
  assert (k / 8 = 0) as Hk8 by (clear - Hk; Z.div_mod_to_equations; lia).
  erewrite mbnd_rd by (unfold get_offset; rewrite Harr; reflexivity).
  erewrite mbnd_rd by (unfold get_bitlength; rewrite Harr; reflexivity).
  erewrite mbnd_rd by (rewrite Hjoin, Z.eqb_refl; reflexivity).
  erewrite mbnd_rd by (unfold get_rawarray; rewrite Harr; reflexivity).
  destruct (Z.eqb_spec ob 0) as [Hob0|Hob0]; cbn [negb]; rewrite mbnd_mbnd.
  - erewrite mbnd_rd by (unfold get_bytes; rewrite Hraw; reflexivity).
    rewrite mbnd_mbnd.
    erewrite mbnd_rd by (unfold get_bytes; rewrite Hlc'; reflexivity).
    unfold set_bytes. rewrite mbnd_store.
    erewrite mbnd_rd
      by (unfold get_rawarray; rewrite list_lookup_insert_ne by lia;
          rewrite Harr; reflexivity).
    erewrite mbnd_rd
      by (unfold get_offset; rewrite list_lookup_insert_ne by lia;
          rewrite Harr; reflexivity).
    erewrite mbnd_rd
      by (unfold get_bitlength; rewrite list_lookup_insert_ne by lia;
          rewrite Harr; reflexivity).
    unfold store, prepend_bytes. destruct (Z.eqb_spec ob 0); [|lia]. reflexivity.
  - assert (1 <= len db) as Hdb1 by lia.
    erewrite mbnd_rd.
    2:{ unfold getbyte. rewrite Harr. unfold get_bytes. rewrite Hraw.
        cbn [rbind]. rewrite Hk8. apply py_index_last. assumption. }
    rewrite mbnd_mbnd.
    erewrite mbnd_rd by (unfold get_bytes; rewrite Hlc'; reflexivity).
    rewrite mbnd_mbnd.
    erewrite mbnd_rd by (apply py_index_ok; lia).
    rewrite mbnd_mbnd.
    unfold setbyte at 1. rewrite mbnd_mbnd.
    erewrite mbnd_rd by (unfold get_ByteArray; rewrite Harr; reflexivity).
    cbv beta iota. rewrite mbnd_mbnd.
    erewrite mbnd_rd by (unfold get_bytes; rewrite Hraw; reflexivity).
    rewrite mbnd_mbnd.
    erewrite mbnd_rd.
    2:{ rewrite Hk8. apply py_setitem_last; [assumption|].
        apply join_mask_byte; try lia; apply byte_at_range; assumption. }
    unfold set_bytes. rewrite mbnd_store. rewrite mbnd_mbnd.
    erewrite mbnd_rd
      by (unfold get_bytes; rewrite list_lookup_insert_eq by (unfold H'; len_solve);
          reflexivity).
    rewrite mbnd_mbnd.
    erewrite mbnd_rd
      by (unfold get_bytes; rewrite list_lookup_insert_ne by lia;
          rewrite Hlc'; reflexivity).
    rewrite mbnd_store.
    erewrite mbnd_rd
      by (unfold get_rawarray; rewrite !list_lookup_insert_ne by lia;
          rewrite Harr; reflexivity).
    erewrite mbnd_rd
      by (unfold get_offset; rewrite !list_lookup_insert_ne by lia;
          rewrite Harr; reflexivity).
    erewrite mbnd_rd
      by (unfold get_bitlength; rewrite !list_lookup_insert_ne by lia;
          rewrite Harr; reflexivity).
    unfold store, prepend_bytes. destruct (Z.eqb_spec ob 0); [lia|].
    rewrite !list_insert_insert_eq. reflexivity.
Qed.
End PrependRun.

Lemma prepend_scenario_covered (h : heap) (a b : loc) (da db : list Z) (oa na ob nb : Z) :
  mem_buffer h a da oa na -> mem_buffer h b db ob nb ->
  oa < 8 -> ob < 8 ->
  ob + nb <= 8 * len db ->
  exists h', prepend_scenario a b h = Ok ((na + nb, true, true), h').
Proof.
  intros Ha Hb Hoa8 Hob8 Hcovb.
  pose proof Ha as ((ca & ra & Hla & Hra) & Hda & Hoa & Hna & Hca).
  pose proof Hb as ((cb & rb & Hlb & Hrb) & Hdb & Hob & Hnb & Hcb).
  unfold prepend_scenario. unfold mbnd at 1.
  rewrite (copy_mem_run _ _ _ _ _ _ _ Hlb Hrb).
  set (L := length h). set (h1 := h ++ [Bytes db; Mem ByteArray L ob nb]).
  assert (h1 !! S L = Some (Mem ByteArray L ob nb)) as Hc1 by apply lookup_tail1.
  assert (h1 !! L = Some (Bytes db)) as Hlc1 by apply lookup_tail0.
  assert (forall x, (x < length h)%nat -> h1 !! x = h !! x) as Hold1
    by (intros x Hx; unfold h1; now rewrite lookup_app_l).
  destruct (Z.eq_dec na 0) as [->|Hna0].
  - (* nothing to prepend *)
    assert (prependarray (S L) a h1 = Ok (tt, h1)) as Hrun.
    { unfold prependarray. rewrite Hc1.
      erewrite mbnd_rd
        by (unfold get_bitlength; rewrite Hold1, Hla;
            [reflexivity|eapply lookup_lt_Some; eauto]).
      reflexivity. }
    unfold mbnd at 1. rewrite Hrun.
    eapply compare_slices_run with (lc := L) (oc := ob) (new := db);
      try eassumption.
    + right. lia.
    + eapply mem_buffer_frame; eauto.
    + eapply mem_buffer_frame; eauto.
    + intros i Hi. lia.
    + rewrite Z.add_0_r. apply seg_same_refl.
  - destruct Hca as [?|Hca]; [lia|].
    destruct (prependarray_run h1 (S L) L a ca ra oa na ob nb da db) as
      (d' & Hrun & Hd' & Hlen' & Hbits); auto; try lia.
    { rewrite Hold1; [assumption|eapply lookup_lt_Some; eauto]. }
    { rewrite Hold1; [assumption|eapply lookup_lt_Some; eauto]. }
    unfold mbnd at 1. rewrite Hrun.
    set (k := (ob - na) mod 8) in *.
    assert (0 <= k < 8) as Hk by apply mod8_range.
    assert ((k + na) mod 8 = ob) as Hjoin
      by (unfold k; clear - Hob Hob8; Z.div_mod_to_equations; lia).
    set (new := prepend_bytes d' db ob (mem_bytelength ob nb)) in *.
    assert (length h1 = S (S L)) as Lh1 by (unfold h1, L; len_solve).
    rewrite (Z.add_comm nb na).
    match goal with
    | |- context [compare_slices _ _ _ ?hh] => set (h2 := hh)
    end.
    assert (forall x, (x < length h)%nat -> h2 !! x = h !! x) as Hold2.
    { intros x Hx. unfold h2. fold L in Hx.
      rewrite !list_lookup_insert_ne by lia.
      rewrite lookup_app_l by lia. apply Hold1. assumption. }
    eapply compare_slices_run with (lc := length h1) (oc := k) (new := new);
      try eassumption.
    + unfold h2. apply list_lookup_insert_eq.
      rewrite length_insert, length_app. simpl. lia.
    + unfold h2. rewrite list_lookup_insert_ne by lia.
      apply list_lookup_insert_eq. rewrite length_app. simpl. lia.
    + apply prepend_bytes_ok; auto; lia.
    + lia.
    + right. apply (prepend_bytes_len d' db k na ob nb); auto; lia.
    + eapply mem_buffer_frame; eauto.
    + eapply mem_buffer_frame; eauto.
    + intros i Hi. rewrite <- Hbits by assumption.
      apply (prepend_bytes_old d' db k na ob nb); auto; lia.
    + intros i Hi.
      apply (prepend_bytes_new d' db k na ob nb); auto; lia.
Qed.

(** The statement of C3 fails for an empty [b] with a non-zero offset and
    no storage: [prependarray] reads the first byte of the receiver. *)
Lemma prepend_fails_on_empty_storage :
  ~ (forall (h : heap) (a b : loc) (da db : list Z) (oa na ob nb : Z),
        mem_buffer h a da oa na -> mem_buffer h b db ob nb ->
        oa < 8 -> ob < 8 ->
        exists h', prepend_scenario a b h = Ok ((na + nb, true, true), h')).
Proof.
  intros Hall.
  destruct (Hall [Bytes []; Mem ByteArray 0%nat 3 0;
                  Bytes [255]; Mem ByteArray 2%nat 0 8]
                 3%nat 1%nat [255] [] 0 8 3 0) as (h' & Hrun);
    try lia; try concrete_buffer.
  vm_compute in Hrun. discriminate.
Qed.

(** C3, amended.  For in-memory buffers [a] and [b] with offsets in [0,8)
    whose storage covers their bits, [b]'s storage reaching the bit at
    [b.offset + b.bitlength] (so it is not empty when [b.offset] is not 0):
    after [c = copy(b)] and [prependarray(c, a)], [c.bitlength] is
    [a.bitlength + b.bitlength], [slice(c, a.bitlength, 0)] is equal to [a]
    and [slice(c, b.bitlength, a.bitlength)] is equal to [b]. *)
Theorem prepend_then_slices_equal
        (h : heap) (a b : loc) (da db : list Z) (oa na ob nb : Z) :
  mem_buffer h a da oa na -> mem_buffer h b db ob nb ->
  oa < 8 -> ob < 8 ->
  ob + nb <= 8 * len db ->
  exists h', prepend_scenario a b h = Ok ((na + nb, true, true), h').
Proof. apply prepend_scenario_covered. Qed.

Lemma prepend_then_slices_equal_witness :
  exists h', prepend_scenario 1%nat 3%nat
               [Bytes [171; 192]; Mem ConstByteArray 0%nat 3 7;
                Bytes [0; 94; 5; 77]; Mem ByteArray 2%nat 5 13]
             = Ok ((20, true, true), h').
Proof.
  apply (prepend_then_slices_equal
           [Bytes [171; 192]; Mem ConstByteArray 0%nat 3 7;
            Bytes [0; 94; 5; 77]; Mem ByteArray 2%nat 5 13]
           1%nat 3%nat [171; 192] [0; 94; 5; 77] 3 7 5 13);
    try lia; try concrete_buffer.
  unfold len; simpl; lia.
Defined.

(** ** Buffers in memory: [equal] and the round trip of [offsetcopy] *)

Lemma getbit_mem (h : heap) (l : loc) (d : list Z) (o n i : Z) :
  mem_buffer h l d o n -> 0 <= i < n -> getbit h l i = Ok (bit_at d (o + i)).
Proof.
  intros ((c & r & Hl & Hr) & Hd & Ho & Hn & Hcov) Hi.
  destruct Hcov as [?|Hcov]; [lia|].
  unfold getbit, divmod, get_bytes. rewrite Hl, Hr.
  destruct (Z.leb_spec 0 i); [|lia]. destruct (Z.ltb_spec i n); [|lia].
  cbn [andb assert rbind].
  rewrite py_index_ok by (clear - Ho Hi Hcov; Z.div_mod_to_equations; lia).
  cbn [rbind]. rewrite mask_test by apply mod8_range. reflexivity.
Qed.

(** X20. In-memory buffers: [equal] returns, and returns [true] exactly when the
    bitlengths agree and [getbit] agrees at every position. *)
Theorem equal_mem_bitwise (h : heap) (a b : loc) (da db : list Z) (oa na ob nb : Z) :
  mem_buffer h a da oa na -> mem_buffer h b db ob nb ->
  exists r, equal h a b = Ok r
            /\ (r = true <->
                na = nb /\ forall i, 0 <= i < na -> getbit h a i = getbit h b i).
Proof.
  intros Ha Hb. destruct (equal_mem h a b da db oa na ob nb Ha Hb) as (r & Hr & Hiff).
  exists r. split; [exact Hr|]. rewrite Hiff. split.
  - intros [<- Hs]. split; [reflexivity|]. intros i Hi.
    rewrite (getbit_mem _ _ _ _ _ _ Ha Hi), (getbit_mem _ _ _ _ _ _ Hb Hi).
    f_equal. now apply Hs.
  - intros [<- Hg]. split; [reflexivity|]. intros i Hi. specialize (Hg i Hi).
    rewrite (getbit_mem _ _ _ _ _ _ Ha Hi), (getbit_mem _ _ _ _ _ _ Hb Hi) in Hg.
    congruence.
Qed.

Lemma offsetcopy_mem_empty (h : heap) (s : loc) c r o (d : list Z) (k : Z) :
  h !! s = Some (Mem c r o 0) -> h !! r = Some (Bytes d) -> 0 <= k < 8 ->
  offsetcopy s k h = Ok (S (length h), h ++ [Bytes d; Mem ByteArray (length h) o 0]).
Proof.
  intros Hs Hr Hk. unfold offsetcopy.
  erewrite mbnd_rd by (apply assert_range; assumption).
  erewrite mbnd_rd by (unfold get_bitlength; rewrite Hs; reflexivity).
  simpl. eapply copy_mem_run; eauto.
Qed.

(** X27. In-memory buffers with an offset below 8: realigning to any offset and
    back gives a buffer of the same bitlength that reads the same bits. *)
Theorem offsetcopy_roundtrip_mem (h : heap) (x : loc) (d : list Z) (o n n0 : Z) :
  mem_buffer h x d o n -> o < 8 -> 0 <= n0 < 8 ->
  exists y h1 z h2,
    offsetcopy x n0 h = Ok (y, h1)
    /\ offsetcopy y (o mod 8) h1 = Ok (z, h2)
    /\ get_bitlength h2 z = Ok n
    /\ forall i, 0 <= i < n ->
         exists bit, getbit h2 z i = Ok bit /\ getbit h x i = Ok bit.
Proof.
  intros Hx Ho8 Hn0.
  pose proof Hx as ((c & r & Hl & Hr) & Hd & Ho & Hn & Hcov).
  assert (0 <= o mod 8 < 8) as Hom by apply mod8_range.
  destruct (Z.eq_dec n 0) as [->|Hne].
  - do 4 eexists. split; [eapply offsetcopy_mem_empty; eauto|].
    split; [eapply offsetcopy_mem_empty; [apply lookup_tail1|apply lookup_tail0|auto]|].
    split; [unfold get_bitlength; rewrite lookup_tail1; reflexivity|].
    intros i Hi. lia.
  - destruct Hcov as [?|Hcov]; [lia|].
    destruct (offsetcopy_mem h x c r o n d Hl Hr Hd ltac:(lia) ltac:(lia) Hcov n0 Hn0)
      as (d1 & Hoc1 & Hd1 & Hlen1 & Hbits1).
    set (h1 := h ++ [Bytes d1; Mem ByteArray (length h) n0 n]) in *.
    assert (n0 + n <= 8 * len d1) as Hcov1
      by (rewrite Hlen1; clear; Z.div_mod_to_equations; lia).
    destruct (offsetcopy_mem h1 (S (length h)) ByteArray (length h) n0 n d1
                (lookup_tail1 _ _ _ _) (lookup_tail0 _ _ _) Hd1 Hn0 ltac:(lia) Hcov1
                (o mod 8) Hom)
      as (d2 & Hoc2 & Hd2 & Hlen2 & Hbits2).
    do 4 eexists. split; [exact Hoc1|]. split; [exact Hoc2|].
    split; [unfold get_bitlength; rewrite lookup_tail1; reflexivity|].
    intros i Hi. exists (bit_at d (o + i)). split.
    + erewrite getbit_mem with (d := d2) (o := o mod 8) (n := n); [|
        split; [do 2 eexists; split; [apply lookup_tail1|apply lookup_tail0]|
                repeat split; try assumption; try lia;
                right; rewrite Hlen2; clear; Z.div_mod_to_equations; lia] | assumption].
      rewrite Hbits2, Hbits1 by assumption. reflexivity.
    + eapply getbit_mem; eauto.
Qed.

(** C1. [equal] does not decide equality of bits once a file-backed buffer
    is involved.  Over the byte 0xF0, the in-memory buffer and the
    file-backed buffer with offset 0 and bitlength 4 read the same bits and
    [equal] raises TypeError in both orders.  Two file-backed buffers at
    byte offset 1 of files that agree on the addressed byte read the same
    eight bits and [equal] answers [false], having compared the bytes at
    index 3 of the files. *)
Theorem equal_fails_on_file_backed_buffers :
  let h := [Bytes [240]; Mem ByteArray 0%nat 0 4; FileArray [240] 1 4 0 0;
            FileArray [0; 170; 0; 0] 1 8 1 0; FileArray [0; 170; 255; 255] 1 8 1 0] in
  ((forall i, 0 <= i < 4 ->
      exists v, getbit h 1%nat i = Ok v /\ getbit h 2%nat i = Ok v)
   /\ equal h 1%nat 2%nat = Raise TypeError
   /\ equal h 2%nat 1%nat = Raise TypeError)
  /\ ((forall i, 0 <= i < 8 ->
         exists v, getbit h 3%nat i = Ok v /\ getbit h 4%nat i = Ok v)
      /\ equal h 3%nat 4%nat = Ok false).
Proof.
  intros h. split; split.
  - intros i Hi.
    assert (i = 0 \/ i = 1 \/ i = 2 \/ i = 3) as Hc by lia.
    repeat destruct Hc as [->|Hc]; subst; eexists; split; reflexivity.
  - split; reflexivity.
  - intros i Hi.
    assert (i = 0 \/ i = 1 \/ i = 2 \/ i = 3 \/ i = 4 \/ i = 5 \/ i = 6 \/ i = 7)
      as Hc by lia.
    repeat destruct Hc as [->|Hc]; subst; eexists; split; reflexivity.
  - reflexivity.
Qed.

(** C4. For a file-backed buffer at byte offset 1 the round trip through
    [offsetcopy] reads other bits than the buffer: over the file
    [0; 15; 0; 0] the buffer built with bitlength 4 and offset 12 reads 1111,
    and realigning it to offset 0 and back to offset 4 gives a buffer of
    bitlength 4 that reads 0000. *)
Theorem offsetcopy_roundtrip_fails_at_file_byteoffset :
  exists x h y h1 z h2,
    new_file [0; 15; 0; 0] (Some 4) 12 [] = Ok (x, h)
    /\ get_offset h x = Ok 4
    /\ offsetcopy x 0 h = Ok (y, h1)
    /\ offsetcopy y (4 mod 8) h1 = Ok (z, h2)
    /\ get_bitlength h2 z = Ok 4
    /\ forall i, 0 <= i < 4 -> getbit h x i = Ok true /\ getbit h2 z i = Ok false.
Proof.
  do 6 eexists. split; [vm_compute; reflexivity|]. split; [reflexivity|].
  split; [vm_compute; reflexivity|]. split; [vm_compute; reflexivity|].
  split; [reflexivity|].
  intros i Hi.
  assert (i = 0 \/ i = 1 \/ i = 2 \/ i = 3) as Hc by lia.
  repeat destruct Hc as [->|Hc]; try (split; reflexivity). subst. split; reflexivity.
Qed.

(** ** Writing one bit *)

Lemma getbit_raw (h : heap) (l : loc) c r (d : list Z) (o n q : Z) :
  h !! l = Some (Mem c r o n) -> h !! r = Some (Bytes d) ->
  0 <= q < n -> 0 <= o + q < 8 * len d ->
  getbit h l q = Ok (bit_at d (o + q)).
Proof.
  intros Hl Hr Hq Hc. unfold getbit. rewrite Hl.
  destruct (Z.leb_spec 0 q); [|lia]. destruct (Z.ltb_spec q n); [|lia].
  cbn [andb assert rbind divmod]. unfold get_bytes. rewrite Hr. cbn [rbind].
  rewrite py_index_ok by (clear - Hc; Z.div_mod_to_equations; lia).
  cbn [rbind]. rewrite mask_test by apply mod8_range.
  unfold bit_at. reflexivity.
Qed.

Lemma bit_at_insert (d : list Z) (j v k : Z) :
  0 <= j < len d -> 0 <= k ->
  bit_at (<[Z.to_nat j := v]> d) k
  = if k / 8 =? j then Z.testbit v (7 - k mod 8) else bit_at d k.
Proof.
  intros Hj Hk. unfold bit_at. destruct (Z.eqb_spec (k / 8) j) as [->|Hne].
  - now rewrite byte_at_insert_eq.
  - rewrite byte_at_insert_ne; [reflexivity|lia| |congruence].
    clear - Hk. Z.div_mod_to_equations. lia.
Qed.

Lemma bytes_ok_insert (d : list Z) (i : nat) (v : Z) :
  bytes_ok d -> 0 <= v < 256 -> bytes_ok (<[i := v]> d).
Proof.
  intros Hd Hv. unfold bytes_ok in *. rewrite Forall_lookup in *.
  intros j x Hx. destruct (decide (i = j)) as [->|Hne].
  - destruct (decide (j < length d)%nat).
    + rewrite list_lookup_insert_eq in Hx by assumption. now inversion Hx; subst.
    + rewrite list_insert_ge in Hx by lia. eauto.
  - rewrite list_lookup_insert_ne in Hx by assumption. eauto.
Qed.

Lemma update_bit_run op (h : heap) (self r : loc) (d : list Z) (o n pos : Z) :
  h !! self = Some (Mem ByteArray r o n) -> h !! r = Some (Bytes d) ->
  0 <= o -> o + n <= 8 * len d -> 0 <= pos < n ->
  0 <= op (byte_at d ((o + pos) / 8)) (2 ^ (7 - (o + pos) mod 8)) < 256 ->
  update_bit op self pos h
  = Ok (tt, <[r := Bytes (<[Z.to_nat ((o + pos) / 8) :=
                             op (byte_at d ((o + pos) / 8))
                                (2 ^ (7 - (o + pos) mod 8))]> d)]> h).
Proof.
  intros Hs Hr Ho Hc Hp Hv. unfold update_bit.
  rewrite (mbnd_rd _ _ _ (r, o, n)) by (unfold get_ByteArray; now rewrite Hs).
  cbv beta iota.
  rewrite (mbnd_rd _ _ _ tt).
  2:{ destruct (Z.leb_spec 0 pos); [|lia]. destruct (Z.ltb_spec pos n); [|lia].
      reflexivity. }
  cbn [divmod].
  rewrite (mbnd_rd _ _ _ d) by (unfold get_bytes; now rewrite Hr).
  assert (0 <= (o + pos) / 8 < len d) as Hj
    by (clear - Ho Hc Hp; Z.div_mod_to_equations; lia).
  rewrite (mbnd_rd _ _ _ (byte_at d ((o + pos) / 8))) by now apply py_index_ok.
  rewrite shiftr_128 by apply mod8_range.
  erewrite mbnd_rd.
  2:{ unfold py_setitem. destruct (Z.ltb_spec ((o + pos) / 8) 0); [lia|].
      destruct (Z.leb_spec 0 ((o + pos) / 8)); [|lia].
      destruct (Z.ltb_spec ((o + pos) / 8) (len d)); [|lia].
      cbn [andb]. rewrite is_byte_true by assumption. reflexivity. }
  reflexivity.
Qed.

Lemma update_bit_bits op (g : bool -> bool -> bool)
      (h : heap) (self r : loc) (d : list Z) (o n pos : Z) :
  (forall x t, 0 <= x < 256 -> 0 <= t < 8 -> 0 <= op x (2 ^ t)) ->
  (forall x t i, 0 <= x < 256 -> 0 <= t < 8 -> 0 <= i ->
                 Z.testbit (op x (2 ^ t)) i = g (Z.testbit x i) (i =? t)) ->
  (forall b, g b false = b) ->
  h !! self = Some (Mem ByteArray r o n) -> h !! r = Some (Bytes d) ->
  bytes_ok d -> 0 <= o -> o + n <= 8 * len d -> 0 <= pos < n ->
  exists d',
    update_bit op self pos h = Ok (tt, <[r := Bytes d']> h)
    /\ bytes_ok d' /\ len d' = len d
    /\ forall k, 0 <= k -> bit_at d' k = g (bit_at d k) (k =? o + pos).
Proof.
  intros Hnn Hbits Hg Hs Hr Hd Ho Hc Hp.
  pose proof (mod8_range (o + pos)) as Hm.
  pose proof (byte_at_range d ((o + pos) / 8) Hd) as Hx.
  assert (0 <= (o + pos) / 8 < len d) as Hj
    by (clear - Ho Hc Hp; Z.div_mod_to_equations; lia).
  assert (0 <= op (byte_at d ((o + pos) / 8)) (2 ^ (7 - (o + pos) mod 8)) < 256) as Hv.
  { split; [apply Hnn; lia|]. apply byte_of_bits; [apply Hnn; lia|].
    intros j Hj8. rewrite Hbits by lia. rewrite byte_high by (assumption || lia).
    destruct (Z.eqb_spec j (7 - (o + pos) mod 8)); [lia|]. apply Hg. }
  eexists. split; [apply update_bit_run with (n := n); eassumption|].
  split; [now apply bytes_ok_insert|]. split; [apply len_insert|].
  intros k Hk. rewrite bit_at_insert by assumption.
  destruct (Z.eqb_spec (k / 8) ((o + pos) / 8)) as [He|Hne].
  - rewrite Hbits by (lia || (pose proof (mod8_range k); lia)).
    unfold bit_at. rewrite He. f_equal.
    pose proof (mod8_range k) as Hk8.
    destruct (Z.eqb_spec (7 - k mod 8) (7 - (o + pos) mod 8)) as [E|E];
      destruct (Z.eqb_spec k (o + pos)) as [E'|E']; try reflexivity; exfalso.
    + apply E'. rewrite (Z.div_mod k 8), (Z.div_mod (o + pos) 8) by lia. lia.
    + apply E. now rewrite E'.
  - destruct (Z.eqb_spec k (o + pos)) as [E'|E']; [now subst|]. now rewrite Hg.
Qed.

Lemma lor_pow2_bits (x t i : Z) :
  0 <= t -> 0 <= i -> Z.testbit (Z.lor x (2 ^ t)) i = Z.testbit x i || (i =? t).
Proof.
  intros Ht Hi. rewrite Z.lor_spec, Z.pow2_bits_eqb by assumption.
  now rewrite (Z.eqb_sym t i).
Qed.

Lemma land_lnot_pow2_bits (x t i : Z) :
  0 <= t -> 0 <= i ->
  Z.testbit (Z.land x (Z.lnot (2 ^ t))) i = Z.testbit x i && negb (i =? t).
Proof.
  intros Ht Hi. rewrite Z.land_spec, Z.lnot_spec, Z.pow2_bits_eqb by assumption.
  now rewrite (Z.eqb_sym t i).
Qed.

Lemma lxor_pow2_bits (x t i : Z) :
  0 <= t -> 0 <= i -> Z.testbit (Z.lxor x (2 ^ t)) i = xorb (Z.testbit x i) (i =? t).
Proof.
  intros Ht Hi. rewrite Z.lxor_spec, Z.pow2_bits_eqb by assumption.
  now rewrite (Z.eqb_sym t i).
Qed.

Lemma pow2_nonneg (t : Z) : 0 <= 2 ^ t.
Proof. apply Z.pow_nonneg. lia. Qed.

(** What [getbit] answers once the storage [r] of the buffer holds [d']. *)
Lemma getbit_stored (h : heap) (l : loc) c (r : loc) (d d' : list Z) (o n q : Z) :
  h !! l = Some (Mem c r o n) -> h !! r = Some (Bytes d) ->
  0 <= q < n -> 0 <= o + q < 8 * len d' ->
  getbit (<[r := Bytes d']> h) l q = Ok (bit_at d' (o + q)).
Proof.
  intros Hl Hr Hq Hc.
  assert (l <> r) as Hne by (intros ->; congruence).
  apply getbit_raw with (c := c) (r := r) (n := n); try assumption.
  - rewrite list_lookup_insert_ne by congruence. assumption.
  - apply list_lookup_insert_eq. eapply lookup_lt_Some; eassumption.
Qed.

(** The bit mutators write one bit of the bytearray; every buffer over
    that bytearray reads the new bit. *)
Lemma update_bit_getbit op (g : bool -> bool -> bool)
      (h : heap) (self r : loc) (d : list Z) (o n pos : Z) :
  (forall x t, 0 <= x < 256 -> 0 <= t < 8 -> 0 <= op x (2 ^ t)) ->
  (forall x t i, 0 <= x < 256 -> 0 <= t < 8 -> 0 <= i ->
                 Z.testbit (op x (2 ^ t)) i = g (Z.testbit x i) (i =? t)) ->
  (forall b, g b false = b) ->
  h !! self = Some (Mem ByteArray r o n) -> h !! r = Some (Bytes d) ->
  bytes_ok d -> 0 <= o -> o + n <= 8 * len d -> 0 <= pos < n ->
  exists d',
    update_bit op self pos h = Ok (tt, <[r := Bytes d']> h)
    /\ bytes_ok d' /\ len d' = len d
    /\ forall l c o2 n2 q,
         h !! l = Some (Mem c r o2 n2) -> 0 <= q < n2 -> 0 <= o2 + q < 8 * len d ->
         exists b, getbit h l q = Ok b
                   /\ getbit (<[r := Bytes d']> h) l q = Ok (g b (o2 + q =? o + pos)).
Proof.
  intros Hnn Hbits Hg Hs Hr Hd Ho Hc Hp.
  destruct (update_bit_bits op g h self r d o n pos) as (d' & Hrun & Hd' & Hlen & Hb);
    try assumption.
  exists d'. repeat apply conj; try assumption.
  intros l c o2 n2 q Hl Hq Hcov. exists (bit_at d (o2 + q)). split.
  - eapply getbit_raw; eassumption.
  - erewrite getbit_stored; try eassumption; [|lia].
    rewrite Hb by lia. reflexivity.
Qed.

(** X1. [setbit pos] on a mutable buffer whose storage covers its bits sets bit
    [pos] and nothing else: the bytearray keeps its length, and every buffer
    over the same bytearray (the receiver, a slice of it) reads [True] at the
    position of that bit and what it read before everywhere else. *)
Theorem setbit_then_getbit (h : heap) (self r : loc) (d : list Z) (o n pos : Z) :
  h !! self = Some (Mem ByteArray r o n) -> h !! r = Some (Bytes d) ->
  bytes_ok d -> 0 <= o -> o + n <= 8 * len d -> 0 <= pos < n ->
  exists d',
    setbit self pos h = Ok (tt, <[r := Bytes d']> h)
    /\ bytes_ok d' /\ len d' = len d
    /\ forall l c o2 n2 q,
         h !! l = Some (Mem c r o2 n2) -> 0 <= q < n2 -> 0 <= o2 + q < 8 * len d ->
         exists b, getbit h l q = Ok b
                   /\ getbit (<[r := Bytes d']> h) l q = Ok (b || (o2 + q =? o + pos)).
Proof.
  apply (update_bit_getbit Z.lor orb).
  - intros x t Hx Ht. apply Z.lor_nonneg. split; [lia|apply pow2_nonneg].
  - intros x t i _ Ht Hi. apply lor_pow2_bits; lia.
  - intros b. apply orb_false_r.
Qed.

Lemma setbit_then_getbit_witness :
  exists h', setbit 1%nat 3 [Bytes [0; 129]; Mem ByteArray 0%nat 2 9] = Ok (tt, h')
             /\ getbit h' 1%nat 3 = Ok true /\ getbit h' 1%nat 4 = Ok false.
Proof.
  destruct (setbit_then_getbit [Bytes [0; 129]; Mem ByteArray 0%nat 2 9]
              1%nat 0%nat [0; 129] 2 9 3) as (d' & Hrun & _ & _ & Hget);
    try reflexivity; try lia; [repeat constructor; lia | unfold len; simpl; lia |].
  eexists. split; [exact Hrun|]. split.
  - destruct (Hget 1%nat ByteArray 2 9 3) as (b & _ & ->);
      [reflexivity|lia|unfold len; simpl; lia|]. now rewrite orb_true_r.
  - destruct (Hget 1%nat ByteArray 2 9 4) as (b & Hb & ->);
      [reflexivity|lia|unfold len; simpl; lia|].
    vm_compute in Hb. injection Hb as <-. reflexivity.
Defined.

(** X2. [unsetbit pos] clears bit [pos] and nothing else. *)
Theorem unsetbit_then_getbit (h : heap) (self r : loc) (d : list Z) (o n pos : Z) :
  h !! self = Some (Mem ByteArray r o n) -> h !! r = Some (Bytes d) ->
  bytes_ok d -> 0 <= o -> o + n <= 8 * len d -> 0 <= pos < n ->
  exists d',
    unsetbit self pos h = Ok (tt, <[r := Bytes d']> h)
    /\ bytes_ok d' /\ len d' = len d
    /\ forall l c o2 n2 q,
         h !! l = Some (Mem c r o2 n2) -> 0 <= q < n2 -> 0 <= o2 + q < 8 * len d ->
         exists b, getbit h l q = Ok b
                   /\ getbit (<[r := Bytes d']> h) l q
                      = Ok (b && negb (o2 + q =? o + pos)).
Proof.
  apply (update_bit_getbit (fun x m => Z.land x (Z.lnot m))
                           (fun b e => b && negb e)).
  - intros x t Hx Ht. apply Z.land_nonneg. left. lia.
  - intros x t i _ Ht Hi. apply land_lnot_pow2_bits; lia.
  - intros b. apply andb_true_r.
Qed.

Lemma unsetbit_then_getbit_witness :
  exists h', unsetbit 1%nat 0 [Bytes [255; 129]; Mem ByteArray 0%nat 2 9] = Ok (tt, h')
             /\ getbit h' 1%nat 0 = Ok false /\ getbit h' 1%nat 1 = Ok true.
Proof.
  destruct (unsetbit_then_getbit [Bytes [255; 129]; Mem ByteArray 0%nat 2 9]
              1%nat 0%nat [255; 129] 2 9 0) as (d' & Hrun & _ & _ & Hget);
    try reflexivity; try lia; [repeat constructor; lia | unfold len; simpl; lia |].
  eexists. split; [exact Hrun|]. split.
  - destruct (Hget 1%nat ByteArray 2 9 0) as (b & _ & ->);
      [reflexivity|lia|unfold len; simpl; lia|]. now rewrite andb_false_r.
  - destruct (Hget 1%nat ByteArray 2 9 1) as (b & Hb & ->);
      [reflexivity|lia|unfold len; simpl; lia|].
    vm_compute in Hb. injection Hb as <-. reflexivity.
Defined.

(** X3. [invertbit pos] flips bit [pos] and nothing else. *)
Theorem invertbit_then_getbit (h : heap) (self r : loc) (d : list Z) (o n pos : Z) :
  h !! self = Some (Mem ByteArray r o n) -> h !! r = Some (Bytes d) ->
  bytes_ok d -> 0 <= o -> o + n <= 8 * len d -> 0 <= pos < n ->
  exists d',
    invertbit self pos h = Ok (tt, <[r := Bytes d']> h)
    /\ bytes_ok d' /\ len d' = len d
    /\ forall l c o2 n2 q,
         h !! l = Some (Mem c r o2 n2) -> 0 <= q < n2 -> 0 <= o2 + q < 8 * len d ->
         exists b, getbit h l q = Ok b
                   /\ getbit (<[r := Bytes d']> h) l q
                      = Ok (xorb b (o2 + q =? o + pos)).
Proof.
  apply (update_bit_getbit Z.lxor xorb).
  - intros x t Hx Ht. apply Z.lxor_nonneg. split; intros _; [apply pow2_nonneg|lia].
  - intros x t i _ Ht Hi. apply lxor_pow2_bits; lia.
  - intros b. apply xorb_false_r.
Qed.

Lemma invertbit_then_getbit_witness :
  exists h', invertbit 1%nat 0 [Bytes [255; 129]; Mem ByteArray 0%nat 2 9] = Ok (tt, h')
             /\ getbit h' 1%nat 0 = Ok false /\ getbit h' 1%nat 1 = Ok true.
Proof.
  destruct (invertbit_then_getbit [Bytes [255; 129]; Mem ByteArray 0%nat 2 9]
              1%nat 0%nat [255; 129] 2 9 0) as (d' & Hrun & _ & _ & Hget);
    try reflexivity; try lia; [repeat constructor; lia | unfold len; simpl; lia |].
  eexists. split; [exact Hrun|]. split.
  - destruct (Hget 1%nat ByteArray 2 9 0) as (b & Hb & ->);
      [reflexivity|lia|unfold len; simpl; lia|].
    vm_compute in Hb. injection Hb as <-. reflexivity.
  - destruct (Hget 1%nat ByteArray 2 9 1) as (b & Hb & ->);
      [reflexivity|lia|unfold len; simpl; lia|].
    vm_compute in Hb. injection Hb as <-. reflexivity.
Defined.

(** X4. Inverting the same bit twice gives back the heap as it was. *)
Theorem invertbit_twice (h : heap) (self r : loc) (d : list Z) (o n pos : Z) :
  h !! self = Some (Mem ByteArray r o n) -> h !! r = Some (Bytes d) ->
  bytes_ok d -> 0 <= o -> o + n <= 8 * len d -> 0 <= pos < n ->
  (_ <~ invertbit self pos ;; invertbit self pos) h = Ok (tt, h).
Proof.
  intros Hs Hr Hd Ho Hc Hp.
  pose proof (mod8_range (o + pos)) as Hm.
  pose proof (byte_at_range d ((o + pos) / 8) Hd) as Hx.
  assert (0 <= (o + pos) / 8 < len d) as Hj
    by (clear - Ho Hc Hp; Z.div_mod_to_equations; lia).
  assert (self <> r) as Hne by (intros ->; congruence).
  assert (0 <= Z.lxor (byte_at d ((o + pos) / 8)) (2 ^ (7 - (o + pos) mod 8)) < 256)
    as Hv.
  { split.
    - apply Z.lxor_nonneg. split; intros _; [apply pow2_nonneg|lia].
    - apply byte_of_bits.
      + apply Z.lxor_nonneg. split; intros _; [apply pow2_nonneg|lia].
      + intros j Hj8. rewrite lxor_pow2_bits, byte_high by (assumption || lia).
        now destruct (Z.eqb_spec j (7 - (o + pos) mod 8)); [lia|]. }
  unfold mbnd, invertbit.
  rewrite (update_bit_run Z.lxor h self r d o n pos) by assumption.
  set (d1 := <[_ := _]> d).
  rewrite (update_bit_run Z.lxor _ self r d1 o n pos).
  - f_equal. f_equal. rewrite list_insert_insert_eq. unfold d1.
    rewrite byte_at_insert_eq by assumption.
    rewrite Z.lxor_assoc, Z.lxor_nilpotent, Z.lxor_0_r.
    rewrite list_insert_insert_eq.
    assert (d !! Z.to_nat ((o + pos) / 8) = Some (byte_at d ((o + pos) / 8))) as Hlk.
    { unfold byte_at. destruct (d !! Z.to_nat ((o + pos) / 8)) eqn:E; [reflexivity|].
      apply lookup_ge_None in E. unfold len in Hj. lia. }
    rewrite (list_insert_id _ _ _ Hlk). now apply list_insert_id.
  - now rewrite list_lookup_insert_ne by congruence.
  - apply list_lookup_insert_eq. eapply lookup_lt_Some; eassumption.
  - assumption.
  - unfold d1. rewrite len_insert. assumption.
  - assumption.
  - unfold d1. rewrite byte_at_insert_eq by assumption.
    rewrite Z.lxor_assoc, Z.lxor_nilpotent, Z.lxor_0_r. assumption.
Qed.

Lemma invertbit_twice_witness :
  (_ <~ invertbit 1%nat 5 ;; invertbit 1%nat 5)
    [Bytes [77; 129]; Mem ByteArray 0%nat 2 9]
  = Ok (tt, [Bytes [77; 129]; Mem ByteArray 0%nat 2 9]).
Proof.
  apply (invertbit_twice [Bytes [77; 129]; Mem ByteArray 0%nat 2 9]
           1%nat 0%nat [77; 129] 2 9 5);
    try reflexivity; try lia; [repeat constructor; lia | unfold len; simpl; lia].
Defined.

(** ** Writing bytes *)

Lemma py_setitem_inv (d : list Z) (i v : Z) (d' : list Z) :
  py_setitem d i v = Ok d' ->
  let j := if i <? 0 then i + len d else i in
  0 <= j < len d /\ 0 <= v < 256 /\ d' = <[Z.to_nat j := v]> d.
Proof.
  unfold py_setitem. cbv zeta. intros H.
  destruct (Z.leb_spec 0 (if i <? 0 then i + len d else i)); [|discriminate].
  destruct (Z.ltb_spec (if i <? 0 then i + len d else i) (len d)); [|discriminate].
  cbn [andb] in H. unfold is_byte in H.
  destruct (Z.leb_spec 0 v); [|discriminate].
  destruct (Z.ltb_spec v 256); [|discriminate].
  cbn [andb] in H. injection H as <-. repeat split; lia.
Qed.

Lemma py_index_norm (d : list Z) (i : Z) :
  let j := if i <? 0 then i + len d else i in
  py_index d i = if (0 <=? j) && (j <? len d) then Ok (byte_at d j) else Raise IndexError.
Proof.
  unfold py_index. cbv zeta.
  destruct (Z.leb_spec 0 (if i <? 0 then i + len d else i)); [|reflexivity].
  destruct (Z.ltb_spec (if i <? 0 then i + len d else i) (len d)); [|reflexivity].
  cbn [andb]. unfold byte_at.
  destruct (d !! Z.to_nat _) eqn:E; [reflexivity|].
  apply lookup_ge_None in E. unfold len in *. lia.
Qed.

Lemma getbyte_stored (h : heap) (self : loc) c (r : loc) (o n : Z) (d d' : list Z) (q : Z) :
  h !! self = Some (Mem c r o n) -> h !! r = Some (Bytes d) ->
  getbyte (<[r := Bytes d']> h) self q = py_index d' (q + o / 8).
Proof.
  intros Hs Hr. assert (self <> r) as Hne by (intros ->; congruence).
  unfold getbyte. rewrite list_lookup_insert_ne by congruence.
  rewrite Hs. unfold get_bytes.
  rewrite list_lookup_insert_eq by (eapply lookup_lt_Some; eassumption).
  reflexivity.
Qed.

Lemma getbyte_mem_index (h : heap) (self : loc) c (r : loc) (o n : Z) (d : list Z) (q : Z) :
  h !! self = Some (Mem c r o n) -> h !! r = Some (Bytes d) ->
  getbyte h self q = py_index d (q + o / 8).
Proof.
  intros Hs Hr. unfold getbyte. rewrite Hs. unfold get_bytes. now rewrite Hr.
Qed.

Lemma py_index_insert_same (d : list Z) (i v : Z) :
  let j := if i <? 0 then i + len d else i in
  0 <= j < len d -> py_index (<[Z.to_nat j := v]> d) i = Ok v.
Proof.
  cbv zeta. intros Hj. rewrite py_index_norm. cbv zeta. rewrite len_insert.
  destruct (Z.leb_spec 0 (if i <? 0 then i + len d else i)); [|lia].
  destruct (Z.ltb_spec (if i <? 0 then i + len d else i) (len d)); [|lia].
  cbn [andb]. now rewrite byte_at_insert_eq.
Qed.

Lemma py_index_insert_other (d : list Z) (i q v : Z) :
  let j := if i <? 0 then i + len d else i in
  0 <= j < len d -> q <> i -> q <> i + len d -> q <> i - len d ->
  py_index (<[Z.to_nat j := v]> d) q = py_index d q.
Proof.
  cbv zeta. intros Hj H1 H2 H3. rewrite !py_index_norm. cbv zeta. rewrite len_insert.
  destruct ((0 <=? _) && (_ <? _)) eqn:E; [|reflexivity].
  apply andb_prop in E as [E1 E2]. apply Z.leb_le in E1. apply Z.ltb_lt in E2.
  rewrite byte_at_insert_ne; [reflexivity|lia|lia|].
  destruct (Z.ltb_spec i 0), (Z.ltb_spec q 0); lia.
Qed.

(** X5. After a successful [setbyte pos value], [getbyte pos] returns [value],
    the bytearray has the length it had, and [getbyte] at any position that
    denotes another element of the bytearray answers as before. *)
Theorem setbyte_then_getbyte (self : loc) (pos v : Z) (h : heap) u (h' : heap) :
  setbyte self pos v h = Ok (u, h') ->
  0 <= v < 256
  /\ getbyte h' self pos = Ok v
  /\ exists r o n d d',
       h !! self = Some (Mem ByteArray r o n) /\ h !! r = Some (Bytes d)
       /\ h' = <[r := Bytes d']> h /\ len d' = len d
       /\ forall q, q <> pos -> q <> pos + len d -> q <> pos - len d ->
                    getbyte h' self q = getbyte h self q.
Proof.
  unfold setbyte, set_bytes. intros H. minv H. inv_reads.
  match goal with Hs : py_setitem _ _ _ = Ok _ |- _ =>
    apply py_setitem_inv in Hs; cbv zeta in Hs; destruct Hs as (Hj & Hv & ->) end.
  match goal with Hs : h !! self = Some (Mem ByteArray ?r ?o ?n),
                  Hr : h !! ?r = Some (Bytes ?d) |- _ =>
    rename Hs into Hself; rename Hr into Hraw
  end.
  split; [assumption|]. split.
  - erewrite getbyte_stored by eassumption. now apply py_index_insert_same.
  - do 5 eexists. split; [eassumption|]. split; [eassumption|]. split; [reflexivity|].
    split; [apply len_insert|].
    intros q Hq1 Hq2 Hq3. erewrite getbyte_stored by eassumption.
    erewrite getbyte_mem_index by eassumption.
    apply py_index_insert_other; [assumption|lia|lia|lia].
Qed.

Lemma setbyte_then_getbyte_witness :
  getbyte [Bytes [9; 2; 3]; Mem ByteArray 0%nat 8 16] 1%nat (-1) = Ok 9.
Proof.
  apply (setbyte_then_getbyte 1%nat (-1) 9 [Bytes [1; 2; 3]; Mem ByteArray 0%nat 8 16] tt).
  reflexivity.
Defined.

Lemma py_setslice_run (d value : list Z) (s e : Z) :
  bytes_ok value -> 0 <= s <= len d -> 0 <= e ->
  py_setslice d s e value
  = Ok (take (Z.to_nat s) d ++ value
        ++ drop (Z.to_nat (Z.max s (Z.min e (len d)))) d).
Proof.
  intros Hv Hs He. unfold py_setslice, slice_bound.
  destruct (Z.ltb_spec s 0); [lia|]. destruct (Z.ltb_spec e 0); [lia|].
  rewrite to_bytearray_ok by assumption. cbn [rbind].
  now replace (Z.min s (len d)) with s by lia.
Qed.

Lemma len_drop (d : list Z) (m : Z) :
  0 <= m <= len d -> len (drop (Z.to_nat m) d) = len d - m.
Proof. intros Hm. unfold len in *. rewrite length_drop. lia. Qed.

(** X6. [setbyteslice start end value] puts [value] in place of the bytes
    [start .. end) of the region, whatever the length of [value]: the
    bytearray grows or shrinks by the difference, the bytes before [start]
    and those from [end] on are kept, [getbyteslice] gives [value] back, and
    the receiver keeps its offset and its bitlength. *)
Theorem setbyteslice_then_getbyteslice
        (h : heap) (self r : loc) (o n : Z) (d value : list Z) (start end_ : Z) :
  h !! self = Some (Mem ByteArray r o n) -> h !! r = Some (Bytes d) ->
  bytes_ok value -> 0 <= start + o / 8 <= len d -> 0 <= end_ + o / 8 ->
  let s := start + o / 8 in
  let e := Z.max s (Z.min (end_ + o / 8) (len d)) in
  exists d',
    setbyteslice self start end_ value h = Ok (tt, <[r := Bytes d']> h)
    /\ len d' = len d - (e - s) + len value
    /\ getbyteslice self start (start + len value) (<[r := Bytes d']> h)
       = Ok (length h, <[r := Bytes d']> h ++ [Bytes value])
    /\ (forall j, 0 <= j < s -> byte_at d' j = byte_at d j)
    /\ (forall j, 0 <= j -> byte_at d' (s + len value + j) = byte_at d (e + j)).
Proof.
  intros Hs Hr Hv Hst He s e.
  assert (self <> r) as Hne by (intros ->; congruence).
  assert (Hlt := lookup_lt_Some _ _ _ Hr).
  pose proof (len_nonneg value) as Hlv.
  exists (take (Z.to_nat s) d ++ value ++ drop (Z.to_nat e) d).
  assert (len (take (Z.to_nat s) d) = s) as Hlt1 by (apply len_take; lia).
  assert (len (drop (Z.to_nat e) d) = len d - e) as Hld by (apply len_drop; lia).
  repeat apply conj.
  - unfold setbyteslice, set_bytes.
    rewrite (mbnd_rd _ _ _ (r, o, n)) by (unfold get_ByteArray; now rewrite Hs).
    cbv beta iota.
    rewrite (mbnd_rd _ _ _ d) by (unfold get_bytes; now rewrite Hr).
    erewrite mbnd_rd by (apply py_setslice_run; assumption).
    reflexivity.
  - rewrite !len_app, Hlt1, Hld. lia.
  - unfold getbyteslice. rewrite list_lookup_insert_ne by congruence. rewrite Hs.
    erewrite mbnd_rd
      by (unfold get_bytes; rewrite list_lookup_insert_eq by assumption; reflexivity).
    unfold alloc. rewrite length_insert. do 3 f_equal.
    replace (start + len value + o / 8) with (s + len value) by (unfold s; lia).
    fold s. rewrite py_slice_mid by (rewrite !len_app, Hlt1, Hld; lia).
    rewrite drop_app_length' by (unfold len in Hlt1; lia).
    replace (s + len value - s) with (len value) by lia.
    rewrite take_app_length' by (unfold len; lia). reflexivity.
  - intros j Hj. rewrite byte_at_app_l by lia. apply byte_at_take. lia.
  - intros j Hj. rewrite byte_at_app_r by lia. rewrite Hlt1.
    rewrite byte_at_app_r by lia.
    replace (s + len value + j - s - len value) with j by lia.
    apply byte_at_drop; lia.
Qed.

Lemma setbyteslice_then_getbyteslice_witness :
  exists d',
    setbyteslice 1%nat 0 1 [7; 8; 9] [Bytes [1; 2; 3]; Mem ByteArray 0%nat 8 16]
    = Ok (tt, [Bytes d'; Mem ByteArray 0%nat 8 16])
    /\ len d' = 5.
Proof.
  destruct (setbyteslice_then_getbyteslice
              [Bytes [1; 2; 3]; Mem ByteArray 0%nat 8 16] 1%nat 0%nat 8 16
              [1; 2; 3] [7; 8; 9] 0 1) as (d' & Hrun & Hlen & _);
    try reflexivity; try (vm_compute; intuition discriminate);
    [repeat constructor; lia|].
  exists d'. split; [exact Hrun|]. rewrite Hlen. reflexivity.
Defined.

(** ** Slices *)

Lemma slice_mem_storage (h : heap) (ba : loc) c r o m (n off : Z) (l : loc) (h' : heap) :
  h !! ba = Some (Mem c r o m) ->
  slice ba n off h = Ok (l, h') ->
  exists d, h !! r = Some (Bytes d).
Proof.
  intros Hba.
  unfold slice, try_exceptM, mbnd, rd, get_rawarray, get_offset, new_mem, alloc.
  repeat (rewrite Hba; cbv beta iota).
  destruct (h !! r) as [[d| |]|]; try discriminate. eauto.
Qed.

Lemma slice_file_run (h : heap) (ba : loc) src bl m bo o (n off : Z) :
  h !! ba = Some (FileArray src bl m bo o) ->
  slice ba n off h = new_file src (Some n) (8 * bo + o + off) h.
Proof.
  intros Hba.
  unfold slice, try_exceptM, mbnd, rd, get_rawarray, get_source, get_byteoffset,
    get_offset.
  repeat (rewrite Hba; cbv beta iota). reflexivity.
Qed.

Lemma getbit_file_lookup (h : heap) (l : loc) src bl n bo o (q : Z) :
  h !! l = Some (FileArray src bl n bo o) ->
  getbit h l q
  = (_ <- assert ((0 <=? q) && (q <? n)) ;;
     s <- seek_read src ((o + q) / 8 + bo) 1 ;;
     x <- ord s ;;
     Ok (negb (Z.land x (Z.shiftr 128 ((o + q) mod 8)) =? 0))).
Proof. intros Hl. unfold getbit. rewrite Hl. reflexivity. Qed.

Lemma assert_true (c : bool) : c = true -> assert c = Ok tt.
Proof. now intros ->. Qed.

Lemma in_range_true (q n : Z) : 0 <= q < n -> (0 <=? q) && (q <? n) = true.
Proof.
  intros H. destruct (Z.leb_spec 0 q); [|lia]. destruct (Z.ltb_spec q n); [|lia].
  reflexivity.
Qed.

(** X8. Bit [i] of [slice(ba, bitlength, offset)] is bit [offset + i] of [ba],
    for an in-memory [ba] and for a file-backed one: whenever [slice]
    returns, [getbit] on the slice and [getbit] on [ba] give the same answer
    or raise the same exception. *)
Theorem slice_reads_window (h : heap) (ba : loc) (n off : Z) (l : loc) (h' : heap)
        (m i : Z) :
  slice ba n off h = Ok (l, h') ->
  get_bitlength h ba = Ok m ->
  0 <= i < n -> 0 <= off + i < m ->
  getbit h' l i = getbit h ba (off + i).
Proof.
  intros Hsl Hm Hi Hoi.
  destruct (h !! ba) as [[d|c r o m'|src bl m' bo o]|] eqn:Hba;
    try (unfold get_bitlength in Hm; rewrite Hba in Hm; discriminate).
  - destruct (slice_mem_storage _ _ _ _ _ _ _ _ _ _ Hba Hsl) as (d & Hr).
    destruct (slice_mem_inv _ _ _ _ _ _ _ _ _ _ Hba Hsl) as (-> & ->).
    unfold get_bitlength in Hm. rewrite Hba in Hm. injection Hm as ->.
    assert (Hlt := lookup_lt_Some _ _ _ Hr).
    unfold getbit. rewrite lookup_alloc_new, Hba.
    rewrite !assert_true by (apply in_range_true; lia). cbn [rbind divmod].
    unfold get_bytes. rewrite lookup_alloc_old, Hr by assumption.
    now rewrite Z.add_assoc.
  - destruct (slice_file_inv _ _ _ _ _ _ _ _ _ _ _ Hba Hsl) as (-> & bl' & ->).
    unfold get_bitlength in Hm. rewrite Hba in Hm. injection Hm as ->.
    rewrite (getbit_file_lookup _ _ _ _ _ _ _ _ (lookup_alloc_new _ _)).
    rewrite (getbit_file_lookup _ _ _ _ _ _ _ _ Hba).
    rewrite !assert_true by (apply in_range_true; lia). cbn [rbind].
    replace (((8 * bo + o + off) mod 8 + i) / 8 + (8 * bo + o + off) / 8)
      with ((o + (off + i)) / 8 + bo) by (clear; Z.div_mod_to_equations; lia).
    replace (((8 * bo + o + off) mod 8 + i) mod 8)
      with ((o + (off + i)) mod 8) by (clear; Z.div_mod_to_equations; lia).
    reflexivity.
Qed.

Lemma slice_reads_window_witness :
  getbit [Bytes [1; 130]; Mem ConstByteArray 0%nat 3 12; Mem ByteArray 0%nat 8 4] 2%nat 0
  = getbit [Bytes [1; 130]; Mem ConstByteArray 0%nat 3 12] 1%nat 5.
Proof.
  apply (slice_reads_window [Bytes [1; 130]; Mem ConstByteArray 0%nat 3 12]
           1%nat 4 5 2%nat _ 12 0); [reflexivity|reflexivity|lia|lia].
Defined.

(** X9. A slice of a slice is the slice at the sum of the offsets: the same
    fields, over the same bytearray or the same file. *)
Theorem slice_of_slice (h : heap) (ba : loc) (n1 o1 n2 o2 : Z)
        (l1 : loc) (h1 : heap) (l2 : loc) (h2 : heap) :
  slice ba n1 o1 h = Ok (l1, h1) ->
  slice l1 n2 o2 h1 = Ok (l2, h2) ->
  exists l3 h3, slice ba n2 (o1 + o2) h = Ok (l3, h3) /\ h3 !! l3 = h2 !! l2.
Proof.
  intros H1 H2.
  destruct (h !! ba) as [[d|c r o m|src bl m bo o]|] eqn:Hba.
  - exfalso. revert H1. unfold slice, try_exceptM, mbnd, rd, get_rawarray, get_source.
    repeat (rewrite Hba; cbv beta iota). discriminate.
  - destruct (slice_mem_storage _ _ _ _ _ _ _ _ _ _ Hba H1) as (d & Hr).
    destruct (slice_mem_inv _ _ _ _ _ _ _ _ _ _ Hba H1) as (-> & ->).
    destruct (slice_mem_inv _ _ _ _ _ _ _ _ _ _ (lookup_alloc_new _ _) H2) as (-> & ->).
    do 2 eexists. split; [eapply slice_mem_run; eassumption|].
    rewrite !lookup_alloc_new. now rewrite Z.add_assoc.
  - destruct (slice_file_inv _ _ _ _ _ _ _ _ _ _ _ Hba H1) as (-> & bl1 & ->).
    rewrite (slice_file_run _ _ _ _ _ _ _ _ _ (lookup_alloc_new _ _)) in H2.
    rewrite (slice_file_run _ _ _ _ _ _ _ _ _ Hba).
    replace (8 * ((8 * bo + o + o1) / 8) + (8 * bo + o + o1) mod 8 + o2)
      with (8 * bo + o + (o1 + o2)) in H2 by (clear; Z.div_mod_to_equations; lia).
    revert H2. unfold new_file. cbn [divmod].
    destruct (_ >? _); [discriminate|]. unfold alloc. intros [= <- <-].
    do 2 eexists. split; [reflexivity|]. rewrite !lookup_alloc_new. reflexivity.
  - exfalso. revert H1. unfold slice, try_exceptM, mbnd, rd, get_rawarray, get_source.
    repeat (rewrite Hba; cbv beta iota). discriminate.
Qed.

Lemma slice_of_slice_witness :
  exists l3 h3,
    slice 0%nat 3 7 [FileArray [1; 2; 3; 4] 3 20 1 2] = Ok (l3, h3)
    /\ h3 !! l3 = Some (FileArray [1; 2; 3; 4] 1 3 2 1).
Proof.
  apply (slice_of_slice [FileArray [1; 2; 3; 4] 3 20 1 2] 0%nat 9 4 3 3 1%nat
           [FileArray [1; 2; 3; 4] 3 20 1 2; FileArray [1; 2; 3; 4] 2 9 1 6]
           2%nat
           [FileArray [1; 2; 3; 4] 3 20 1 2; FileArray [1; 2; 3; 4] 2 9 1 6;
            FileArray [1; 2; 3; 4] 1 3 2 1]); reflexivity.
Defined.

(** X10. A slice is a view: the slice of an in-memory buffer, read-only or
    mutable, is a mutable buffer over the same bytearray, and a bit set
    through the slice is set in the buffer it was cut from. *)
Theorem slice_is_a_view (h : heap) (ba : loc) c (r : loc) (d : list Z)
        (o m n off i : Z) :
  h !! ba = Some (Mem c r o m) -> h !! r = Some (Bytes d) -> bytes_ok d ->
  0 <= o -> 0 <= off -> o + off + n <= 8 * len d ->
  0 <= i < n -> off + i < m ->
  exists s h1 h2,
    slice ba n off h = Ok (s, h1)
    /\ setbit s i h1 = Ok (tt, h2)
    /\ getbit h2 ba (off + i) = Ok true.
Proof.
  intros Hba Hr Hd Ho Hoff Hcov Hi Him.
  assert (Hlt := lookup_lt_Some _ _ _ Hr). assert (Hlt' := lookup_lt_Some _ _ _ Hba).
  destruct (update_bit_getbit Z.lor orb (h ++ [Mem ByteArray r (o + off) n])
              (length h) r d (o + off) n i) as (d' & Hrun & _ & _ & Hget);
    try assumption; try lia.
  { intros x t Hx Ht. apply Z.lor_nonneg. split; [lia|apply pow2_nonneg]. }
  { intros x t j _ Ht Hj. apply lor_pow2_bits; lia. }
  { intros b. apply orb_false_r. }
  { apply lookup_alloc_new. }
  { now rewrite lookup_alloc_old. }
  fold (setbit (length h) i) in Hrun.
  do 3 eexists. split; [eapply slice_mem_run; eassumption|]. split; [exact Hrun|].
  destruct (Hget ba c o m (off + i)) as (b & _ & ->); try lia.
  { now rewrite lookup_alloc_old. }
  replace (o + (off + i) =? o + off + i) with true by (symmetry; apply Z.eqb_eq; lia).
  now rewrite orb_true_r.
Qed.

Lemma slice_is_a_view_witness :
  exists s h1 h2,
    slice 1%nat 4 5 [Bytes [0; 0]; Mem ConstByteArray 0%nat 3 12] = Ok (s, h1)
    /\ setbit s 2 h1 = Ok (tt, h2)
    /\ getbit h2 1%nat (5 + 2) = Ok true.
Proof.
  apply (slice_is_a_view [Bytes [0; 0]; Mem ConstByteArray 0%nat 3 12] 1%nat
           ConstByteArray 0%nat [0; 0] 3 12 4 5 2);
    try reflexivity; try lia; [repeat constructor; lia | unfold len; simpl; lia].
Defined.

(** ** File-backed buffers against in-memory buffers *)

Lemma seek_read_one (src : file) (pos : Z) :
  0 <= pos < len src -> seek_read src pos 1 = Ok [byte_at src pos].
Proof.
  intros Hp. unfold seek_read. destruct (Z.ltb_spec pos 0); [lia|]. f_equal.
  unfold byte_at. destruct (src !! Z.to_nat pos) eqn:E.
  - assert (Hlt := lookup_lt_Some _ _ _ E).
    apply take_drop_middle in E. rewrite <- E at 1.
    rewrite drop_app_length' by (rewrite length_take; lia).
    reflexivity.
  - apply lookup_ge_None in E. unfold len in Hp. lia.
Qed.

Lemma new_file_buffer (src : file) (n off : Z) (h : heap) (l : loc) (h' : heap) :
  bytes_ok src -> 0 <= off -> 0 <= n ->
  new_file src (Some n) off h = Ok (l, h') ->
  l = length h /\ file_buffer h' l src (off / 8) (off mod 8) n.
Proof.
  intros Hsrc Hoff Hn. unfold new_file. cbn [divmod].
  destruct (Z.gtb_spec ((n + off mod 8 + 7) / 8) (len src - off / 8)); [discriminate|].
  unfold alloc. intros [= <- <-]. split; [reflexivity|].
  split; [apply lookup_alloc_new|]. split; [assumption|].
  pose proof (mod8_range off). repeat split; try lia.
  clear - Hoff. Z.div_mod_to_equations. lia.
Qed.

Lemma getbit_file (h : heap) (l : loc) (src : file) (bo o n i : Z) :
  file_buffer h l src bo o n -> 0 <= i < n ->
  getbit h l i = Ok (bit_at src (8 * bo + o + i)).
Proof.
  intros (Hl & Hsrc & Hbo & Ho & Hn & Hfit) Hi.
  rewrite (getbit_file_lookup _ _ _ _ _ _ _ _ Hl).
  rewrite assert_true by (apply in_range_true; lia). cbn [rbind].
  assert ((o + i) / 8 < (n + o + 7) / 8)
    by (clear - Ho Hi; Z.div_mod_to_equations; lia).
  assert (0 <= (o + i) / 8) by (clear - Ho Hi; Z.div_mod_to_equations; lia).
  rewrite seek_read_one by lia.
  cbn [rbind ord]. rewrite mask_test by apply mod8_range.
  unfold bit_at.
  replace ((8 * bo + o + i) / 8) with ((o + i) / 8 + bo)
    by (clear; Z.div_mod_to_equations; lia).
  replace ((8 * bo + o + i) mod 8) with ((o + i) mod 8)
    by (clear; Z.div_mod_to_equations; lia).
  reflexivity.
Qed.

(** X14. A file-backed buffer and an in-memory buffer over the bytes of the
    file, addressing the same window, read the same bit at every position:
    bit [i] is bit [7 - (offset + i) mod 8] of byte
    [byteoffset + (offset + i) div 8]. *)
Theorem getbit_file_agrees_with_memory
        (h : heap) (f m : loc) (src : file) (bo o n : Z) c (r : loc) (i : Z) :
  file_buffer h f src bo o n ->
  h !! m = Some (Mem c r (8 * bo + o) n) -> h !! r = Some (Bytes src) ->
  0 <= i < n ->
  getbit h f i = Ok (bit_at src (8 * bo + o + i))
  /\ getbit h m i = Ok (bit_at src (8 * bo + o + i)).
Proof.
  intros Hf Hm Hr Hi. split; [now apply getbit_file with (n := n)|].
  destruct Hf as (_ & _ & Hbo & Ho & Hn & Hfit).
  replace (8 * bo + o + i) with ((8 * bo + o) + i) by lia.
  apply getbit_raw with (c := c) (r := r) (n := n); try assumption.
  assert (n + o <= 8 * ((n + o + 7) / 8)) by (clear; Z.div_mod_to_equations; lia).
  lia.
Qed.

Lemma getbit_file_agrees_with_memory_witness :
  getbit [FileArray [7; 172; 1] 2 9 1 3; Bytes [7; 172; 1]; Mem ConstByteArray 1%nat 11 9]
         0%nat 2
  = Ok (bit_at [7; 172; 1] (8 * 1 + 3 + 2))
  /\ getbit [FileArray [7; 172; 1] 2 9 1 3; Bytes [7; 172; 1];
             Mem ConstByteArray 1%nat 11 9] 2%nat 2
     = Ok (bit_at [7; 172; 1] (8 * 1 + 3 + 2)).
Proof.
  apply (getbit_file_agrees_with_memory _ 0%nat 2%nat [7; 172; 1] 1 3 9
           ConstByteArray 1%nat 2); try reflexivity; try lia.
  split; [reflexivity|]. split; [repeat constructor; lia|].
  vm_compute. intuition discriminate.
Defined.

(** X15. For a position that is not negative, [getbyte] of a file-backed buffer
    and of an in-memory buffer over the same bytes return the same byte,
    the one at [byteoffset + pos]. *)
Theorem getbyte_file_agrees_with_memory
        (h : heap) (f m : loc) (src : file) (bl n bo o : Z) c (r : loc) (n' pos : Z) :
  h !! f = Some (FileArray src bl n bo o) ->
  h !! m = Some (Mem c r (8 * bo + o) n') -> h !! r = Some (Bytes src) ->
  0 <= bo -> 0 <= o < 8 -> 0 <= pos -> bo + pos < len src ->
  getbyte h f pos = Ok (byte_at src (bo + pos))
  /\ getbyte h m pos = Ok (byte_at src (bo + pos)).
Proof.
  intros Hf Hm Hr Hbo Ho Hp Hfit. split.
  - unfold getbyte. rewrite Hf. destruct (Z.ltb_spec pos 0); [lia|].
    rewrite seek_read_one by lia. cbn [rbind ord]. now rewrite Z.add_comm.
  - erewrite getbyte_mem_index by eassumption.
    replace ((8 * bo + o) / 8) with bo by (clear - Ho; Z.div_mod_to_equations; lia).
    rewrite py_index_ok by lia. now rewrite Z.add_comm.
Qed.

Lemma getbyte_file_agrees_with_memory_witness :
  getbyte [FileArray [7; 172; 1] 2 9 1 3; Bytes [7; 172; 1]; Mem ConstByteArray 1%nat 11 9]
          0%nat 1 = Ok (byte_at [7; 172; 1] (1 + 1))
  /\ getbyte [FileArray [7; 172; 1] 2 9 1 3; Bytes [7; 172; 1];
              Mem ConstByteArray 1%nat 11 9] 2%nat 1
     = Ok (byte_at [7; 172; 1] (1 + 1)).
Proof.
  apply (getbyte_file_agrees_with_memory _ 0%nat 2%nat [7; 172; 1] 2 9 1 3
           ConstByteArray 1%nat 9 1); try reflexivity; try lia.
Defined.

(** ** Copies *)

Lemma seek_read_window (src : file) (pos n : Z) :
  0 <= pos -> 0 <= n -> pos + n <= len src ->
  seek_read src pos n = Ok (py_slice src pos (pos + n)).
Proof.
  intros Hp Hn Hfit. unfold seek_read. destruct (Z.ltb_spec pos 0); [lia|].
  rewrite py_slice_mid by lia. do 3 f_equal. lia.
Qed.

Lemma copy_file_run (h : heap) (f : loc) (src : file) (bo o n : Z) :
  file_buffer h f src bo o n ->
  let d := py_slice src bo (bo + (n + o + 7) / 8) in
  copy f h
  = Ok (S (S (length h)),
        h ++ [Bytes d; Bytes d; Mem ByteArray (S (length h)) o n]).
Proof.
  intros (Hf & Hsrc & Hbo & Ho & Hn & Hfit) d.
  assert (0 <= (n + o + 7) / 8) as Hbl by (clear - Ho Hn; Z.div_mod_to_equations; lia).
  assert (Hlt := lookup_lt_Some _ _ _ Hf).
  assert (getbyteslice f 0 ((n + o + 7) / 8) h = Ok (length h, h ++ [Bytes d])) as Hgs.
  { unfold getbyteslice. rewrite Hf.
    destruct (Z.ltb_spec 0 ((n + o + 7) / 8)).
    - unfold mbnd, rd, alloc. rewrite Z.sub_0_r, Z.add_0_l.
      rewrite seek_read_window by lia. reflexivity.
    - unfold alloc. subst d. replace ((n + o + 7) / 8) with 0 by lia.
      rewrite Z.add_0_r. unfold py_slice. rewrite Z.sub_diag. reflexivity. }
  unfold copy. rewrite Hf. unfold mbnd at 1. unfold rawbytes. rewrite Hf.
  unfold mbnd at 1. rewrite Hgs.
  unfold mbnd at 1, rd, get_bytes. rewrite lookup_alloc_new.
  unfold alloc. rewrite length_app. cbn [length].
  unfold new_mem.
  replace (length h + 1)%nat with (S (length h)) by lia.
  rewrite <- app_assoc. cbn [app].
  rewrite (lookup_tail1 h (Bytes d) (Bytes d) []).
  unfold alloc. rewrite length_app. cbn [length].
  rewrite <- app_assoc. cbn [app]. do 2 f_equal. lia.
Qed.

(** X12. [copy] of a buffer whose window lies inside its storage or its file
    gives a mutable in-memory buffer over a bytearray created by the call,
    with the same offset and bitlength, that reads the same bit at every
    position.  For a file-backed buffer the new bytearray holds the bytes of
    the window only. *)
Theorem copy_reads_same_bits (h : heap) (s : loc) (n : Z) :
  (exists d o, mem_buffer h s d o n)
  \/ (exists src bo o, file_buffer h s src bo o n) ->
  exists l h',
    copy s h = Ok (l, h')
    /\ fresh_buffer h h' l
    /\ get_offset h' l = get_offset h s
    /\ get_bitlength h' l = Ok n
    /\ forall i, 0 <= i < n ->
         exists b, getbit h s i = Ok b /\ getbit h' l i = Ok b.
Proof.
  intros [(d & o & Hm)|(src & bo & o & Hf)].
  - pose proof Hm as ((c & r & Hs & Hr) & Hd & Ho & Hn & Hcov).
    assert (Hrun := copy_mem_run _ _ _ _ _ _ _ Hs Hr).
    do 2 eexists. split; [exact Hrun|]. split; [eapply copy_fresh; exact Hrun|].
    split; [unfold get_offset; now rewrite lookup_tail1, Hs|].
    split; [unfold get_bitlength; now rewrite lookup_tail1|].
    intros i Hi. exists (bit_at d (o + i)). split; [eapply getbit_mem; eassumption|].
    apply getbit_mem with (n := n); [|assumption].
    split; [do 2 eexists; split; [apply lookup_tail1|apply lookup_tail0]|].
    repeat split; assumption.
  - pose proof Hf as (Hs & Hsrc & Hbo & Ho & Hn & Hfit).
    assert (Hrun := copy_file_run _ _ _ _ _ _ Hf). cbv zeta in Hrun.
    assert (0 <= (n + o + 7) / 8) as Hbl by (clear - Ho Hn; Z.div_mod_to_equations; lia).
    do 2 eexists. split; [exact Hrun|]. split; [eapply copy_fresh; exact Hrun|].
    assert ((h ++ [Bytes (py_slice src bo (bo + (n + o + 7) / 8));
                   Bytes (py_slice src bo (bo + (n + o + 7) / 8));
                   Mem ByteArray (S (length h)) o n]) !! S (S (length h))
            = Some (Mem ByteArray (S (length h)) o n)) as Hl.
    { rewrite lookup_app_r by lia.
      replace (S (S (length h)) - length h)%nat with 2%nat by lia. reflexivity. }
    split; [unfold get_offset; now rewrite Hl, Hs|].
    split; [unfold get_bitlength; now rewrite Hl|].
    intros i Hi. exists (bit_at src (8 * bo + o + i)).
    split; [eapply getbit_file; eassumption|].
    assert ((o + i) / 8 < (n + o + 7) / 8)
      by (clear - Ho Hi; Z.div_mod_to_equations; lia).
    assert (0 <= (o + i) / 8) by (clear - Ho Hi; Z.div_mod_to_equations; lia).
    erewrite getbit_raw; [| exact Hl | apply lookup_tail1 | assumption |].
    + f_equal. unfold bit_at.
      rewrite byte_at_py_slice by lia.
      replace ((8 * bo + o + i) / 8) with (bo + (o + i) / 8)
        by (clear; Z.div_mod_to_equations; lia).
      replace ((8 * bo + o + i) mod 8) with ((o + i) mod 8)
        by (clear; Z.div_mod_to_equations; lia).
      reflexivity.
    + rewrite len_py_slice by lia.
      clear - Ho Hi Hbl. Z.div_mod_to_equations. lia.
Qed.

Lemma copy_reads_same_bits_witness :
  exists l h',
    copy 0%nat [FileArray [7; 172; 1] 2 9 1 3] = Ok (l, h')
    /\ get_bitlength h' l = Ok 9.
Proof.
  destruct (copy_reads_same_bits [FileArray [7; 172; 1] 2 9 1 3] 0%nat 9)
    as (l & h' & Hrun & _ & _ & Hn & _).
  - right. exists [7; 172; 1], 1, 3. split; [reflexivity|].
    split; [repeat constructor; lia|]. vm_compute. intuition discriminate.
  - exists l, h'. split; assumption.
Defined.

(** ** Byte slices and byte lengths of the two representations *)

Lemma py_slice_read (d : list Z) (s e : Z) :
  0 <= s -> 0 <= e ->
  py_slice d s e
  = if s <? e then take (Z.to_nat (e - s)) (drop (Z.to_nat s) d) else [].
Proof.
  intros Hs He. unfold py_slice, slice_bound.
  destruct (Z.ltb_spec s 0); [lia|]. destruct (Z.ltb_spec e 0); [lia|].
  destruct (Z.ltb_spec s e) as [Hlt|Hge].
  - destruct (Z.le_gt_cases (len d) s) as [Hout|Hin].
    + rewrite !drop_ge by (unfold len in *; lia). now rewrite !take_nil.
    + replace (Z.min s (len d)) with s by lia.
      destruct (Z.le_gt_cases e (len d)).
      * now replace (Z.min e (len d)) with e by lia.
      * replace (Z.min e (len d)) with (len d) by lia.
        rewrite !take_ge; [reflexivity| |]; rewrite length_drop; unfold len in *; lia.
  - replace (Z.to_nat (Z.min e (len d) - Z.min s (len d))) with 0%nat by lia.
    reflexivity.
Qed.

(** X17. [getbyteslice start end] with [start] and [end] not negative returns
    the same new bytearray on a file-backed buffer and on an in-memory
    buffer over the bytes of the file at the same window, also when the
    range is empty or runs past the end of the data. *)
Theorem getbyteslice_file_agrees_with_memory
        (h : heap) (f m : loc) (src : file) (bl n bo o : Z) c (r : loc) (n' : Z)
        (start end_ : Z) :
  h !! f = Some (FileArray src bl n bo o) ->
  h !! m = Some (Mem c r (8 * bo + o) n') -> h !! r = Some (Bytes src) ->
  0 <= bo -> 0 <= o < 8 -> 0 <= start -> 0 <= end_ ->
  getbyteslice f start end_ h = getbyteslice m start end_ h
  /\ getbyteslice m start end_ h
     = Ok (length h, h ++ [Bytes (py_slice src (start + bo) (end_ + bo))]).
Proof.
  intros Hf Hm Hr Hbo Ho Hs He.
  assert (getbyteslice m start end_ h
          = Ok (length h, h ++ [Bytes (py_slice src (start + bo) (end_ + bo))])) as Hmem.
  { unfold getbyteslice. rewrite Hm.
    rewrite (mbnd_rd _ _ _ src) by (unfold get_bytes; now rewrite Hr).
    replace ((8 * bo + o) / 8) with bo by (clear - Ho; Z.div_mod_to_equations; lia).
    reflexivity. }
  split; [|exact Hmem]. rewrite Hmem.
  unfold getbyteslice. rewrite Hf. rewrite py_slice_read by lia.
  destruct (Z.ltb_spec start end_), (Z.ltb_spec (start + bo) (end_ + bo)); try lia.
  - unfold mbnd, rd, seek_read. destruct (Z.ltb_spec (start + bo) 0); [lia|].
    replace (end_ + bo - (start + bo)) with (end_ - start) by lia. reflexivity.
  - reflexivity.
Qed.

Lemma getbyteslice_file_agrees_with_memory_witness :
  getbyteslice 0%nat 1 9
    [FileArray [7; 172; 1] 2 9 1 3; Bytes [7; 172; 1]; Mem ConstByteArray 1%nat 11 9]
  = getbyteslice 2%nat 1 9
      [FileArray [7; 172; 1] 2 9 1 3; Bytes [7; 172; 1]; Mem ConstByteArray 1%nat 11 9].
Proof.
  apply (getbyteslice_file_agrees_with_memory _ 0%nat 2%nat [7; 172; 1] 2 9 1 3
           ConstByteArray 1%nat 9 1 9); try reflexivity; try lia.
Defined.

(** X18. The [bytelength] that [FileArray.__init__] stores is the [bytelength]
    that the in-memory classes compute for the same offset and bitlength,
    except for an empty window that does not start on a byte boundary:
    there the file-backed buffer has bytelength 1 and the in-memory one 0. *)
Theorem bytelength_file_and_memory
        (src : file) (n off : Z) (h : heap) (f : loc) (h' : heap) :
  0 <= off -> 0 <= n ->
  new_file src (Some n) off h = Ok (f, h') ->
  get_bytelength h' f
  = Ok (if (n =? 0) && negb (off mod 8 =? 0) then 1 else mem_bytelength off n).
Proof.
  intros Hoff Hn. unfold new_file. cbn [divmod].
  destruct (_ >? _); [discriminate|]. unfold alloc. intros [= <- <-].
  unfold get_bytelength. rewrite lookup_alloc_new. f_equal.
  pose proof (mod8_range off) as Hm.
  destruct (Z.eqb_spec n 0) as [->|Hn0].
  - unfold mem_bytelength. cbn [Z.eqb andb].
    destruct (Z.eqb_spec (off mod 8) 0) as [E|E]; cbn [negb].
    + rewrite E. reflexivity.
    + clear - Hm E. Z.div_mod_to_equations. lia.
  - cbn [andb]. rewrite mem_bytelength_pos by lia.
    clear - Hoff Hn Hn0. Z.div_mod_to_equations. lia.
Qed.

Lemma bytelength_file_and_memory_witness :
  get_bytelength [FileArray [7; 172; 1] 2 9 1 3] 0%nat
  = Ok (if (9 =? 0) && negb (11 mod 8 =? 0) then 1 else mem_bytelength 11 9).
Proof.
  apply (bytelength_file_and_memory [7; 172; 1] 9 11 [] 0%nat); [lia|lia|reflexivity].
Defined.

(** X19. Built without a bitlength, a file-backed buffer runs to the end of the
    file.  The constructor never raises then: an offset past the end of the
    file gives a buffer with a negative bitlength. *)
Theorem new_file_rest_of_file (src : file) (off : Z) (h : heap) :
  new_file src None off h
  = Ok (length h,
        h ++ [FileArray src (len src - off / 8) (8 * len src - off)
                        (off / 8) (off mod 8)]).
Proof.
  unfold new_file. cbn [divmod].
  destruct (Z.gtb_spec (len src - off / 8) (len src - off / 8)); [lia|].
  unfold alloc.
  replace ((len src - off / 8) * 8 - off mod 8) with (8 * len src - off);
    [reflexivity|].
  generalize (len src). clear. intros L. Z.div_mod_to_equations. lia.
Qed.

(** ** [equal] as a relation *)

(** X21. [equal(a, a)] is [True] for every buffer, in memory or file-backed:
    the operands are the same data at the same offset, and no byte is
    read. *)
Theorem equal_reflexive (h : heap) (a : loc) (n : Z) :
  get_bitlength h a = Ok n -> equal h a a = Ok true.
Proof.
  intros Hn. unfold equal. rewrite Hn. cbn [rbind]. rewrite Z.eqb_refl. cbn [negb].
  destruct (n =? 0); [reflexivity|].
  unfold get_bitlength in Hn.
  destruct (h !! a) as [[d|c r o m|src bl m bo o]|] eqn:Ha; try discriminate.
  - unfold get_offset. rewrite Ha. cbn [rbind].
    destruct (_ >? _); unfold equal_ordered, get_offset, get_byteoffset,
      get_bytelength, get_rawarray; rewrite Ha; cbn [rbind try_except];
      now rewrite Nat.eqb_refl, Z.eqb_refl.
  - unfold get_offset. rewrite Ha. cbn [rbind].
    destruct (_ >? _); unfold equal_ordered, get_offset, get_byteoffset,
      get_bytelength, get_rawarray; rewrite Ha; cbn [rbind try_except];
      now rewrite Nat.eqb_refl, Z.eqb_refl.
Qed.

Lemma equal_reflexive_witness :
  equal [FileArray [0; 170; 0; 0] 1 8 1 0] 0%nat 0%nat = Ok true.
Proof.
  apply (equal_reflexive [FileArray [0; 170; 0; 0] 1 8 1 0] 0%nat 8). reflexivity.
Defined.

(** X22. On in-memory buffers whose storage covers their bits [equal] gives the
    same answer whichever operand comes first. *)
Theorem equal_symmetric_mem (h : heap) (a b : loc) (da db : list Z) (oa na ob nb : Z) :
  mem_buffer h a da oa na -> mem_buffer h b db ob nb ->
  equal h a b = equal h b a.
Proof.
  intros Ha Hb.
  destruct (equal_mem h a b da db oa na ob nb Ha Hb) as (r1 & -> & H1).
  destruct (equal_mem h b a db da ob nb oa na Hb Ha) as (r2 & -> & H2).
  f_equal. destruct r1, r2; try reflexivity.
  - destruct H1 as [H1 _]. destruct (H1 eq_refl) as [-> Hs].
    destruct H2 as [_ H2]. symmetry. apply H2. split; [reflexivity|].
    now apply seg_same_sym.
  - destruct H2 as [H2 _]. destruct (H2 eq_refl) as [-> Hs].
    destruct H1 as [_ H1]. apply H1. split; [reflexivity|].
    now apply seg_same_sym.
Qed.

Lemma equal_symmetric_mem_witness :
  equal [Bytes [171; 192]; Mem ConstByteArray 0%nat 3 7;
         Bytes [0; 94; 5]; Mem ByteArray 2%nat 9 7] 1%nat 3%nat
  = equal [Bytes [171; 192]; Mem ConstByteArray 0%nat 3 7;
           Bytes [0; 94; 5]; Mem ByteArray 2%nat 9 7] 3%nat 1%nat.
Proof.
  apply (equal_symmetric_mem _ 1%nat 3%nat [171; 192] [0; 94; 5] 3 7 9 7);
    concrete_buffer.
Defined.

(** X23. [equal] is transitive on in-memory buffers whose storage covers their
    bits. *)
Theorem equal_transitive_mem (h : heap) (a b c : loc) (da db dc : list Z)
        (oa na ob nb oc nc : Z) :
  mem_buffer h a da oa na -> mem_buffer h b db ob nb -> mem_buffer h c dc oc nc ->
  equal h a b = Ok true -> equal h b c = Ok true -> equal h a c = Ok true.
Proof.
  intros Ha Hb Hc Hab Hbc.
  destruct (equal_mem h a b da db oa na ob nb Ha Hb) as (r1 & E1 & H1).
  destruct (equal_mem h b c db dc ob nb oc nc Hb Hc) as (r2 & E2 & H2).
  destruct (equal_mem h a c da dc oa na oc nc Ha Hc) as (r3 & -> & H3).
  rewrite Hab in E1. injection E1 as <-. rewrite Hbc in E2. injection E2 as <-.
  destruct H1 as [H1 _]. destruct (H1 eq_refl) as [-> S1].
  destruct H2 as [H2 _]. destruct (H2 eq_refl) as [-> S2].
  f_equal. apply H3. split; [reflexivity|].
  intros i Hi. rewrite S1 by assumption. now apply S2.
Qed.

Lemma equal_transitive_mem_witness :
  equal [Bytes [171; 192]; Mem ConstByteArray 0%nat 3 7;
         Bytes [0; 94; 5]; Mem ByteArray 2%nat 8 7;
         Bytes [94]; Mem ByteArray 4%nat 0 7] 1%nat 5%nat = Ok true.
Proof.
  apply (equal_transitive_mem _ 1%nat 3%nat 5%nat [171; 192] [0; 94; 5] [94]
           3 7 8 7 0 7); try concrete_buffer; reflexivity.
Defined.

(** X24. The bitlengths alone decide [equal] in two cases, for any two buffers
    of any representation: different bitlengths give [False], and two empty
    buffers are equal whatever their offsets and their data. *)
Theorem equal_decided_by_bitlength (h : heap) (a b : loc) (na nb : Z) :
  get_bitlength h a = Ok na -> get_bitlength h b = Ok nb ->
  (na <> nb -> equal h a b = Ok false)
  /\ (na = 0 -> nb = 0 -> equal h a b = Ok true).
Proof.
  intros Ha Hb. unfold equal. rewrite Ha, Hb. cbn [rbind]. split.
  - intros Hne. destruct (Z.eqb_spec na nb); [contradiction|reflexivity].
  - intros -> ->. reflexivity.
Qed.

Lemma equal_decided_by_bitlength_witness :
  equal [Bytes [240]; Mem ByteArray 0%nat 0 4; FileArray [240] 1 3 0 0] 1%nat 2%nat
  = Ok false.
Proof.
  apply (equal_decided_by_bitlength
           [Bytes [240]; Mem ByteArray 0%nat 0 4; FileArray [240] 1 3 0 0]
           1%nat 2%nat 4 3); [reflexivity|reflexivity|lia].
Defined.

Lemma equal_mem_bitwise_witness :
  exists r, equal [Bytes [171; 192]; Mem ConstByteArray 0%nat 3 7;
                   Bytes [0; 94; 5]; Mem ByteArray 2%nat 9 7] 1%nat 3%nat = Ok r.
Proof.
  destruct (equal_mem_bitwise
              [Bytes [171; 192]; Mem ConstByteArray 0%nat 3 7;
               Bytes [0; 94; 5]; Mem ByteArray 2%nat 9 7]
              1%nat 3%nat [171; 192] [0; 94; 5] 3 7 9 7) as (r & Hr & _);
    try concrete_buffer.
  exists r. exact Hr.
Defined.

Lemma offsetcopy_roundtrip_mem_witness :
  exists y h1 z h2,
    offsetcopy 1%nat 6 [Bytes [171; 192]; Mem ConstByteArray 0%nat 3 7] = Ok (y, h1)
    /\ offsetcopy y (3 mod 8) h1 = Ok (z, h2)
    /\ get_bitlength h2 z = Ok 7.
Proof.
  destruct (offsetcopy_roundtrip_mem
              [Bytes [171; 192]; Mem ConstByteArray 0%nat 3 7] 1%nat [171; 192] 3 7 6)
    as (y & h1 & z & h2 & H1 & H2 & H3 & _); try lia; try concrete_buffer.
  exists y, h1, z, h2. repeat split; assumption.
Defined.

(** ** [offsetcopy] keeps the bits *)

Lemma map_range_shift (g : Z -> Z) (lo m : Z) :
  map g (range lo (lo + m)) = map (fun x => g (lo + x)) (range 0 m).
Proof.
  unfold range. rewrite !map_map. replace (lo + m - lo) with (m - 0) by lia.
  apply map_ext. intros i. f_equal.
Qed.

Section OffsetcopyMemLow.
Variables (h : heap) (s : loc) (c : cls) (r : loc) (o n : Z) (d : list Z).
Hypothesis Hs : h !! s = Some (Mem c r o n).
Hypothesis Hr : h !! r = Some (Bytes d).
Hypothesis Hd : bytes_ok d.
Hypothesis Ho : 0 <= o.
Hypothesis Hn : 1 <= n.
Hypothesis Hcov : o + n <= 8 * len d.

Let bo := o / 8.
Let O := o mod 8.
Let bl := (O + n - 1) / 8 + 1.
Let D := drop (Z.to_nat bo) d.

Local Lemma low_O : 0 <= O < 8.
Proof. apply mod8_range. Qed.

Local Lemma low_bo : 0 <= bo.
Proof. unfold bo. clear - Ho. Z.div_mod_to_equations. lia. Qed.

Local Lemma low_bl_eq : mem_bytelength o n = bl.
Proof.
  rewrite mem_bytelength_pos by lia. unfold bl, O.
  clear. Z.div_mod_to_equations. lia.
Qed.

Local Lemma low_fit : 1 <= bl /\ bo + bl <= len d.
Proof.
  assert (bo + bl = (o + n - 1) / 8 + 1) as E
    by (unfold bo, bl, O; clear; Z.div_mod_to_equations; lia).
  split.
  - unfold bl, O. clear - Hn. Z.div_mod_to_equations. lia.
  - rewrite E. generalize dependent (len d). clear. intros L HL.
    Z.div_mod_to_equations. lia.
Qed.

Local Lemma low_D_ok : bytes_ok D.
Proof. unfold D, bytes_ok. apply Forall_drop. exact Hd. Qed.

Local Lemma low_D_len : len D = len d - bo.
Proof.
  pose proof low_bo. pose proof low_fit. unfold D. apply len_drop. lia.
Qed.

Local Lemma low_D_cov : O + n <= 8 * len D.
Proof.
  rewrite low_D_len. pose proof low_fit as [_ Hf].
  assert (O + n <= 8 * bl) by (unfold bl; clear; Z.div_mod_to_equations; lia).
  lia.
Qed.

Local Lemma low_D_byte (x : Z) : 0 <= x -> byte_at D x = byte_at d (bo + x).
Proof. intros Hx. unfold D. apply byte_at_drop; [apply low_bo|assumption]. Qed.

Local Lemma low_D_bit (i : Z) : 0 <= i -> bit_at D (O + i) = bit_at d (o + i).
Proof.
  intros Hi. pose proof low_O. unfold bit_at.
  rewrite low_D_byte by (clear - Hi H; Z.div_mod_to_equations; lia).
  replace (bo + (O + i) / 8) with ((o + i) / 8)
    by (unfold bo, O; clear; Z.div_mod_to_equations; lia).
  replace ((O + i) mod 8) with ((o + i) mod 8)
    by (unfold O; clear; Z.div_mod_to_equations; lia).
  reflexivity.
Qed.

Local Lemma low_getitem (x : Z) :
  0 <= x < len d -> getitem h r x = Ok (byte_at d x).
Proof. intros Hx. now apply getitem_bytes. Qed.

Lemma offsetcopy_newdata_low (k : Z) :
  0 <= k < O -> offsetcopy_newdata h s k = Ok (left_data D O n k).
Proof.
  intros Hk. pose proof low_fit as [Hbl Hfit]. pose proof low_bo as Hbo.
  pose proof low_O as HO.
  unfold offsetcopy_newdata, get_rawarray, get_offset, get_bitlength,
    get_byteoffset, get_bytelength.
  rewrite Hs. cbn [try_except rbind]. rewrite low_bl_eq. fold O. fold bo.
  destruct (Z.ltb_spec k O); [|lia].
  rewrite bits_in_last_byte_pos by lia.
  rewrite (mapM_ok _ (fun x => Z.land (Z.shiftl (byte_at d x) (O - k)) 255
                               + Z.shiftr (byte_at d (x + 1)) (8 - (O - k)))).
  - cbn [rbind]. unfold left_data. change ((O + n - 1) / 8 + 1) with bl.
    replace (bo + bl - 1) with (bo + (bl - 1)) by lia.
    rewrite map_range_shift.
    replace ((o + n - 1) mod 8) with ((O + n - 1) mod 8)
      by (unfold O; clear; Z.div_mod_to_equations; lia).
    assert (map (fun x => Z.land (Z.shiftl (byte_at d (bo + x)) (O - k)) 255
                          + Z.shiftr (byte_at d (bo + x + 1)) (8 - (O - k)))
                (range 0 (bl - 1))
            = map (fun x => Z.land (Z.shiftl (byte_at D x) (O - k)) 255
                            + Z.shiftr (byte_at D (x + 1)) (8 - (O - k)))
                  (range 0 (bl - 1))) as ->.
    { apply map_ext_in. intros x Hx. apply list_elem_of_In, elem_of_range in Hx.
      rewrite !low_D_byte by lia. now rewrite Z.add_assoc. }
    destruct ((O + n - 1) mod 8 + 1 >? O - k); [|now rewrite app_nil_r].
    rewrite low_getitem by lia. rewrite low_D_byte by lia. reflexivity.
  - intros x Hx%elem_of_range. rewrite !low_getitem by lia. reflexivity.
Qed.

Lemma offsetcopy_mem_low (k : Z) :
  0 <= k <= O ->
  exists d',
    offsetcopy s k h
    = Ok (S (length h), h ++ [Bytes d'; Mem ByteArray (length h) k n])
    /\ bytes_ok d' /\ len d' = (k + n + 7) / 8
    /\ forall i, 0 <= i < n -> bit_at d' (k + i) = bit_at d (o + i).
Proof.
  intros Hk. pose proof low_fit as [Hbl Hfit]. pose proof low_bo as Hbo.
  pose proof low_O as HO. pose proof low_D_cov as HDc.
  unfold offsetcopy, mbnd, rd. rewrite assert_range by lia.
  unfold get_bitlength, get_offset. rewrite Hs. cbv beta iota.
  destruct (Z.eqb_spec n 0); [lia|]. rewrite Hs. fold O.
  destruct (Z.eqb_spec k O) as [->|Hne]; cbv beta iota.
  - exists (py_slice d bo (bo + bl)).
    unfold get_bytelength. rewrite Hs, low_bl_eq.
    unfold getbyteslice, mbnd, rd, get_bytes. rewrite Hs, Hr. fold bo.
    rewrite Z.add_0_l, (Z.add_comm bl bo).
    unfold alloc at 1. rewrite new_buffer_run.
    split; [reflexivity|]. split; [|split].
    + now apply bytes_ok_py_slice.
    + rewrite len_py_slice by lia. unfold bl. clear - HO Hn.
      Z.div_mod_to_equations. lia.
    + intros i Hi. rewrite <- low_D_bit by lia. unfold bit_at.
      assert (0 <= (O + i) / 8 < bl)
        by (unfold bl; clear - HO Hi; Z.div_mod_to_equations; lia).
      rewrite byte_at_py_slice by lia. now rewrite low_D_byte by lia.
  - exists (left_data D O n k). rewrite offsetcopy_newdata_low by lia.
    rewrite to_bytearray_ok by (apply left_data_ok; [apply low_D_ok|lia|lia]).
    unfold alloc at 1. rewrite new_buffer_run.
    split; [reflexivity|]. split; [apply left_data_ok; [apply low_D_ok|lia|lia]|].
    split; [apply left_data_len; lia|].
    intros i Hi. rewrite <- low_D_bit by lia.
    apply left_data_bits; [apply low_D_ok|lia|lia|lia|lia|lia].
Qed.
End OffsetcopyMemLow.

(** X25. [offsetcopy(s, newoffset)] of an in-memory buffer whose storage covers
    its bits returns a new mutable buffer over a new bytearray, with the
    same bitlength, that reads the same bit at every position, provided the
    offset of [s] is below 8 or [newoffset] is not above [s.offset mod 8].
    The result has offset [newoffset] and a bytearray of exactly the bytes
    its bits need, unless [s] is empty: then it keeps the offset and the
    bytes of [s]. *)
Theorem offsetcopy_preserves_bits_mem
        (h : heap) (s : loc) (d : list Z) (o n k : Z) :
  mem_buffer h s d o n -> 0 <= k < 8 -> o < 8 \/ k <= o mod 8 ->
  exists d',
    offsetcopy s k h
    = Ok (S (length h),
          h ++ [Bytes d'; Mem ByteArray (length h) (if n =? 0 then o else k) n])
    /\ (if n =? 0 then d' = d else len d' = (k + n + 7) / 8)
    /\ forall i, 0 <= i < n ->
         exists b, getbit h s i = Ok b
                   /\ getbit (h ++ [Bytes d'; Mem ByteArray (length h) k n])
                             (S (length h)) i = Ok b.
Proof.
  intros Hm Hk Hdom. pose proof Hm as ((c & r & Hs & Hr) & Hd & Ho & Hn & Hcov).
  destruct (Z.eqb_spec n 0) as [->|Hn0].
  - exists d. split; [eapply offsetcopy_mem_empty; eassumption|].
    split; [reflexivity|]. intros i Hi. lia.
  - destruct Hcov as [?|Hcov]; [lia|].
    assert (exists d',
      offsetcopy s k h
      = Ok (S (length h), h ++ [Bytes d'; Mem ByteArray (length h) k n])
      /\ bytes_ok d' /\ len d' = (k + n + 7) / 8
      /\ forall i, 0 <= i < n -> bit_at d' (k + i) = bit_at d (o + i))
      as (d' & Hrun & Hd' & Hlen & Hbits).
    { destruct Hdom as [Ho8|Hlow].
      - apply (offsetcopy_mem h s c r o n d); assumption || lia.
      - apply (offsetcopy_mem_low h s c r o n d); assumption || lia. }
    exists d'. split; [exact Hrun|]. split; [exact Hlen|].
    intros i Hi. exists (bit_at d (o + i)). split; [eapply getbit_mem; eassumption|].
    rewrite <- Hbits by assumption.
    apply getbit_mem with (n := n); [|assumption].
    split; [do 2 eexists; split; [apply lookup_tail1|apply lookup_tail0]|].
    repeat split; try assumption; try lia.
    right. rewrite Hlen. clear. Z.div_mod_to_equations. lia.
Qed.

Lemma offsetcopy_preserves_bits_mem_witness :
  exists d',
    offsetcopy 1%nat 2 [Bytes [9; 171; 192]; Mem ConstByteArray 0%nat 11 7]
    = Ok (3%nat, [Bytes [9; 171; 192]; Mem ConstByteArray 0%nat 11 7;
                  Bytes d'; Mem ByteArray 2%nat 2 7])
    /\ len d' = 2.
Proof.
  destruct (offsetcopy_preserves_bits_mem
              [Bytes [9; 171; 192]; Mem ConstByteArray 0%nat 11 7] 1%nat
              [9; 171; 192] 11 7 2)
    as (d' & Hrun & Hlen & _); try lia; try concrete_buffer.
  - right. vm_compute. discriminate.
  - exists d'. split; [exact Hrun|]. cbn [Z.eqb] in Hlen. rewrite Hlen. reflexivity.
Defined.

Section OffsetcopyFile.
Variables (h : heap) (s : loc) (src : file) (o n : Z).
Hypothesis Hs : h !! s = Some (FileArray src ((n + o + 7) / 8) n 0 o).
Hypothesis Hsrc : bytes_ok src.
Hypothesis Ho : 0 <= o < 8.
Hypothesis Hn : 1 <= n.
Hypothesis Hfit : (n + o + 7) / 8 <= len src.

Let bl := (o + n - 1) / 8 + 1.

Local Lemma file_bl_eq : (n + o + 7) / 8 = bl.
Proof. unfold bl. clear - Ho Hn. Z.div_mod_to_equations. lia. Qed.

Local Lemma file_bl_range : 1 <= bl <= len src.
Proof.
  rewrite <- file_bl_eq. split; [|exact Hfit].
  clear - Ho Hn. Z.div_mod_to_equations. lia.
Qed.

Local Lemma file_cov : o + n <= 8 * len src.
Proof.
  pose proof file_bl_range as Hbl. unfold bl in Hbl.
  assert (o + n <= 8 * ((o + n - 1) / 8 + 1)) by (clear; Z.div_mod_to_equations; lia).
  lia.
Qed.

Local Lemma getitem_file (x : Z) :
  0 <= x < len src -> getitem h s x = Ok (byte_at src x).
Proof.
  intros Hx. unfold getitem. rewrite Hs. unfold getbyte. rewrite Hs.
  destruct (Z.ltb_spec (x + 0) 0); [lia|].
  rewrite seek_read_one by lia. cbn [rbind ord]. now rewrite !Z.add_0_r.
Qed.

Local Lemma getbyte_file_0 : getbyte h s 0 = Ok (byte_at src 0).
Proof.
  pose proof file_bl_range. unfold getbyte. rewrite Hs. cbn [Z.ltb Z.compare].
  rewrite seek_read_one by lia. reflexivity.
Qed.

Lemma offsetcopy_newdata_left_file (k : Z) :
  0 <= k < o -> offsetcopy_newdata h s k = Ok (left_data src o n k).
Proof.
  intros Hk. pose proof file_bl_range as Hbl.
  unfold offsetcopy_newdata, get_rawarray, get_offset, get_bitlength,
    get_byteoffset, get_bytelength.
  rewrite Hs. cbn [try_except rbind]. rewrite (Z.mod_small o 8), file_bl_eq by lia.
  destruct (Z.ltb_spec k o); [|lia].
  rewrite bits_in_last_byte_pos by lia.
  rewrite (mapM_ok _ (fun x => Z.land (Z.shiftl (byte_at src x) (o - k)) 255
                               + Z.shiftr (byte_at src (x + 1)) (8 - (o - k)))).
  - cbn [rbind]. unfold left_data. change ((o + n - 1) / 8 + 1) with bl.
    change (0 + bl - 1) with (bl - 1).
    destruct ((o + n - 1) mod 8 + 1 >? o - k); [|now rewrite app_nil_r].
    rewrite getitem_file by lia. reflexivity.
  - intros x Hx%elem_of_range. rewrite !getitem_file by lia. reflexivity.
Qed.

Lemma offsetcopy_newdata_right_file (k : Z) :
  o < k < 8 -> offsetcopy_newdata h s k = Ok (right_data src o n k).
Proof.
  intros Hk. pose proof file_bl_range as Hbl.
  unfold offsetcopy_newdata, get_rawarray, get_offset, get_bitlength,
    get_byteoffset, get_bytelength.
  rewrite Hs. cbn [try_except rbind]. rewrite (Z.mod_small o 8), file_bl_eq by lia.
  destruct (Z.ltb_spec k o); [lia|].
  rewrite bits_in_last_byte_pos by lia.
  rewrite getbyte_file_0. cbn [rbind].
  rewrite (mapM_ok _ (fun x => Z.land (Z.shiftl (byte_at src (x - 1)) (8 - (k - o))) 255
                               + Z.shiftr (byte_at src x) (k - o))).
  - cbn [rbind]. unfold right_data. change ((o + n - 1) / 8 + 1) with bl.
    change (0 + bl - 1) with (bl - 1).
    destruct ((o + n - 1) mod 8 + 1 + (k - o) >? 8); [|now rewrite app_nil_r].
    rewrite getitem_file by lia. reflexivity.
  - intros x Hx%elem_of_range. rewrite !getitem_file by lia. reflexivity.
Qed.

Lemma offsetcopy_file (k : Z) :
  0 <= k < 8 ->
  exists d',
    offsetcopy s k h
    = Ok (S (length h), h ++ [Bytes d'; Mem ByteArray (length h) k n])
    /\ bytes_ok d' /\ len d' = (k + n + 7) / 8
    /\ forall i, 0 <= i < n -> bit_at d' (k + i) = bit_at src (o + i).
Proof.
  intros Hk. pose proof file_bl_range as Hbl. pose proof file_cov as Hcov.
  unfold offsetcopy, mbnd, rd. rewrite assert_range by assumption.
  unfold get_bitlength, get_offset. rewrite Hs. cbv beta iota.
  destruct (Z.eqb_spec n 0); [lia|]. rewrite Hs, (Z.mod_small o 8) by lia.
  destruct (Z.eqb_spec k o) as [->|Hne]; cbv beta iota.
  - exists (take (Z.to_nat bl) src).
    unfold get_bytelength. rewrite Hs, file_bl_eq.
    unfold getbyteslice, mbnd, rd. rewrite Hs.
    destruct (Z.ltb_spec 0 bl); [|lia].
    unfold seek_read. change (0 + 0) with 0. change (0 <? 0) with false.
    change (Z.to_nat 0) with 0%nat. rewrite Z.sub_0_r. cbn [drop].
    unfold alloc at 1. rewrite new_buffer_run.
    split; [reflexivity|]. split; [|split].
    + unfold bytes_ok. apply Forall_take. exact Hsrc.
    + unfold len in *. rewrite length_take. unfold bl in *.
      Z.div_mod_to_equations. lia.
    + intros i Hi. unfold bit_at. rewrite byte_at_take; [reflexivity|].
      unfold bl. Z.div_mod_to_equations. lia.
  - destruct (Z.lt_total k o) as [Hlt|[?|Hgt]]; [|lia|].
    + exists (left_data src o n k). rewrite offsetcopy_newdata_left_file by lia.
      rewrite to_bytearray_ok by (apply left_data_ok; assumption || lia).
      unfold alloc at 1. rewrite new_buffer_run.
      split; [reflexivity|]. split; [apply left_data_ok; assumption || lia|].
      split; [apply left_data_len; lia|].
      intros i Hi. apply left_data_bits; assumption || lia.
    + exists (right_data src o n k). rewrite offsetcopy_newdata_right_file by lia.
      rewrite to_bytearray_ok by (apply right_data_ok; assumption || lia).
      unfold alloc at 1. rewrite new_buffer_run.
      split; [reflexivity|]. split; [apply right_data_ok; assumption || lia|].
      split; [apply right_data_len; lia|].
      intros i Hi. apply right_data_bits; assumption || lia.
Qed.
End OffsetcopyFile.

(** X26. [offsetcopy] of a file-backed buffer whose window lies inside the file
    gives an in-memory buffer that reads the same bits when the window
    starts in the first byte of the file or when [newoffset] is the offset
    the buffer already has. *)
Theorem offsetcopy_preserves_bits_file
        (h : heap) (s : loc) (src : file) (bo o n k : Z) :
  file_buffer h s src bo o n -> 1 <= n -> 0 <= k < 8 -> bo = 0 \/ k = o ->
  exists d',
    offsetcopy s k h
    = Ok (S (length h), h ++ [Bytes d'; Mem ByteArray (length h) k n])
    /\ len d' = (k + n + 7) / 8
    /\ forall i, 0 <= i < n ->
         exists b, getbit h s i = Ok b
                   /\ getbit (h ++ [Bytes d'; Mem ByteArray (length h) k n])
                             (S (length h)) i = Ok b.
Proof.
  intros Hf Hn Hk Hdom. pose proof Hf as (Hs & Hsrc & Hbo & Ho & _ & Hfit).
  assert (exists d',
    offsetcopy s k h
    = Ok (S (length h), h ++ [Bytes d'; Mem ByteArray (length h) k n])
    /\ bytes_ok d' /\ len d' = (k + n + 7) / 8
    /\ forall i, 0 <= i < n -> bit_at d' (k + i) = bit_at src (8 * bo + o + i))
    as (d' & Hrun & Hd' & Hlen & Hbits).
  { destruct Hdom as [->| ->].
    - destruct (offsetcopy_file h s src o n Hs Hsrc Ho Hn ltac:(lia) k Hk)
        as (d' & Hrun & Hd' & Hlen & Hbits).
      exists d'. split; [exact Hrun|]. split; [exact Hd'|]. split; [exact Hlen|].
      intros i Hi. now rewrite Hbits by assumption.
    - assert (1 <= (n + o + 7) / 8) as Hbl
        by (clear - Ho Hn; Z.div_mod_to_equations; lia).
      exists (py_slice src bo (bo + (n + o + 7) / 8)).
      split; [|split; [|split]].
      + unfold offsetcopy, mbnd, rd. rewrite assert_range by assumption.
        unfold get_bitlength, get_offset. rewrite Hs. cbv beta iota.
        destruct (Z.eqb_spec n 0); [lia|]. rewrite Hs, (Z.mod_small o 8) by lia.
        rewrite Z.eqb_refl. cbv beta iota.
        unfold get_bytelength. rewrite Hs.
        unfold getbyteslice, mbnd, rd. rewrite Hs.
        destruct (Z.ltb_spec 0 ((n + o + 7) / 8)); [|lia].
        rewrite Z.add_0_l, Z.sub_0_r, seek_read_window by lia.
        unfold alloc at 1. now rewrite new_buffer_run.
      + now apply bytes_ok_py_slice.
      + rewrite len_py_slice by lia. replace (o + n + 7) with (n + o + 7) by lia. lia.
      + intros i Hi. unfold bit_at.
        assert (0 <= (o + i) / 8 < (n + o + 7) / 8)
          by (clear - Ho Hi; Z.div_mod_to_equations; lia).
        rewrite byte_at_py_slice by lia.
        replace ((8 * bo + o + i) / 8) with (bo + (o + i) / 8)
          by (clear; Z.div_mod_to_equations; lia).
        replace ((8 * bo + o + i) mod 8) with ((o + i) mod 8)
          by (clear; Z.div_mod_to_equations; lia).
        reflexivity. }
  exists d'. split; [exact Hrun|]. split; [exact Hlen|].
  intros i Hi. exists (bit_at src (8 * bo + o + i)).
  split; [eapply getbit_file; eassumption|].
  rewrite <- Hbits by assumption.
  apply getbit_mem with (n := n); [|assumption].
  split; [do 2 eexists; split; [apply lookup_tail1|apply lookup_tail0]|].
  repeat split; try assumption; try lia.
  right. rewrite Hlen. clear. Z.div_mod_to_equations. lia.
Qed.

Lemma offsetcopy_preserves_bits_file_witness :
  exists d',
    offsetcopy 0%nat 6 [FileArray [171; 192; 5] 2 7 0 3]
    = Ok (2%nat, [FileArray [171; 192; 5] 2 7 0 3; Bytes d'; Mem ByteArray 1%nat 6 7])
    /\ len d' = 2.
Proof.
  destruct (offsetcopy_preserves_bits_file
              [FileArray [171; 192; 5] 2 7 0 3] 0%nat [171; 192; 5] 0 3 7 6)
    as (d' & Hrun & Hlen & _); try lia.
  - split; [reflexivity|]. split; [repeat constructor; lia|].
    vm_compute. intuition discriminate.
  - exists d'. split; [exact Hrun|]. rewrite Hlen. reflexivity.
Defined.

(** ** The bits after [appendarray] and [prependarray] *)

(** X28. [appendarray] extends the receiver in place: the receiver keeps its
    bytearray object and its offset, reads its old bits at the old
    positions, and reads the bits of the argument after them.  The argument
    may be any in-memory buffer, the receiver itself included. *)
Theorem appendarray_then_getbit
        (H : heap) (c lc b : loc) (cb : cls) (rb : loc)
        (oa na ob nb : Z) (da db : list Z) :
  H !! c = Some (Mem ByteArray lc oa na) -> H !! lc = Some (Bytes da) ->
  H !! b = Some (Mem cb rb ob nb) -> H !! rb = Some (Bytes db) ->
  bytes_ok da -> bytes_ok db ->
  0 <= oa -> 0 <= na -> 0 <= ob < 8 -> 1 <= nb -> ob + nb <= 8 * len db ->
  len da = (oa + na + 7) / 8 ->
  exists h' d2,
    appendarray c b H = Ok (tt, h')
    /\ h' !! c = Some (Mem ByteArray lc oa (na + nb))
    /\ h' !! lc = Some (Bytes d2)
    /\ (forall i, 0 <= i < na ->
          exists bit, getbit H c i = Ok bit /\ getbit h' c i = Ok bit)
    /\ (forall i, 0 <= i < nb ->
          exists bit, getbit H b i = Ok bit /\ getbit h' c (na + i) = Ok bit).
Proof.
  intros Hc Hlc Hb Hrb Hda Hdb Hoa Hna Hob Hnb Hcov Htight.
  destruct (appendarray_run H c lc b cb rb oa na ob nb da db) as (d' & Hrun & Hd' & Hlen & Hbits);
    try assumption.
  assert (c <> lc) as Hne by (intros ->; congruence).
  assert (Hltc := lookup_lt_Some _ _ _ Hc). assert (Hltl := lookup_lt_Some _ _ _ Hlc).
  set (k := (oa + na) mod 8) in *.
  set (new := append_bytes da d' k) in *.
  set (h' := <[c := _]> _) in Hrun.
  assert (h' !! c = Some (Mem ByteArray lc oa (na + nb))) as Hc'.
  { unfold h'. apply list_lookup_insert_eq.
    rewrite length_insert, length_app. lia. }
  assert (h' !! lc = Some (Bytes new)) as Hlc'.
  { unfold h'. rewrite list_lookup_insert_ne by congruence.
    apply list_lookup_insert_eq. rewrite length_app. lia. }
  assert (oa + na + nb <= 8 * len new) as Hcov'
    by (apply (append_bytes_len da d' (oa + na) nb k); auto; lia).
  assert (oa + na <= 8 * len da)
    by (rewrite Htight; clear; Z.div_mod_to_equations; lia).
  exists h', new. repeat apply conj; try assumption.
  - intros i Hi. exists (bit_at da (oa + i)). split.
    + eapply getbit_raw; try eassumption; lia.
    + erewrite getbit_raw; [|exact Hc'|exact Hlc'|lia|lia].
      f_equal. apply (append_bytes_old da d' (oa + na) nb k); auto; lia.
  - intros i Hi. exists (bit_at db (ob + i)). split.
    + eapply getbit_raw; try eassumption; lia.
    + erewrite getbit_raw; [|exact Hc'|exact Hlc'|lia|lia].
      f_equal. rewrite <- Hbits by assumption. rewrite Z.add_assoc.
      apply (append_bytes_new da d' (oa + na) nb k); auto; lia.
Qed.

Lemma appendarray_then_getbit_witness :
  exists h' d2,
    appendarray 1%nat 1%nat [Bytes [204]; Mem ByteArray 0%nat 0 6] = Ok (tt, h')
    /\ h' !! 1%nat = Some (Mem ByteArray 0%nat 0 (6 + 6))
    /\ h' !! 0%nat = Some (Bytes d2).
Proof.
  destruct (appendarray_then_getbit [Bytes [204]; Mem ByteArray 0%nat 0 6]
              1%nat 0%nat 1%nat ByteArray 0%nat 0 6 0 6 [204] [204])
    as (h' & d2 & Hrun & Hc & Hlc & _);
    try reflexivity; try lia; try (repeat constructor; lia);
    try (unfold len; simpl; lia).
  exists h', d2. repeat split; assumption.
Defined.

(** X29. [prependarray] gives the receiver a new bytearray and a new offset: it
    then reads the bits of the argument followed by its own old bits, and
    the bytearray it had before is left as it was. *)
Theorem prependarray_then_getbit
        (H : heap) (c lc a : loc) (ca : cls) (ra : loc)
        (oa na ob nb : Z) (da db : list Z) :
  H !! c = Some (Mem ByteArray lc ob nb) -> H !! lc = Some (Bytes db) ->
  H !! a = Some (Mem ca ra oa na) -> H !! ra = Some (Bytes da) ->
  bytes_ok da -> bytes_ok db ->
  0 <= oa < 8 -> 1 <= na -> oa + na <= 8 * len da ->
  0 <= ob < 8 -> 0 <= nb -> ob + nb <= 8 * len db ->
  exists h' d2,
    prependarray c a H = Ok (tt, h')
    /\ h' !! c = Some (Mem ByteArray (length H) ((ob - na) mod 8) (nb + na))
    /\ h' !! length H = Some (Bytes d2)
    /\ h' !! lc = Some (Bytes db)
    /\ (forall i, 0 <= i < na ->
          exists bit, getbit H a i = Ok bit /\ getbit h' c i = Ok bit)
    /\ (forall i, 0 <= i < nb ->
          exists bit, getbit H c i = Ok bit /\ getbit h' c (na + i) = Ok bit).
Proof.
  intros Hc Hlc Ha Hra Hda Hdb Hoa Hna Hcova Hob Hnb Hcovb.
  destruct (prependarray_run H c lc a ca ra oa na ob nb da db)
    as (d' & Hrun & Hd' & Hlen & Hbits); try assumption.
  assert (c <> lc) as Hne by (intros ->; congruence).
  assert (Hltc := lookup_lt_Some _ _ _ Hc). assert (Hltl := lookup_lt_Some _ _ _ Hlc).
  set (k := (ob - na) mod 8) in *.
  assert (0 <= k < 8) as Hk by apply mod8_range.
  assert ((k + na) mod 8 = ob) as Hjoin
    by (unfold k; clear - Hob; Z.div_mod_to_equations; lia).
  set (new := prepend_bytes d' db ob (mem_bytelength ob nb)) in *.
  set (h' := <[c := _]> _) in Hrun.
  assert (h' !! c = Some (Mem ByteArray (length H) k (nb + na))) as Hc'.
  { unfold h'. apply list_lookup_insert_eq.
    rewrite length_insert, length_app. lia. }
  assert (h' !! length H = Some (Bytes new)) as Hnew.
  { unfold h'. rewrite list_lookup_insert_ne by lia.
    apply list_lookup_insert_eq. rewrite length_app. cbn [length]. lia. }
  assert (h' !! lc = Some (Bytes db)) as Hlc'.
  { unfold h'. rewrite !list_lookup_insert_ne by (congruence || lia).
    now rewrite lookup_alloc_old. }
  assert (k + na + nb <= 8 * len new) as Hcov'
    by (apply (prepend_bytes_len d' db k na ob nb); auto; lia).
  exists h', new. repeat apply conj; try assumption.
  - intros i Hi. exists (bit_at da (oa + i)). split.
    + eapply getbit_raw; try eassumption; lia.
    + erewrite getbit_raw; [|exact Hc'|exact Hnew|lia|lia].
      f_equal. rewrite <- Hbits by assumption.
      apply (prepend_bytes_old d' db k na ob nb); auto; lia.
  - intros i Hi. exists (bit_at db (ob + i)). split.
    + eapply getbit_raw; try eassumption; lia.
    + erewrite getbit_raw; [|exact Hc'|exact Hnew|lia|lia].
      f_equal. rewrite Z.add_assoc.
      apply (prepend_bytes_new d' db k na ob nb); auto; lia.
Qed.

Lemma prependarray_then_getbit_witness :
  exists h' d2,
    prependarray 1%nat 3%nat
      [Bytes [0; 94; 5]; Mem ByteArray 0%nat 5 13;
       Bytes [171; 192]; Mem ConstByteArray 2%nat 3 7] = Ok (tt, h')
    /\ h' !! 1%nat = Some (Mem ByteArray 4%nat ((5 - 7) mod 8) (13 + 7))
    /\ h' !! 4%nat = Some (Bytes d2)
    /\ h' !! 0%nat = Some (Bytes [0; 94; 5]).
Proof.
  destruct (prependarray_then_getbit
              [Bytes [0; 94; 5]; Mem ByteArray 0%nat 5 13;
               Bytes [171; 192]; Mem ConstByteArray 2%nat 3 7]
              1%nat 0%nat 3%nat ConstByteArray 2%nat 3 7 5 13 [171; 192] [0; 94; 5])
    as (h' & d2 & Hrun & Hc & Hnew & Hlc & _);
    try reflexivity; try lia; try (repeat constructor; lia);
    try (unfold len; simpl; lia).
  exists h', d2. repeat split; assumption.
Defined.

(** ** What the mutators leave alone *)

(** X7. A mutator that returns has changed at most its receiver and the
    bytearray the receiver had: the receiver was a mutable buffer, and every
    other object of the heap is as it was. *)
Theorem mutation_changes_only_receiver
        (self : loc) (m : mutation) (h : heap) u (h' : heap) :
  mutate self m h = Ok (u, h') ->
  exists r o n,
    h !! self = Some (Mem ByteArray r o n)
    /\ (length h <= length h')%nat
    /\ forall x, (x < length h)%nat -> x <> self -> x <> r -> h' !! x = h !! x.
Proof.
  intros Hm. apply mutate_touches in Hm.
  destruct Hm as (r & o & n & r' & o' & n' & Hs & _ & _ & Hlen & Hfr).
  exists r, o, n. split; [exact Hs|]. split; [exact Hlen|].
  intros x Hx H1 H2. apply Hfr; [assumption|]. intros [?|?]; contradiction.
Qed.

Lemma mutation_changes_only_receiver_witness :
  [Bytes [16]; Mem ByteArray 0%nat 0 8; Bytes [5]] !! 2%nat
  = [Bytes [0]; Mem ByteArray 0%nat 0 8; Bytes [5]] !! 2%nat.
Proof.
  destruct (mutation_changes_only_receiver 1%nat (Setbit 3)
              [Bytes [0]; Mem ByteArray 0%nat 0 8; Bytes [5]] tt
              [Bytes [16]; Mem ByteArray 0%nat 0 8; Bytes [5]])
    as (r & o & n & Hs & _ & Hfr); [reflexivity|].
  injection Hs as <- <- <-. apply Hfr; [simpl; lia|lia|lia].
Defined.

(** X30. Joining an empty buffer, of either representation, on either side
    changes nothing: [appendarray] and [prependarray] return at once and
    the heap is as it was. *)
Theorem joining_empty_changes_nothing
        (h : heap) (self r : loc) (o n : Z) (array : loc) :
  h !! self = Some (Mem ByteArray r o n) ->
  get_bitlength h array = Ok 0 ->
  appendarray self array h = Ok (tt, h) /\ prependarray self array h = Ok (tt, h).
Proof.
  intros Hs Ha. unfold appendarray, prependarray. rewrite Hs.
  rewrite !(mbnd_rd _ _ _ 0) by exact Ha. split; reflexivity.
Qed.

Lemma joining_empty_changes_nothing_witness :
  appendarray 1%nat 2%nat [Bytes [7]; Mem ByteArray 0%nat 2 5; FileArray [1; 2] 1 0 0 3]
  = Ok (tt, [Bytes [7]; Mem ByteArray 0%nat 2 5; FileArray [1; 2] 1 0 0 3])
  /\ prependarray 1%nat 2%nat
       [Bytes [7]; Mem ByteArray 0%nat 2 5; FileArray [1; 2] 1 0 0 3]
     = Ok (tt, [Bytes [7]; Mem ByteArray 0%nat 2 5; FileArray [1; 2] 1 0 0 3]).
Proof.
  apply (joining_empty_changes_nothing _ 1%nat 0%nat 2 5 2%nat); reflexivity.
Defined.

(** X16. On a file-backed buffer [getbyte] with a negative position counts from
    the end of the window: position [-1] is the last byte of the window. *)
Theorem getbyte_file_counts_from_window_end
        (h : heap) (self : loc) (src : file) (bl n bo o pos : Z) :
  h !! self = Some (FileArray src bl n bo o) ->
  0 <= bo -> - bl <= pos < 0 -> bo + bl <= len src ->
  getbyte h self pos = Ok (byte_at src (bo + bl + pos)).
Proof.
  intros Hs Hbo Hp Hfit. unfold getbyte. rewrite Hs.
  destruct (Z.ltb_spec pos 0); [|lia].
  rewrite seek_read_one by lia. cbn [rbind ord]. do 2 f_equal. lia.
Qed.

Lemma getbyte_file_counts_from_window_end_witness :
  getbyte [FileArray [1; 2; 3; 4] 2 16 1 0] 0%nat (-1)
  = Ok (byte_at [1; 2; 3; 4] (1 + 2 + -1)).
Proof.
  apply (getbyte_file_counts_from_window_end _ 0%nat [1; 2; 3; 4] 2 16 1 0 (-1));
    try reflexivity; try lia. unfold len; simpl; lia.
Defined.

(** X13. A copy is not a view: [copy] leaves every object of the heap as it
    was, and no sequence of mutations of the copy changes any object that
    existed before the copy was made. *)
Theorem copy_never_shares (self : loc) (h : heap) (l : loc) (h1 : heap) :
  copy self h = Ok (l, h1) ->
  (length h <= l)%nat
  /\ (forall x, (x < length h)%nat -> h1 !! x = h !! x)
  /\ forall ms u h2, mutate_all l ms h1 = Ok (u, h2) ->
       forall x, (x < length h)%nat -> h2 !! x = h !! x.
Proof.
  intros Hc. apply copy_fresh in Hc.
  destruct Hc as (t & rr & d & off & bl & -> & Hl & Hrr & Hge & Hgel).
  split; [assumption|]. split; [intros x Hx; now apply lookup_app_l|].
  intros ms u h2 Hm.
  assert (owned_after h (h ++ t) l) as Ho.
  { split; [eauto|]. split; [assumption|]. apply frame_app, frame_refl. }
  eapply mutate_all_owned in Hm as (_ & _ & [_ F]); [|exact Ho].
  intros x Hx. apply F; auto.
Qed.

Lemma copy_never_shares_witness :
  exists h2,
    mutate_all 3%nat [Setbit 0; Appendarray 1%nat]
      [Bytes [7]; Mem ConstByteArray 0%nat 1 6; Bytes [7]; Mem ByteArray 2%nat 1 6]
    = Ok (tt, h2)
    /\ h2 !! 0%nat = Some (Bytes [7])
    /\ h2 !! 1%nat = Some (Mem ConstByteArray 0%nat 1 6).
Proof.
  destruct (copy_never_shares 1%nat [Bytes [7]; Mem ConstByteArray 0%nat 1 6]
              3%nat [Bytes [7]; Mem ConstByteArray 0%nat 1 6;
                     Bytes [7]; Mem ByteArray 2%nat 1 6]) as (_ & _ & H);
    [reflexivity|].
  assert (exists h2,
            mutate_all 3%nat [Setbit 0; Appendarray 1%nat]
              [Bytes [7]; Mem ConstByteArray 0%nat 1 6; Bytes [7]; Mem ByteArray 2%nat 1 6]
            = Ok (tt, h2)) as [h2 Hm] by (eexists; vm_compute; reflexivity).
  exists h2. split; [exact Hm|].
  split; [apply (H _ _ _ Hm 0%nat)|apply (H _ _ _ Hm 1%nat)]; simpl; lia.
Defined.

(** X11. [slice] of a file-backed buffer checks the new window against the
    file and not against the window of the buffer it is cut from: it raises
    the creation error exactly when the window runs past the end of the
    file, and otherwise returns a file-backed buffer inside the file,
    whatever the bitlength of the parent. *)
Theorem slice_checks_the_file_only
        (h : heap) (ba : loc) (src : file) (bl m bo o n off : Z) :
  h !! ba = Some (FileArray src bl m bo o) -> bytes_ok src ->
  0 <= bo -> 0 <= o < 8 -> 0 <= off -> 0 <= n ->
  (8 * len src < 8 * bo + o + off + n -> slice ba n off h = Raise CreationError)
  /\ (8 * bo + o + off + n <= 8 * len src ->
      exists h', slice ba n off h = Ok (length h, h')
                 /\ file_buffer h' (length h) src ((8 * bo + o + off) / 8)
                                ((8 * bo + o + off) mod 8) n).
Proof.
  intros Hba Hsrc Hbo Ho Hoff Hn.
  rewrite (slice_file_run _ _ _ _ _ _ _ n off Hba).
  set (T := 8 * bo + o + off). assert (0 <= T) as HT by (unfold T; lia).
  assert (forall L, 0 <= L ->
            ((n + T mod 8 + 7) / 8 > L - T / 8 <-> 8 * L < T + n)) as Hfit.
  { clear - HT Hn. intros L HL. Z.div_mod_to_equations. lia. }
  pose proof (Hfit (len src) (len_nonneg src)) as Hf.
  split.
  - intros Hlong. unfold new_file. cbn [divmod].
    destruct (Z.gtb_spec ((n + T mod 8 + 7) / 8) (len src - T / 8)); [reflexivity|].
    unfold T in *. lia.
  - intros Hin.
    assert (exists l h', new_file src (Some n) T h = Ok (l, h')) as (l & h' & Hrun).
    { unfold new_file. cbn [divmod].
      destruct (Z.gtb_spec ((n + T mod 8 + 7) / 8) (len src - T / 8));
        [unfold T in *; lia|]. unfold alloc. eauto. }
    destruct (new_file_buffer _ _ _ _ _ _ Hsrc HT Hn Hrun) as (-> & Hfb).
    exists h'. split; assumption.
Qed.

Lemma slice_checks_the_file_only_witness :
  slice 0%nat 9 20 [FileArray [1; 2; 3; 4] 1 1 0 5] = Raise CreationError.
Proof.
  apply (slice_checks_the_file_only [FileArray [1; 2; 3; 4] 1 1 0 5] 0%nat
           [1; 2; 3; 4] 1 1 0 5 9 20);
    try reflexivity; try lia; try (repeat constructor; lia).
Defined.

(** ** [appendarray] on a receiver with storage past its last bit *)

(** C2. [appendarray] puts the bits of its argument after the last byte of
    the receiver's bytearray, not after the receiver's last bit.  The buffer
    [a] over the bytes 0xFF 0x00 with offset 0 and bitlength 8, as [slice]
    builds it, and [b] over the byte 0xFF with bitlength 8: after
    [c = copy(a)] and [appendarray(c, b)], [c] has bitlength 16 over the
    bytes 0xFF 0x00 0xFF, its bits 8..15 read 0 where [b] reads 1, and
    [slice(c, 8, 8)] is not equal to [b].  [prependarray] on the same
    receiver takes the bytes of its window only, and both of its slices are
    equal to the operands. *)
Theorem appendarray_joins_after_trailing_storage :
  let h := [Bytes [255; 0]; Mem ByteArray 0%nat 0 8;
            Bytes [255]; Mem ByteArray 2%nat 0 8] in
  (exists h0, slice 1%nat 8 0 [Bytes [255; 0]; Mem ByteArray 0%nat 0 16]
              = Ok (2%nat, h0)
              /\ h0 !! 2%nat = Some (Mem ByteArray 0%nat 0 8))
  /\ (exists h1,
        (c <~ copy 1%nat ;; _ <~ appendarray c 3%nat ;; ret c) h = Ok (5%nat, h1)
        /\ h1 !! 5%nat = Some (Mem ByteArray 4%nat 0 16)
        /\ h1 !! 4%nat = Some (Bytes [255; 0; 255])
        /\ forall i, 0 <= i < 8 ->
             getbit h 3%nat i = Ok true /\ getbit h1 5%nat (8 + i) = Ok false)
  /\ (exists h2, append_scenario 1%nat 3%nat h = Ok ((16, true, false), h2))
  /\ (exists h3, prepend_scenario 3%nat 1%nat h = Ok ((16, true, true), h3)).
Proof.
  intros h. split; [|split; [|split]].
  - eexists. split; [vm_compute; reflexivity|]. reflexivity.
  - eexists. split; [vm_compute; reflexivity|]. split; [reflexivity|].
    split; [reflexivity|]. intros i Hi.
    assert (i = 0 \/ i = 1 \/ i = 2 \/ i = 3 \/ i = 4 \/ i = 5 \/ i = 6 \/ i = 7)
      as Hc by lia.
    repeat destruct Hc as [->|Hc]; subst; split; reflexivity.
  - eexists. vm_compute. reflexivity.
  - eexists. vm_compute. reflexivity.
Qed.
